(** * english-learning-app backend: article cache and word-mastery bookkeeping

    A shallow embedding of the backend services
    - [services/llmService.ts]  (quiz article generation, two-level cache,
      eviction sweep),
    - [routes/quiz.ts]          (the generate handler in front of it), and
    - [routes/progress.ts]      (user, save-word and quiz-result handlers),
    together with the SQLite tables of [database/init.ts] they read and write;
    of the reading routes of [routes/quiz.ts] and [routes/progress.ts]
    (quiz words, saved words, daily progress, statistics); and of the device
    side: [utils/storage.ts], [utils/quizGenerator.ts] and the blank
    handlers of [screens/QuizScreen.tsx].

    Conventions of the embedding.
    - JavaScript strings are [string]s; identifiers, definitions and article
      texts are taken to be ASCII, so code-unit order is byte order.
    - A SQLite table is the list of its rows in rowid (insertion) order.
    - [Date.now()], [Math.random()] and the answer of the OpenAI API are
      inputs of each call ([CallEnv]); [process.env] is a [Config].
    - A thrown exception is an [Outcome] carried next to the state reached
      when it was thrown.
    - [generateQuizArticle], [generateArticleWithLLM] and the handlers are
      functions that run a call from its start to its end.  The one await
      that sits between reads and writes of shared state, the provider
      call inside [generateQuizArticle], is also modelled as a suspension
      point ([Overlap]), so that calls interleave there. *)

From Stdlib Require Import ZArith List String Ascii Bool Lia Permutation Sorted.
From Stdlib Require Import DecimalString.
From stdpp Require Import base option list gmap strings.
Import ListNotations.

Open Scope string_scope.
Open Scope Z_scope.

(** ** JavaScript string and array primitives used by the services *)

Module Js.

(** [Array.prototype.join]. *)
Definition join (sep : string) (ls : list string) : string :=
  String.concat sep ls.

(** Insertion into an ascending list, for [Array.prototype.sort()] with the
    default comparator (strings by code units). *)
Fixpoint insert_sorted (x : string) (l : list string) : list string :=
  match l with
  | [] => [x]
  | y :: l' => if String.leb x y then x :: y :: l' else y :: insert_sorted x l'
  end.

(** [Array.prototype.sort()]: the ascending rearrangement of the array. *)
Fixpoint sort (l : list string) : list string :=
  match l with
  | [] => []
  | x :: l' => insert_sorted x (sort l')
  end.

(** [String.prototype.includes]. *)
Fixpoint includes (s sub : string) : bool :=
  String.prefix sub s ||
  match s with
  | EmptyString => false
  | String _ s' => includes s' sub
  end.

Definition lower_ascii (c : ascii) : ascii :=
  let n := nat_of_ascii c in
  if (Nat.leb 65 n && Nat.leb n 90)%bool then ascii_of_nat (n + 32) else c.

(** [String.prototype.toLowerCase] on ASCII text. *)
Fixpoint toLowerCase (s : string) : string :=
  match s with
  | EmptyString => EmptyString
  | String c s' => String (lower_ascii c) (toLowerCase s')
  end.

Definition is_space (c : ascii) : bool :=
  let n := nat_of_ascii c in
  (Nat.leb 9 n && Nat.leb n 13)%bool || Nat.eqb n 32.

Fixpoint trimStart (s : string) : string :=
  match s with
  | EmptyString => EmptyString
  | String c s' => if is_space c then trimStart s' else s
  end.

Fixpoint rev_append (s acc : string) : string :=
  match s with
  | EmptyString => acc
  | String c s' => rev_append s' (String c acc)
  end.

Definition reverse (s : string) : string := rev_append s EmptyString.

(** [String.prototype.trim]. *)
Definition trim (s : string) : string :=
  reverse (trimStart (reverse (trimStart s))).

(** The blank marker of the quiz articles. *)
Definition blank : string := "______".

(** [(s.match(/______/g) || []).length]: matches are found left to right
    and do not overlap; [skip] counts the characters of the current match
    still to be consumed. *)
Fixpoint count_blanks_from (skip : nat) (s : string) : nat :=
  match s with
  | EmptyString => 0%nat
  | String _ s' =>
      match skip with
      | S k => count_blanks_from k s'
      | O => if String.prefix blank s
             then S (count_blanks_from 5 s')
             else count_blanks_from 0 s'
      end
  end.

Definition count_blanks (s : string) : nat := count_blanks_from 0 s.

(** JavaScript truthiness of a string. *)
Definition truthy (s : string) : bool := negb (String.eqb s "").

End Js.

(** ** Exceptions and state threading *)

Inductive Error :=
| NoWordsProvided     (* Error('No words provided for article generation') *)
| ApiKeyNotSet        (* Error('OPENAI_API_KEY is not set. ...') *)
| ProviderFailure     (* rejection of openai.chat.completions.create *)
| EmptyResponse       (* Error('Empty response from LLM') *)
| ECACHEFULL          (* node-cache: the cache holds maxKeys keys *)
| SqliteConstraint    (* better-sqlite3: a PRIMARY KEY or FOREIGN KEY fails *)
| ReferenceError.     (* an identifier evaluated outside the block of its let *)

Inductive Outcome (A : Type) :=
| Returned (a : A)
| Threw (e : Error).
Arguments Returned {A} a.
Arguments Threw {A} e.

(** A computation over a store of type [S] that returns or throws. *)
Definition M (S A : Type) : Type := S -> S * Outcome A.

Definition ret {S A} (a : A) : M S A := fun s => (s, Returned a).
Definition throw {S A} (e : Error) : M S A := fun s => (s, Threw e).
Definition bind {S A B} (m : M S A) (k : A -> M S B) : M S B :=
  fun s => match m s with
           | (s', Returned a) => k a s'
           | (s', Threw e) => (s', Threw e)
           end.
Definition tryCatch {S A} (m : M S A) (handler : Error -> M S A) : M S A :=
  fun s => match m s with
           | (s', Returned a) => (s', Returned a)
           | (s', Threw e) => handler e s'
           end.
Definition gets {S A} (f : S -> A) : M S A := fun s => (s, Returned (f s)).
Definition modify {S} (f : S -> S) : M S unit := fun s => (f s, Returned tt).

Notation "'do' x <- m ; k" := (bind m (fun x => k))
  (at level 10, x name, m at level 100, k at level 200, only parsing).
Notation "'run' m ; k" := (bind m (fun _ => k))
  (at level 10, m at level 100, k at level 200, only parsing).

(** ** database/init.ts: the tables

    Of the declared constraints, PRIMARY KEY is checked by every insert
    and FOREIGN KEY by the inserts whose handler has not looked the
    referenced row up.  UNIQUE(user_id, word_id) and UNIQUE(user_id, date)
    are not checked: each insert into those tables follows a SELECT that
    found no such row.  Integer columns are unbounded. *)

Module Database.

(** [words]; the columns no modelled query reads are left out. *)
Record WordRow := mkWordRow {
  w_id : string;
  w_word : string;
  w_definition : string
}.

Record UserRow := mkUserRow {
  u_id : string;
  u_device_id : string;
  u_last_active : Z
}.

(** [user_words]; [bucket] is TEXT, [last_reviewed] is nullable. *)
Record UserWordRow := mkUserWordRow {
  uw_id : string;
  uw_user_id : string;
  uw_word_id : string;
  uw_bucket : string;
  uw_created_at : Z;
  uw_last_reviewed : option Z;
  uw_review_count : Z;
  uw_correct_count : Z;
  uw_incorrect_count : Z
}.

Record QuizResultRow := mkQuizResultRow {
  qr_id : string;
  qr_user_id : string;
  qr_word_id : string;
  qr_is_correct : Z;
  qr_timestamp : Z
}.

Record CachedArticleRow := mkCachedArticleRow {
  ca_id : string;
  ca_word_ids : string;
  ca_article_text : string;
  ca_created_at : Z;
  ca_access_count : Z;
  ca_last_accessed : Z
}.

Record DailyProgressRow := mkDailyProgressRow {
  dp_id : string;
  dp_user_id : string;
  dp_date : string;
  dp_words_saved : Z;
  dp_quizzes_completed : Z;
  dp_words_reviewed : Z
}.

Record DB := mkDB {
  words : list WordRow;
  users : list UserRow;
  user_words : list UserWordRow;
  quiz_results : list QuizResultRow;
  cached_articles : list CachedArticleRow;
  daily_progress : list DailyProgressRow
}.

Definition set_users (f : list UserRow -> list UserRow) (d : DB) : DB :=
  mkDB (words d) (f (users d)) (user_words d) (quiz_results d)
       (cached_articles d) (daily_progress d).
Definition set_user_words (f : list UserWordRow -> list UserWordRow) (d : DB) : DB :=
  mkDB (words d) (users d) (f (user_words d)) (quiz_results d)
       (cached_articles d) (daily_progress d).
Definition set_quiz_results (f : list QuizResultRow -> list QuizResultRow) (d : DB) : DB :=
  mkDB (words d) (users d) (user_words d) (f (quiz_results d))
       (cached_articles d) (daily_progress d).
Definition set_cached_articles
    (f : list CachedArticleRow -> list CachedArticleRow) (d : DB) : DB :=
  mkDB (words d) (users d) (user_words d) (quiz_results d)
       (f (cached_articles d)) (daily_progress d).
Definition set_daily_progress
    (f : list DailyProgressRow -> list DailyProgressRow) (d : DB) : DB :=
  mkDB (words d) (users d) (user_words d) (quiz_results d)
       (cached_articles d) (f (daily_progress d)).

(** [strftime('%s', 'now')] when the clock reads [now] milliseconds. *)
Definition unixepoch (now : Z) : Z := now / 1000.

(** [id TEXT PRIMARY KEY]: is the key already taken? *)
Definition pk_taken {Row} (key : Row -> string) (k : string) (rows : list Row) : bool :=
  existsb (fun r => String.eqb (key r) k) rows.

(** [SELECT ... WHERE col = ?] followed by [.get()]: the first match. *)
Definition select_first {Row} (p : Row -> bool) (rows : list Row) : option Row :=
  List.find p rows.

(** [UPDATE ... WHERE p]. *)
Definition update_where {Row} (p : Row -> bool) (f : Row -> Row) (rows : list Row)
  : list Row :=
  map (fun r => if p r then f r else r) rows.

(** [DELETE ... WHERE p]. *)
Definition delete_where {Row} (p : Row -> bool) (rows : list Row) : list Row :=
  List.filter (fun r => negb (p r)) rows.

(** [LIMIT n]; a negative limit means no limit. *)
Definition limit {Row} (n : Z) (rows : list Row) : list Row :=
  if n <? 0 then rows else firstn (Z.to_nat n) rows.

End Database.
Import Database.

(** ** node-cache: the in-memory cache object

    Modelled from the library's documented behaviour: an entry carries its
    value [v] and its expiry instant [t] in milliseconds ([0] = never);
    [get] drops an entry found expired; [set] throws [ECACHEFULL] once the
    cache holds [maxKeys] keys; a timer runs [checkData] every
    [checkperiod] seconds.  The hit and miss statistics are left out. *)

Module NodeCache.

Record Options := mkOptions { stdTTL : Z; maxKeys : Z }.
Record Entry := mkEntry { t : Z; v : string }.
Record Cache := mkCache { options : Options; data : gmap string Entry }.

Definition create (o : Options) : Cache := mkCache o ∅.

Definition expired (now : Z) (e : Entry) : bool :=
  negb (t e =? 0) && (t e <? now).

Definition del (key : string) (c : Cache) : Cache :=
  mkCache (options c) (delete key (data c)).

Definition get (key : string) (now : Z) (c : Cache) : Cache * option string :=
  match data c !! key with
  | Some e => if expired now e then (del key c, None) else (c, Some (v e))
  | None => (c, None)
  end.

Definition wrap (o : Options) (now : Z) (value : string) : Entry :=
  mkEntry (if stdTTL o =? 0 then 0 else now + stdTTL o * 1000) value.

Definition full (c : Cache) : bool :=
  (maxKeys (options c) >? -1) && (Z.of_nat (size (data c)) >=? maxKeys (options c)).

Definition set (key value : string) (now : Z) (c : Cache) : Outcome Cache :=
  if full c then Threw ECACHEFULL
  else Returned (mkCache (options c) (<[key := wrap (options c) now value]> (data c))).

Definition checkData (now : Z) (c : Cache) : Cache :=
  mkCache (options c) (filter (fun kv => expired now kv.2 = false) (data c)).

End NodeCache.

(** ** services/llmService.ts *)

Module Llm.

(** [interface Word]. *)
Record Word := mkWord {
  id : string;
  word : string;
  definition : string
}.

(** [process.env], each number already read by [parseInt] with the default
    of the source when the variable is unset. *)
Record Config := mkConfig {
  OPENAI_API_KEY : option string;
  CACHE_TTL_SECONDS : Z;
  MAX_CACHED_ARTICLES : Z;
  QUIZ_CACHE_TTL_SECONDS : Z
}.

Definition default_config (key : option string) : Config :=
  mkConfig key 3600 1000 86400.

(** What [openai.chat.completions.create] does in one call: it rejects
    (provider error, timeout, a body without [choices]) or resolves with
    [choices[0]?.message?.content], which may be undefined. *)
Inductive LlmAnswer :=
| Rejected
| Completion (content : option string).

(** The inputs of one call that the code does not compute. *)
Record CallEnv := mkCallEnv {
  now : Z;                (* Date.now(), milliseconds *)
  article_id : string;    (* `article-${Date.now()}-${Math.random()...}` *)
  llm : LlmAnswer
}.

(** The process: the database handle and the two module-level variables. *)
Record Server := mkServer {
  db : DB;
  memoryCache : NodeCache.Cache;
  openaiClient : option string      (* the client, by the key it holds *)
}.

Definition set_db (f : DB -> DB) (s : Server) : Server :=
  mkServer (f (db s)) (memoryCache s) (openaiClient s).
Definition set_memoryCache (c : NodeCache.Cache) (s : Server) : Server :=
  mkServer (db s) c (openaiClient s).
Definition set_openaiClient (k : option string) (s : Server) : Server :=
  mkServer (db s) (memoryCache s) k.

(** [new NodeCache({ stdTTL, checkperiod: 600, maxKeys })]. *)
Definition new_memoryCache (cfg : Config) : NodeCache.Cache :=
  NodeCache.create
    (NodeCache.mkOptions (CACHE_TTL_SECONDS cfg) (MAX_CACHED_ARTICLES cfg)).

(** A process that has just started on the database [d]. *)
Definition start (cfg : Config) (d : DB) : Server :=
  mkServer d (new_memoryCache cfg) None.

Definition is_quote (c : ascii) : bool :=
  Nat.eqb (nat_of_ascii c) 34 || Nat.eqb (nat_of_ascii c) 39.

(** [.replace(/^["']|["']$/g, '')]: one quote off each end. *)
Definition strip_quotes (s : string) : string :=
  let s1 := match s with
            | String c s' => if is_quote c then s' else s
            | EmptyString => EmptyString
            end in
  match Js.reverse s1 with
  | String c r => if is_quote c then Js.reverse r else s1
  | EmptyString => EmptyString
  end.

(** [(process.env.OPENAI_API_KEY || '').trim().replace(...)]. *)
Definition configured_key (cfg : Config) : string :=
  strip_quotes (Js.trim (default "" (OPENAI_API_KEY cfg))).

Definition getApiKey (cfg : Config) : M Server string :=
  let key := configured_key cfg in
  if negb (Js.truthy key) || Nat.eqb (String.length key) 0
  then throw ApiKeyNotSet
  else ret key.

Definition getOpenAIClient (cfg : Config) : M Server string :=
  do client <- gets openaiClient;
  match client with
  | None =>
      do key <- getApiKey cfg;
      run modify (set_openaiClient (Some key));
      ret key
  | Some key => ret key
  end.

Definition fallbackSentence (w : Word) : string :=
  let definition := Js.toLowerCase (definition w) in
  if Js.includes definition "time" || Js.includes definition "short" then
    "The ______ nature of the event made it all the more special."
  else if Js.includes definition "everywhere" || Js.includes definition "present" then
    "Technology has become ______ in our daily lives."
  else if Js.includes definition "chance" || Js.includes definition "discovery" then
    "Finding that solution was pure ______."
  else if Js.includes definition "speaking" || Js.includes definition "writing" then
    "Her ______ presentation captivated the entire audience."
  else if Js.includes definition "recover" || Js.includes definition "difficulties" then
    "The community proved to be remarkably ______ after the crisis."
  else if Js.includes definition "detail" || Js.includes definition "careful" then
    "His ______ approach ensured nothing was overlooked."
  else if Js.includes definition "meaning" || Js.includes definition "unclear" then
    "The instructions were intentionally ______, leaving room for interpretation."
  else if Js.includes definition "practical" || Js.includes definition "real" then
    "We need a more ______ solution to this problem."
  else
    "The concept of ______ is essential in this context.".

Definition generateFallbackArticle (words : list Word) : string :=
  Js.join " " (map fallbackSentence words).

(** The body of the [try] block: the awaited completion, the emptiness
    test, and the blank count that only decides a [console.warn]. *)
Definition requestArticle (env : CallEnv) (words : list Word) : M Server string :=
  match llm env with
  | Rejected => throw ProviderFailure
  | Completion content =>
      let article := match content with
                     | Some c => if Js.truthy (Js.trim c) then Js.trim c else ""
                     | None => ""
                     end in
      if negb (Js.truthy article) then throw EmptyResponse
      else
        let blankCount := Js.count_blanks article in
        let _warned := negb (Nat.eqb blankCount (length words)) in
        ret article
  end.

Definition generateArticleWithLLM (cfg : Config) (env : CallEnv) (words : list Word)
  : M Server string :=
  do _openai <- getOpenAIClient cfg;
  tryCatch (requestArticle env words)
           (fun _error => ret (generateFallbackArticle words)).

(** [ORDER BY last_accessed ASC]: rows of equal [last_accessed] are kept
    in rowid order. *)
Fixpoint insert_by_last_accessed (r : CachedArticleRow) (l : list CachedArticleRow)
  : list CachedArticleRow :=
  match l with
  | [] => [r]
  | r' :: l' => if ca_last_accessed r' <=? ca_last_accessed r
                then r' :: insert_by_last_accessed r l'
                else r :: r' :: l'
  end.

Definition order_by_last_accessed (rows : list CachedArticleRow)
  : list CachedArticleRow :=
  fold_left (fun acc r => insert_by_last_accessed r acc) rows [].

Definition cleanupOldCache_rows (cfg : Config) (now : Z) (rows : list CachedArticleRow)
  : list CachedArticleRow :=
  let maxAge := QUIZ_CACHE_TTL_SECONDS cfg in
  let cutoffTime := now / 1000 - maxAge in
  let rows1 := delete_where (fun r => ca_last_accessed r <? cutoffTime) rows in
  let totalCount := Z.of_nat (length rows1) in
  let maxCacheSize := MAX_CACHED_ARTICLES cfg in
  if totalCount >? maxCacheSize then
    let toDelete := totalCount - maxCacheSize in
    let ids := map ca_id (limit toDelete (order_by_last_accessed rows1)) in
    delete_where (fun r => existsb (String.eqb (ca_id r)) ids) rows1
  else rows1.

Definition cleanupOldCache (cfg : Config) (now : Z) : M Server unit :=
  modify (set_db (set_cached_articles (cleanupOldCache_rows cfg now))).

(** [memoryCache.get<string>(cacheKey)]. *)
Definition memoryCache_get (key : string) (now : Z) : M Server (option string) :=
  fun s => let (c, r) := NodeCache.get key now (memoryCache s) in
           (set_memoryCache c s, Returned r).

(** [memoryCache.set(cacheKey, value)]. *)
Definition memoryCache_set (key value : string) (now : Z) : M Server unit :=
  fun s => match NodeCache.set key value now (memoryCache s) with
           | Returned c => (set_memoryCache c s, Returned tt)
           | Threw e => (s, Threw e)
           end.

(** [INSERT INTO cached_articles (id, word_ids, article_text)]: the other
    columns take their defaults. *)
Definition insert_cached_article (aid key text : string) (now : Z) : M Server unit :=
  fun s =>
    if pk_taken ca_id aid (cached_articles (db s)) then (s, Threw SqliteConstraint)
    else
      let row := mkCachedArticleRow aid key text (unixepoch now) 0 (unixepoch now) in
      (set_db (set_cached_articles (fun rows => (rows ++ [row])%list)) s, Returned tt).

Definition touch (now : Z) (r : CachedArticleRow) : CachedArticleRow :=
  mkCachedArticleRow (ca_id r) (ca_word_ids r) (ca_article_text r) (ca_created_at r)
                     (ca_access_count r + 1) (unixepoch now).

Definition cacheKey (words : list Word) : string :=
  Js.join "," (Js.sort (map id words)).

Definition generateQuizArticle (cfg : Config) (env : CallEnv) (words : list Word)
  : M Server string :=
  if Nat.eqb (length words) 0 then throw NoWordsProvided
  else
    let cacheKey := cacheKey words in
    do cachedMemory <- memoryCache_get cacheKey (now env);
    if Js.truthy (default "" cachedMemory) then ret (default "" cachedMemory)
    else
      do cachedDb <- gets (fun s =>
          select_first (fun r => String.eqb (ca_word_ids r) cacheKey)
                       (cached_articles (db s)));
      match cachedDb with
      | Some row =>
          run modify (set_db (set_cached_articles
                (update_where (fun r => String.eqb (ca_word_ids r) cacheKey)
                              (touch (now env)))));
          run memoryCache_set cacheKey (ca_article_text row) (now env);
          ret (ca_article_text row)
      | None =>
          do article <- generateArticleWithLLM cfg env words;
          run memoryCache_set cacheKey article (now env);
          run insert_cached_article (article_id env) cacheKey article (now env);
          run cleanupOldCache cfg (now env);
          ret article
      end.

End Llm.

(** ** services/llmService.ts: [generateQuizArticle] around its await

    The function runs without interruption from its call to
    [await generateArticleWithLLM(words)], and again from the answer of
    the provider to its end; in between, other calls run.  The callee has
    first built the client; what it does after its own await (reading the
    completion, falling back) touches no shared state and is taken
    together with the writes that follow. *)

Module Overlap.

Import Llm.

(** The call up to the await: [Some text] when it has returned [text],
    [None] when it is suspended at the await. *)
Definition begin (cfg : Config) (now : Z) (words : list Word)
  : M Server (option string) :=
  if Nat.eqb (length words) 0 then throw NoWordsProvided
  else
    let cacheKey := cacheKey words in
    do cachedMemory <- memoryCache_get cacheKey now;
    if Js.truthy (default "" cachedMemory) then ret (Some (default "" cachedMemory))
    else
      do cachedDb <- gets (fun s =>
          select_first (fun r => String.eqb (ca_word_ids r) cacheKey)
                       (cached_articles (db s)));
      match cachedDb with
      | Some row =>
          run modify (set_db (set_cached_articles
                (update_where (fun r => String.eqb (ca_word_ids r) cacheKey)
                              (touch now))));
          run memoryCache_set cacheKey (ca_article_text row) now;
          ret (Some (ca_article_text row))
      | None =>
          do _openai <- getOpenAIClient cfg;
          ret None
      end.

(** The call from the answer of the provider on; [env] holds the answer
    and the clock and random id read then. *)
Definition resume (cfg : Config) (env : CallEnv) (words : list Word)
  : M Server string :=
  let cacheKey := cacheKey words in
  do article <- tryCatch (requestArticle env words)
                         (fun _error => ret (generateFallbackArticle words));
  run memoryCache_set cacheKey article (now env);
  run insert_cached_article (article_id env) cacheKey article (now env);
  run cleanupOldCache cfg (now env);
  ret article.

(** The process and the calls suspended at the await, latest first. *)
Record World := mkWorld {
  server : Server;
  awaiting : list (list Word)
}.

(** What happens next in the process. *)
Inductive Event :=
| Call (now : Z) (words : list Word)     (* generateQuizArticle(words) is called *)
| Answer (env : CallEnv) (n : nat)       (* the provider answers the n-th suspended call *)
| Sweep (now : Z)                        (* cleanupOldCache() *)
| Check (now : Z)                        (* the checkperiod timer of node-cache *)
| Restart.                               (* the process starts anew *)

Definition suspends (cfg : Config) (now : Z) (words : list Word) (s : Server) : bool :=
  match snd (begin cfg now words s) with
  | Returned None => true
  | _ => false
  end.

Definition fire (cfg : Config) (ev : Event) (w : World) : World :=
  match ev with
  | Call now words =>
      mkWorld (fst (begin cfg now words (server w)))
              (if suspends cfg now words (server w) then words :: awaiting w
               else awaiting w)
  | Answer env n =>
      match awaiting w !! n with
      | Some words =>
          mkWorld (fst (resume cfg env words (server w))) (delete n (awaiting w))
      | None => w
      end
  | Sweep now => mkWorld (fst (cleanupOldCache cfg now (server w))) (awaiting w)
  | Check now =>
      mkWorld (set_memoryCache (NodeCache.checkData now (memoryCache (server w)))
                               (server w))
              (awaiting w)
  | Restart => mkWorld (start cfg (db (server w))) []
  end.

End Overlap.

(** ** ORDER BY *)

Module Sql.

(** Insertion after the rows that sort no later, so that rows the order
    does not tell apart keep their place. *)
Fixpoint insert_by {Row} (leb : Row -> Row -> bool) (r : Row) (l : list Row) : list Row :=
  match l with
  | [] => [r]
  | r' :: l' => if leb r' r then r' :: insert_by leb r l' else r :: r' :: l'
  end.

(** [ORDER BY] for the order [leb]. *)
Definition order_by {Row} (leb : Row -> Row -> bool) (rows : list Row) : list Row :=
  fold_left (fun acc r => insert_by leb r acc) rows [].

(** Ascending order of a nullable integer column with NULLs first. *)
Definition nulls_first_leb (a b : option Z) : bool :=
  match a, b with
  | None, _ => true
  | Some _, None => false
  | Some x, Some y => x <=? y
  end.

Definition nullable_eqb (a b : option Z) : bool :=
  match a, b with
  | None, None => true
  | Some x, Some y => x =? y
  | _, _ => false
  end.

End Sql.

(** ** routes/quiz.ts *)

Module QuizRoute.

Import Llm.

(** What POST /api/quiz/generate sends. *)
Inductive Reply :=
| status_json (code : Z) (error : string)
| json_article (article : string) (words : list Word)
| next_error (e : Error).

(** Ascending order of the TEXT primary key. *)
Definition by_id (a b : WordRow) : bool := String.leb (w_id a) (w_id b).

(** [SELECT id, word, definition FROM words WHERE id IN (...)]: each row
    of the table whose id is listed, once.  SQLite walks the listed
    values in ascending order through the index of the primary key, so
    the rows come in ascending order of [id]. *)
Definition select_words (wordIds : list string) (d : DB) : list Word :=
  map (fun r => mkWord (w_id r) (w_word r) (w_definition r))
      (Sql.order_by by_id
         (List.filter (fun r => existsb (String.eqb (w_id r)) wordIds) (words d))).

(** POST /api/quiz/generate; [wordIds] is [None] when the field of the
    body is missing or is not an array. *)
Definition post_generate (cfg : Config) (env : CallEnv)
    (wordIds : option (list string)) (userId : string) (s : Server) : Server * Reply :=
  match wordIds with
  | None => (s, status_json 400 "wordIds array is required")
  | Some wordIds =>
      if Nat.eqb (length wordIds) 0
      then (s, status_json 400 "wordIds array is required")
      else if negb (Js.truthy userId)
      then (s, status_json 400 "userId is required")
      else
        let words := select_words wordIds (db s) in
        if negb (Nat.eqb (length words) (length wordIds))
        then (s, status_json 400 "Some word IDs are invalid")
        else
          match generateQuizArticle cfg env words s with
          | (s', Returned article) => (s', json_article article words)
          | (s', Threw e) => (s', next_error e)
          end
  end.

End QuizRoute.

(** ** routes/progress.ts *)

Module Progress.

(** How the server is run, where the source leaves it to the deployment. *)
Record Runtime := mkRuntime {
  foreign_keys : bool;      (* PRAGMA foreign_keys of the opened database *)
  let_block_scoped : bool   (* the emitted JavaScript keeps [let] block scoped *)
}.

(** The inputs of one request that the handler does not compute. *)
Record ReqEnv := mkReqEnv {
  now : Z;               (* the clock, milliseconds *)
  fresh_id : string;     (* `user-...`, `uw-...` or `qr-...` *)
  progress_id : string;  (* `dp-${Date.now()}-${Math.random()...}` *)
  today : string         (* new Date().toISOString().split('T')[0] *)
}.

(** What the handler sends: [res.status(c).json({ error })], one of the
    three success bodies, or [next(error)]. *)
Inductive Reply :=
| status_json (code : Z) (error : string)
| json_user (userId deviceId : string)
| json_saved (message userWordId : string)
| json_quiz (message resultId : string) (newBucket : option string)
| next_error (e : Error).

(** [try { ... } catch (error) { next(error) }]. *)
Definition handler (body : M DB Reply) (d : DB) : DB * Reply :=
  match body d with
  | (d', Returned r) => (d', r)
  | (d', Threw e) => (d', next_error e)
  end.

Definition exists_in {Row} (key : Row -> string) (k : string) (rows : list Row) : bool :=
  existsb (fun r => String.eqb (key r) k) rows.

Definition insert_user (uid deviceId : string) (now : Z) : M DB unit :=
  fun d =>
    if pk_taken u_id uid (users d) then (d, Threw SqliteConstraint)
    else (set_users (fun rows => (rows ++ [mkUserRow uid deviceId (unixepoch now)])%list) d,
          Returned tt).

(** [INSERT INTO user_words (id, user_id, word_id, bucket) VALUES (?, ?, ?,
    'needs work')]; both referenced rows must exist when foreign keys are
    enforced. *)
Definition insert_user_word (rt : Runtime) (uwid userId wordId : string) (now : Z)
  : M DB unit :=
  fun d =>
    if pk_taken uw_id uwid (user_words d) then (d, Threw SqliteConstraint)
    else if foreign_keys rt &&
            negb (exists_in u_id userId (users d) && exists_in w_id wordId (words d))
    then (d, Threw SqliteConstraint)
    else
      let row := mkUserWordRow uwid userId wordId "needs work"
                               (unixepoch now) None 0 0 0 in
      (set_user_words (fun rows => (rows ++ [row])%list) d, Returned tt).

Definition insert_quiz_result (qid userId wordId : string) (is_correct now : Z)
  : M DB unit :=
  fun d =>
    if pk_taken qr_id qid (quiz_results d) then (d, Threw SqliteConstraint)
    else
      let row := mkQuizResultRow qid userId wordId is_correct (unixepoch now) in
      (set_quiz_results (fun rows => (rows ++ [row])%list) d, Returned tt).

Definition insert_daily_progress (rt : Runtime) (pid userId date : string)
    (saved reviewed : Z) : M DB unit :=
  fun d =>
    if pk_taken dp_id pid (daily_progress d) then (d, Threw SqliteConstraint)
    else if foreign_keys rt && negb (exists_in u_id userId (users d))
    then (d, Threw SqliteConstraint)
    else
      let row := mkDailyProgressRow pid userId date saved 0 reviewed in
      (set_daily_progress (fun rows => (rows ++ [row])%list) d, Returned tt).

Definition select_user_word (userId wordId : string) (d : DB) : option UserWordRow :=
  select_first (fun r => String.eqb (uw_user_id r) userId &&
                         String.eqb (uw_word_id r) wordId) (user_words d).

Definition select_daily_progress (userId date : string) (d : DB)
  : option DailyProgressRow :=
  select_first (fun r => String.eqb (dp_user_id r) userId &&
                         String.eqb (dp_date r) date) (daily_progress d).

Definition add_words_saved (r : DailyProgressRow) : DailyProgressRow :=
  mkDailyProgressRow (dp_id r) (dp_user_id r) (dp_date r) (dp_words_saved r + 1)
                     (dp_quizzes_completed r) (dp_words_reviewed r).

Definition add_words_reviewed (r : DailyProgressRow) : DailyProgressRow :=
  mkDailyProgressRow (dp_id r) (dp_user_id r) (dp_date r) (dp_words_saved r)
                     (dp_quizzes_completed r) (dp_words_reviewed r + 1).

(** POST /api/progress/user *)
Definition post_user (env : ReqEnv) (deviceId : string) : DB -> DB * Reply :=
  handler (
    if negb (Js.truthy deviceId) then ret (status_json 400 "deviceId is required")
    else
      do user <- gets (fun d =>
          select_first (fun r => String.eqb (u_device_id r) deviceId) (users d));
      match user with
      | None =>
          let userId := fresh_id env in
          run insert_user userId deviceId (now env);
          ret (json_user userId deviceId)
      | Some user =>
          run modify (set_users (update_where
                (fun r => String.eqb (u_id r) (u_id user))
                (fun r => mkUserRow (u_id r) (u_device_id r) (unixepoch (now env)))));
          ret (json_user (u_id user) (u_device_id user))
      end).

(** POST /api/progress/save-word *)
Definition save_word (rt : Runtime) (env : ReqEnv) (userId wordId : string)
  : DB -> DB * Reply :=
  handler (
    if negb (Js.truthy userId) || negb (Js.truthy wordId)
    then ret (status_json 400 "userId and wordId are required")
    else
      do word <- gets (fun d =>
          select_first (fun r => String.eqb (w_id r) wordId) (words d));
      match word with
      | None => ret (status_json 404 "Word not found")
      | Some _ =>
          do existing <- gets (select_user_word userId wordId);
          match existing with
          | Some existing => ret (json_saved "Word already saved" (uw_id existing))
          | None =>
              let userWordId := fresh_id env in
              run insert_user_word rt userWordId userId wordId (now env);
              do dailyProgress <- gets (select_daily_progress userId (today env));
              run match dailyProgress with
                  | Some dailyProgress =>
                      modify (set_daily_progress (update_where
                        (fun r => String.eqb (dp_id r) (dp_id dailyProgress))
                        add_words_saved))
                  | None =>
                      insert_daily_progress rt (progress_id env) userId (today env) 1 0
                  end;
              ret (json_saved "Word saved successfully" userWordId)
          end
      end).

(** The bucket computed from [userWord.bucket] and [isCorrect]. *)
Definition newBucket (bucket : string) (isCorrect : bool) : string :=
  if isCorrect then
    if String.eqb bucket "needs work" then "familiar"
    else if String.eqb bucket "familiar" then "well known"
    else bucket
  else "needs work".

(** The SET clause of the [UPDATE user_words] statement. *)
Definition reviewed (bucket : string) (isCorrect : bool) (now : Z) (r : UserWordRow)
  : UserWordRow :=
  mkUserWordRow (uw_id r) (uw_user_id r) (uw_word_id r)
                bucket
                (uw_created_at r)
                (Some (unixepoch now))
                (uw_review_count r + 1)
                (uw_correct_count r + (if isCorrect then 1 else 0))
                (uw_incorrect_count r + (if isCorrect then 0 else 1)).

(** POST /api/progress/quiz-result; [isCorrect] is [None] when the field
    of the body is not a boolean.  The response reads [newBucket] after
    the block that declares it. *)
Definition quiz_result (rt : Runtime) (env : ReqEnv) (userId wordId : string)
    (isCorrect : option bool) : DB -> DB * Reply :=
  handler (
    match isCorrect with
    | None => ret (status_json 400 "userId, wordId, and isCorrect are required")
    | Some isCorrect =>
      if negb (Js.truthy userId) || negb (Js.truthy wordId)
      then ret (status_json 400 "userId, wordId, and isCorrect are required")
      else
        do user <- gets (fun d =>
            select_first (fun r => String.eqb (u_id r) userId) (users d));
        match user with
        | None => ret (status_json 404 "User not found")
        | Some _ =>
          do word <- gets (fun d =>
              select_first (fun r => String.eqb (w_id r) wordId) (words d));
          match word with
          | None => ret (status_json 404 "Word not found")
          | Some _ =>
            let resultId := fresh_id env in
            run insert_quiz_result resultId userId wordId
                  (if isCorrect then 1 else 0) (now env);
            do userWord <- gets (select_user_word userId wordId);
            match userWord with
            | Some userWord =>
                let newBucket := newBucket (uw_bucket userWord) isCorrect in
                run modify (set_user_words (update_where
                      (fun r => String.eqb (uw_id r) (uw_id userWord))
                      (reviewed newBucket isCorrect (now env))));
                do dailyProgress <- gets (select_daily_progress userId (today env));
                run match dailyProgress with
                    | Some dailyProgress =>
                        modify (set_daily_progress (update_where
                          (fun r => String.eqb (dp_id r) (dp_id dailyProgress))
                          add_words_reviewed))
                    | None =>
                        insert_daily_progress rt (progress_id env) userId (today env) 0 1
                    end;
                if let_block_scoped rt then throw ReferenceError
                else ret (json_quiz "Quiz result saved" resultId (Some newBucket))
            | None =>
                ret (json_quiz "Quiz result saved" resultId None)
            end
          end
        end
    end).

End Progress.

(** ** routes/quiz.ts: GET /api/quiz/words/:userId *)

Module QuizWords.

(** A row of [user_words uw JOIN words w ON uw.word_id = w.id]. *)
Definition Joined : Type := WordRow * UserWordRow.

(** [CASE uw.bucket WHEN 'needs work' THEN 1 WHEN 'familiar' THEN 2
    WHEN 'well known' THEN 3 END]; NULL for any other bucket. *)
Definition bucket_case (bucket : string) : option Z :=
  if String.eqb bucket "needs work" then Some 1
  else if String.eqb bucket "familiar" then Some 2
  else if String.eqb bucket "well known" then Some 3
  else None.

(** The join restricted by [WHERE uw.user_id = ?]. *)
Definition joined (userId : string) (d : DB) : list Joined :=
  flat_map
    (fun uw => map (fun w => (w, uw))
                   (List.filter (fun w => String.eqb (uw_word_id uw) (w_id w)) (words d)))
    (List.filter (fun uw => String.eqb (uw_user_id uw) userId) (user_words d)).

(** [ORDER BY CASE ... END, uw.last_reviewed ASC NULLS FIRST]. *)
Definition ranks_before (a b : Joined) : bool :=
  let ka := bucket_case (uw_bucket (snd a)) in
  let kb := bucket_case (uw_bucket (snd b)) in
  if Sql.nullable_eqb ka kb
  then Sql.nulls_first_leb (uw_last_reviewed (snd a)) (uw_last_reviewed (snd b))
  else Sql.nulls_first_leb ka kb.

(** The statement of the handler, with [LIMIT ?]. *)
Definition select_quiz_words (userId : string) (maxWords : Z) (d : DB) : list Joined :=
  limit maxWords (Sql.order_by ranks_before (joined userId d)).

(** A word of the response; the columns left out of [WordRow] are copied
    through by the handler and are left out here as well.  [usages] is
    taken to hold the JSON text the seeding wrote, so that [JSON.parse]
    returns. *)
Record QuizWord := mkQuizWord {
  qw_id : string;
  qw_word : string;
  qw_definition : string;
  qw_bucket : string;
  qw_lastReviewed : option Z
}.

Inductive Reply :=
| json_no_words (message : string)
| json_words (words : list QuizWord) (count : Z).

Definition format (row : Joined) : QuizWord :=
  mkQuizWord (w_id (fst row)) (w_word (fst row)) (w_definition (fst row))
             (uw_bucket (snd row)) (uw_last_reviewed (snd row)).

(** The handler; [maxWords] is [parseInt(limit)], an integer. *)
Definition get_quiz_words (userId : string) (maxWords : Z) (d : DB) : Reply :=
  let words := select_quiz_words userId maxWords d in
  if Nat.eqb (length words) 0
  then json_no_words "No words available. Save some words in Learning mode first!"
  else
    let formattedWords := map format words in
    json_words formattedWords (Z.of_nat (length formattedWords)).

End QuizWords.

(** ** routes/progress.ts: GET /api/progress/daily/:userId *)

Module DailyProgress.

(** A day of the response. *)
Record Day := mkDay {
  date : string;
  wordsSaved : Z;
  quizzesCompleted : Z;
  wordsReviewed : Z
}.

(** [ORDER BY date DESC] on the TEXT column. *)
Definition later_first (a b : DailyProgressRow) : bool :=
  String.leb (dp_date b) (dp_date a).

(** [SELECT * FROM daily_progress WHERE user_id = ? ORDER BY date DESC
    LIMIT ?]. *)
Definition select_daily (userId : string) (dayCount : Z) (d : DB)
  : list DailyProgressRow :=
  limit dayCount
    (Sql.order_by later_first
       (List.filter (fun p => String.eqb (dp_user_id p) userId) (daily_progress d))).

(** The handler; [dayCount] is [parseInt(days)], an integer. *)
Definition get_daily (userId : string) (dayCount : Z) (d : DB) : list Day :=
  map (fun p => mkDay (dp_date p) (dp_words_saved p) (dp_quizzes_completed p)
                      (dp_words_reviewed p))
      (select_daily userId dayCount d).

End DailyProgress.

(** ** routes/progress.ts: GET /api/progress/words/:userId *)

Module SavedWords.

(** [ORDER BY uw.created_at DESC]. *)
Definition newer_first (a b : QuizWords.Joined) : bool :=
  uw_created_at (snd b) <=? uw_created_at (snd a).

(** The statement of the handler. *)
Definition select_saved_words (userId : string) (d : DB) : list QuizWords.Joined :=
  Sql.order_by newer_first (QuizWords.joined userId d).

(** A word of the response; the columns left out of [WordRow] are copied
    through by the handler and are left out here as well.  [usages] is
    taken to hold the JSON text the seeding wrote, so that [JSON.parse]
    returns. *)
Record SavedWord := mkSavedWord {
  sw_id : string;
  sw_word : string;
  sw_definition : string;
  sw_bucket : string;
  sw_lastReviewed : option Z;
  sw_reviewCount : Z;
  sw_correctCount : Z;
  sw_incorrectCount : Z
}.

Definition format (row : QuizWords.Joined) : SavedWord :=
  mkSavedWord (w_id (fst row)) (w_word (fst row)) (w_definition (fst row))
              (uw_bucket (snd row)) (uw_last_reviewed (snd row))
              (uw_review_count (snd row)) (uw_correct_count (snd row))
              (uw_incorrect_count (snd row)).

(** The handler: [{ words: formattedWords, count: formattedWords.length }]. *)
Definition get_words (userId : string) (d : DB) : list SavedWord * Z :=
  let formattedWords := map format (select_saved_words userId d) in
  (formattedWords, Z.of_nat (length formattedWords)).

End SavedWords.

(** ** routes/progress.ts: GET /api/progress/stats/:userId *)

Module Stats.

(** [SELECT COUNT( * ) ... WHERE p]. *)
Definition count_where {Row} (p : Row -> bool) (rows : list Row) : Z :=
  Z.of_nat (length (List.filter p rows)).

(** [SUM(e)]: NULL over no rows. *)
Definition sum_of {Row} (e : Row -> Z) (rows : list Row) : option Z :=
  match rows with
  | [] => None
  | _ => Some (fold_right (fun r acc => e r + acc) 0 rows)
  end.

(** [x || 0] for a number or null. *)
Definition or_zero (x : option Z) : Z :=
  match x with
  | Some n => n
  | None => 0
  end.

(** The values of a column, each once, in the order of first occurrence. *)
Fixpoint distinct (keys : list string) : list string :=
  match keys with
  | [] => []
  | k :: ks => k :: List.filter (fun k' => negb (String.eqb k' k)) (distinct ks)
  end.

(** [SELECT bucket, COUNT( * ) as count FROM user_words WHERE user_id = ?
    GROUP BY bucket]. *)
Definition bucketStats (userId : string) (d : DB) : list (string * Z) :=
  let mine := List.filter (fun r => String.eqb (uw_user_id r) userId) (user_words d) in
  map (fun b => (b, count_where (fun r => String.eqb (uw_bucket r) b) mine))
      (distinct (map uw_bucket mine)).

(** The response; [accuracy], a number formatted by [toFixed(1)], is left
    out. *)
Record Reply := mkReply {
  totalWords : Z;
  wordsByBucket : gmap string Z;
  totalQuizzes : Z;
  correctAnswers : Z;
  incorrectAnswers : Z
}.

(** The handler. *)
Definition get_stats (userId : string) (d : DB) : Reply :=
  let totalWords :=
    count_where (fun r => String.eqb (uw_user_id r) userId) (user_words d) in
  let answers := List.filter (fun q => String.eqb (qr_user_id q) userId) (quiz_results d) in
  let total_quizzes := Z.of_nat (length answers) in
  let correct_answers := sum_of (fun q => if qr_is_correct q =? 1 then 1 else 0) answers in
  let incorrect_answers := sum_of (fun q => if qr_is_correct q =? 0 then 1 else 0) answers in
  mkReply totalWords
          (fold_left (fun acc stat => <[fst stat := snd stat]> acc)
                     (bucketStats userId d) ∅)
          total_quizzes
          (or_zero correct_answers)
          (or_zero incorrect_answers).

End Stats.

(** ** JavaScript string primitives used on the device *)

Module JsText.

Fixpoint skip (n : nat) (s : string) : string :=
  match n, s with
  | S k, String _ s' => skip k s'
  | _, _ => s
  end.

(** [String.prototype.replace] with a string pattern and a replacement
    without [$]: the first occurrence is replaced. *)
Fixpoint replace (s pattern replacement : string) : string :=
  if String.prefix pattern s
  then replacement ++ skip (String.length pattern) s
  else match s with
       | EmptyString => EmptyString
       | String c s' => String c (replace s' pattern replacement)
       end.

(** [String.prototype.endsWith]. *)
Definition endsWith (s suffix : string) : bool :=
  String.prefix (Js.reverse suffix) (Js.reverse s).

(** An array index in a template literal. *)
Definition decimal (n : nat) : string := NilEmpty.string_of_uint (Nat.to_uint n).

End JsText.

(** ** utils/storage.ts: the progress kept on the device

    AsyncStorage is taken to work: [getItem] and [setItem] do not reject,
    and what [JSON.parse] reads is what [JSON.stringify] wrote.  The
    fields of a word that the functions copy through are left out. *)

Module Storage.

Record Word := mkWord {
  id : string;
  word : string;
  definition : string;
  bucket : string;
  createdAt : Z;
  lastReviewed : option Z
}.

Record QuizResult := mkQuizResult {
  wordId : string;
  isCorrect : bool;
  timestamp : Z
}.

Record DailyCount := mkDailyCount {
  date : string;
  count : Z
}.

(** The three keys, each unset or holding a list. *)
Record AsyncStorage := mkAsyncStorage {
  WORDS_KEY : option (list Word);
  QUIZ_RESULTS_KEY : option (list QuizResult);
  DAILY_WORDS_KEY : option (list DailyCount)
}.

(** [data ? JSON.parse(data) : []]. *)
Definition getWords (s : AsyncStorage) : list Word := default [] (WORDS_KEY s).
Definition getQuizResults (s : AsyncStorage) : list QuizResult :=
  default [] (QUIZ_RESULTS_KEY s).
Definition getDailyWords (s : AsyncStorage) : list DailyCount :=
  default [] (DAILY_WORDS_KEY s).

(** [Array.prototype.findIndex]; [None] stands for -1. *)
Fixpoint findIndex {A} (p : A -> bool) (l : list A) : option nat :=
  match l with
  | [] => None
  | x :: l' => if p x then Some 0%nat else S <$> findIndex p l'
  end.

(** [saveWord]; [today] is [new Date().toDateString()]. *)
Definition saveWord (today : string) (word : Word) (s : AsyncStorage) : AsyncStorage :=
  let words := getWords s in
  let existingIndex := findIndex (fun w => String.eqb (id w) (id word)) words in
  let words' :=
    match existingIndex with
    | Some i => <[i := word]> words
    | None => (words ++ [word])%list
    end in
  let s1 := mkAsyncStorage (Some words') (QUIZ_RESULTS_KEY s) (DAILY_WORDS_KEY s) in
  match existingIndex with
  | Some _ => s1
  | None =>
      let dailyWords := getDailyWords s1 in
      let dailyWords' :=
        match findIndex (fun d => String.eqb (date d) today) dailyWords with
        | Some dayIndex =>
            alter (fun d => mkDailyCount (date d) (count d + 1)) dayIndex dailyWords
        | None =>
            let pushed := (dailyWords ++ [mkDailyCount today 1])%list in
            if (7 <? length pushed)%nat then tail pushed else pushed
        end in
      mkAsyncStorage (WORDS_KEY s1) (QUIZ_RESULTS_KEY s1) (Some dailyWords')
  end.

(** [updateWordBucket]; [now] is [Date.now()].  The word found is
    changed in place and handed to [saveWord]. *)
Definition updateWordBucket (now : Z) (today : string) (wordId : string)
    (isCorrect : bool) (s : AsyncStorage) : AsyncStorage :=
  match List.find (fun w => String.eqb (id w) wordId) (getWords s) with
  | None => s
  | Some w =>
      let bucket' :=
        if isCorrect then
          if String.eqb (bucket w) "needs work" then "familiar"
          else if String.eqb (bucket w) "familiar" then "well known"
          else bucket w
        else "needs work" in
      saveWord today
               (mkWord (id w) (word w) (definition w) bucket' (createdAt w) (Some now))
               s
  end.

(** [saveQuizResult]; [stamp] and [now] are the two readings of
    [Date.now()]. *)
Definition saveQuizResult (stamp now : Z) (today : string) (wordId : string)
    (isCorrect : bool) (s : AsyncStorage) : AsyncStorage :=
  let results := (getQuizResults s ++ [mkQuizResult wordId isCorrect stamp])%list in
  updateWordBucket now today wordId isCorrect
    (mkAsyncStorage (WORDS_KEY s) (Some results) (DAILY_WORDS_KEY s)).

End Storage.

(** ** utils/quizGenerator.ts: the quiz chosen on the device *)

Module QuizGenerator.

(** [bucketPriority[bucket]]; [None] stands for undefined. *)
Definition bucketPriority (bucket : string) : option Z :=
  if String.eqb bucket "needs work" then Some 3
  else if String.eqb bucket "familiar" then Some 2
  else if String.eqb bucket "well known" then Some 1
  else None.

(** The comparator [bucketPriority[b.bucket] - bucketPriority[a.bucket]];
    [None] stands for NaN. *)
Definition compare (a b : Storage.Word) : option Z :=
  match bucketPriority (Storage.bucket b), bucketPriority (Storage.bucket a) with
  | Some pb, Some pa => Some (pb - pa)
  | _, _ => None
  end.

(** [a] may stay before [b]: the comparator is not positive; the sort
    reads NaN as 0. *)
Definition stays_before (a b : Storage.Word) : bool :=
  match compare a b with
  | Some v => v <=? 0
  | None => true
  end.

(** [Array.prototype.slice(0, end)] for an integer [end]. *)
Definition slice0 {A} (stop : Z) (l : list A) : list A :=
  let len := Z.of_nat (length l) in
  let k := if stop <? 0 then Z.max (len + stop) 0 else Z.min stop len in
  firstn (Z.to_nat k) l.

(** [selectWordsForQuiz]; the sort is stable, so it is the insertion sort
    of [Sql.order_by] whenever the comparator is an order. *)
Definition selectWordsForQuiz (maxWords : Z) (s : Storage.AsyncStorage)
  : list Storage.Word :=
  let words := Storage.getWords s in
  if Nat.eqb (length words) 0 then []
  else
    let sortedWords := Sql.order_by stays_before words in
    slice0 (Z.min maxWords (Z.of_nat (length sortedWords))) sortedWords.

(** [`__WORD_${index}__`]. *)
Definition placeholder (index : nat) : string :=
  "__WORD_" ++ JsText.decimal index ++ "__".

(** The sentence pushed for the word at [index]. *)
Definition sentence (index : nat) (w : Storage.Word) : string :=
  let wordLower := Js.toLowerCase (Storage.word w) in
  let placeholder := placeholder index in
  let definition := Storage.definition w in
  if Js.includes definition "time" || Js.includes definition "short" then
    "The " ++ placeholder ++ " nature of the event made it all the more special."
  else if Js.includes definition "everywhere" || Js.includes definition "present" then
    "Technology has become " ++ placeholder ++ " in our daily lives."
  else if Js.includes definition "chance" || Js.includes definition "discovery" then
    "Finding that solution was pure " ++ placeholder ++ "."
  else if Js.includes definition "speaking" || Js.includes definition "writing" then
    "Her " ++ placeholder ++ " presentation captivated the entire audience."
  else if Js.includes definition "recover" || Js.includes definition "difficulties" then
    "The community proved to be remarkably " ++ placeholder ++ " after the crisis."
  else if Js.includes definition "detail" || Js.includes definition "careful" then
    "His " ++ placeholder ++ " approach ensured nothing was overlooked."
  else if Js.includes definition "meaning" || Js.includes definition "unclear" then
    "The instructions were intentionally " ++ placeholder
      ++ ", leaving room for interpretation."
  else if Js.includes definition "practical" || Js.includes definition "real" then
    "We need a more " ++ placeholder ++ " solution to this problem."
  else if JsText.endsWith wordLower "ly" || Js.includes definition "way"
          || Js.includes definition "manner" then
    "She handled the situation " ++ placeholder ++ ", demonstrating great skill."
  else
    "The concept of " ++ placeholder ++ " is essential in this context.".

(** [generateArticle]: the sentences joined by a space, then each
    placeholder in turn replaced by a blank. *)
Definition generateArticle (words : list Storage.Word) : string :=
  if Nat.eqb (length words) 0 then ""
  else
    let sentences := imap sentence words in
    let article := Js.join " " sentences in
    fold_left (fun article index => JsText.replace article (placeholder index) "______")
              (seq 0 (length words)) article.

(** [extractBlanks]: [(article.match(/______/g) || []).length]. *)
Definition extractBlanks (article : string) : nat := Js.count_blanks article.

End QuizGenerator.

(** ** screens/QuizScreen.tsx: filling the blanks

    The state of the component and its handlers, each run on the state of
    the latest render. *)

Module QuizScreen.

Record BlankPosition := mkBlankPosition {
  index : nat;
  wordId : option string;     (* null while the blank is empty *)
  correctWordId : string
}.

Record State := mkState {
  words : list Storage.Word;
  article : string;
  blanks : list BlankPosition;
  availableWords : list Storage.Word;
  submitted : bool;
  selectedWord : option Storage.Word;
  showDefinition : bool
}.

Definition is_null (x : option string) : bool :=
  match x with
  | None => true
  | Some _ => false
  end.

(** The end of [loadQuiz], once the words and the article are there. *)
Definition loadQuiz (selectedWords : list Storage.Word) (generatedArticle : string)
    (st : State) : State :=
  let blankPositions :=
    imap (fun blankIndex w => mkBlankPosition blankIndex None (Storage.id w))
         selectedWords in
  mkState selectedWords generatedArticle blankPositions selectedWords false
          (selectedWord st) (showDefinition st).

Definition handleWordSelect (word : Storage.Word) (st : State) : State :=
  if submitted st then
    mkState (words st) (article st) (blanks st) (availableWords st) (submitted st)
            (Some word) true
  else
    let isAvailable :=
      existsb (fun w => String.eqb (Storage.id w) (Storage.id word)) (availableWords st) in
    if negb isAvailable then st
    else
      match Storage.findIndex (fun b => is_null (wordId b)) (blanks st) with
      | None => st
      | Some emptyBlankIndex =>
          let newBlanks :=
            alter (fun b => mkBlankPosition (index b) (Some (Storage.id word))
                                            (correctWordId b))
                  emptyBlankIndex (blanks st) in
          let newAvailable :=
            List.filter (fun w => negb (String.eqb (Storage.id w) (Storage.id word)))
                        (availableWords st) in
          mkState (words st) (article st) newBlanks newAvailable (submitted st)
                  (selectedWord st) (showDefinition st)
      end.

(** [handleRemoveBlank]; for an index past the blanks the handler throws
    a TypeError and the state stays. *)
Definition handleRemoveBlank (blankIndex : nat) (st : State) : State :=
  if submitted st then st
  else
    match blanks st !! blankIndex with
    | None => st
    | Some blank =>
        match wordId blank with
        | None => st
        | Some filled =>
            if negb (Js.truthy filled) then st
            else
              let available :=
                match List.find (fun w => String.eqb (Storage.id w) filled) (words st) with
                | Some word => (availableWords st ++ [word])%list
                | None => availableWords st
                end in
              let newBlanks :=
                alter (fun b => mkBlankPosition (index b) None (correctWordId b))
                      blankIndex (blanks st) in
              mkState (words st) (article st) newBlanks available (submitted st)
                      (selectedWord st) (showDefinition st)
        end
    end.

(** [handleSubmit]: the new state and the results handed to
    [saveQuizResult], one per blank. *)
Definition handleSubmit (st : State) : State * list (string * bool) :=
  if existsb (fun b => is_null (wordId b)) (blanks st) then (st, [])
  else
    (mkState (words st) (article st) (blanks st) (availableWords st) true
             (selectedWord st) (showDefinition st),
     map (fun blank =>
            (correctWordId blank,
             match wordId blank with
             | Some chosen => String.eqb chosen (correctWordId blank)
             | None => false
             end))
         (blanks st)).

(** A blank drawn by [renderArticle], with the constants its [onPress]
    closure holds. *)
Record BlankElement := mkBlankElement {
  key : nat;                           (* `blank-${blankIndex}` *)
  isFilled : bool;
  blankWord : option Storage.Word      (* words.find(w => w.id === blank.wordId) *)
}.

(** The [forEach] of [renderArticle] over the parts that are not the last
    one, [n] of them left; [blankIndex] is the counter declared before the
    loop.  The result is the blanks drawn and the counter after the loop. *)
Fixpoint drawBlanks (st : State) (n blankIndex : nat) : list BlankElement * nat :=
  match n with
  | O => ([], blankIndex)
  | S n' =>
      if Nat.ltb blankIndex (length (blanks st)) then
        match blanks st !! blankIndex with
        | None => drawBlanks st n' (S blankIndex)
        | Some blank =>
            let word :=
              match wordId blank with
              | Some placed =>
                  List.find (fun w => String.eqb (Storage.id w) placed) (words st)
              | None => None
              end in
            let (elements, after) := drawBlanks st n' (S blankIndex) in
            (mkBlankElement blankIndex (negb (is_null (wordId blank))) word :: elements,
             after)
        end
      else drawBlanks st n' blankIndex
  end.

(** [renderArticle]: the blanks it draws and the value its counter
    [blankIndex] is left with; [article.split('______')] has one part
    more than the article has blanks. *)
Definition renderArticle (st : State) : list BlankElement * nat :=
  if negb (Js.truthy (article st)) || Nat.eqb (length (blanks st)) 0 then ([], 0%nat)
  else drawBlanks st (Js.count_blanks (article st)) 0.

(** The [onPress] of a drawn blank.  Its closure reads [blankIndex], the
    one counter of [renderArticle] that all blanks share, when the blank
    is pressed. *)
Definition onPress (element : BlankElement) (blankIndex : nat) (st : State) : State :=
  if isFilled element && negb (submitted st) then handleRemoveBlank blankIndex st
  else if submitted st then
    match blankWord element with
    | Some word =>
        mkState (words st) (article st) (blanks st) (availableWords st) (submitted st)
                (Some word) true
    | None => st
    end
  else st.

(** A press on a blank of the latest render. *)
Definition press (element : BlankElement) (st : State) : State :=
  onPress element (snd (renderArticle st)) st.

End QuizScreen.

(** * Vocabulary of the statements *)

(** ** Cache keys *)

Module KeySpec.

Import Js Llm.

(** No character of the identifier is a comma. *)
Fixpoint comma_free (s : string) : bool :=
  match s with
  | EmptyString => true
  | String c s' => negb (Ascii.eqb c ",") && comma_free s'
  end.

(** The first comma-separated field of a string and the fields after it. *)
Fixpoint split_commas (s : string) : string * list string :=
  match s with
  | EmptyString => (EmptyString, [])
  | String c s' =>
      let (f, r) := split_commas s' in
      if Ascii.eqb c "," then (EmptyString, f :: r) else (String c f, r)
  end.

Definition fields (s : string) : list string :=
  let (f, r) := split_commas s in f :: r.

Definition ids (ws : list Word) : list string := map id ws.

(** Three of the seeded words. *)
Definition wA : Word :=
  mkWord "word-1" "Serendipity"
         "The occurrence of pleasant things that happen by chance".
Definition wB : Word :=
  mkWord "word-2" "Ubiquitous" "Present, appearing, or found everywhere".
Definition wC : Word :=
  mkWord "word-3" "Ephemeral" "Lasting for a very short time".

End KeySpec.

(** ** Article generation *)

Module ArticleSpec.

Import Js Llm.

(** The provider did not deliver a usable text: it rejected, or its
    content is missing or blank. *)
Definition provider_failed (env : CallEnv) : bool :=
  match llm env with
  | Rejected => true
  | Completion None => true
  | Completion (Some c) => negb (truthy (trim c))
  end.

(** The article [generateArticleWithLLM] settles on once it holds a client. *)
Definition settled_article (env : CallEnv) (ws : list Word) : string :=
  match llm env with
  | Completion (Some c) => if truthy (trim c) then trim c else generateFallbackArticle ws
  | _ => generateFallbackArticle ws
  end.

(** A client exists already or can be built from the configured key. *)
Definition client_ready (cfg : Config) (s : Server) : bool :=
  match openaiClient s with
  | Some _ => true
  | None => truthy (configured_key cfg)
  end.

(** The server once [getOpenAIClient] has returned. *)
Definition with_client (cfg : Config) (s : Server) : Server :=
  match openaiClient s with
  | Some _ => s
  | None => set_openaiClient (Some (configured_key cfg)) s
  end.

End ArticleSpec.

(** ** The cache coordinator *)

Module CacheSpec.

Import Js Llm ArticleSpec.

(** The durable entry a lookup by key finds. *)
Definition durable_row (key : string) (s : Server) : option CachedArticleRow :=
  select_first (fun r => String.eqb (ca_word_ids r) key) (cached_articles (db s)).

(** What the probe of the memory cache yields, if it is a usable text. *)
Definition memory_hit (env : CallEnv) (ws : list Word) (s : Server) : option string :=
  match snd (NodeCache.get (cacheKey ws) (now env) (memoryCache s)) with
  | Some v => if truthy v then Some v else None
  | None => None
  end.

(** The server after the probe of the memory cache. *)
Definition probed (env : CallEnv) (ws : list Word) (s : Server) : Server :=
  set_memoryCache (fst (NodeCache.get (cacheKey ws) (now env) (memoryCache s))) s.

Definition is_miss (env : CallEnv) (ws : list Word) (s : Server) : Prop :=
  memory_hit env ws s = None /\ durable_row (cacheKey ws) s = None.

(** The row that a miss inserts. *)
Definition new_row (env : CallEnv) (ws : list Word) (text : string) : CachedArticleRow :=
  mkCachedArticleRow (article_id env) (cacheKey ws) text
                     (unixepoch (now env)) 0 (unixepoch (now env)).

Definition apple : Word := mkWord "word-9" "Apple" "A round fruit".

(** The memory cache after a miss has stored [text]. *)
Definition memory_after_miss (env : CallEnv) (ws : list Word) (text : string)
    (s : Server) : NodeCache.Cache :=
  let c := fst (NodeCache.get (cacheKey ws) (now env) (memoryCache s)) in
  NodeCache.mkCache (NodeCache.options c)
    (<[cacheKey ws := NodeCache.wrap (NodeCache.options c) (now env) text]>
       (NodeCache.data c)).

(** The server a miss ends in when nothing throws. *)
Definition after_miss (cfg : Config) (env : CallEnv) (ws : list Word) (s : Server)
  : Server :=
  let text := settled_article env ws in
  mkServer
    (set_cached_articles (fun rows =>
       cleanupOldCache_rows cfg (now env) (rows ++ [new_row env ws text])%list) (db s))
    (memory_after_miss env ws text s)
    (openaiClient (with_client cfg s)).

(** The memory cache was created from the configuration. *)
Definition configured (cfg : Config) (s : Server) : Prop :=
  NodeCache.options (memoryCache s) = NodeCache.options (new_memoryCache cfg).

(** The entry written at [now1] has not expired at [now2]. *)
Definition still_live (s : Server) (now1 now2 : Z) : Prop :=
  NodeCache.expired now2
    (NodeCache.wrap (NodeCache.options (memoryCache s)) now1 "") = false.

Definition abc_env1 : CallEnv :=
  mkCallEnv 1000 "article-1"
    (Completion (Some "Pure ______ made the ______ moment feel ______.")).
Definition abc_env2 : CallEnv := mkCallEnv 2000 "article-2" Rejected.
Definition abc_cfg : Config := default_config (Some "sk-test").
Definition abc_first : Server * Outcome string :=
  generateQuizArticle abc_cfg abc_env1 [KeySpec.wA; KeySpec.wB; KeySpec.wC]
                      (start abc_cfg (mkDB [] [] [] [] [] [])).
Definition abc_second : Server * Outcome string :=
  generateQuizArticle abc_cfg abc_env2 [KeySpec.wC; KeySpec.wB; KeySpec.wA]
                      (fst abc_first).



End CacheSpec.

(** ** The eviction sweep *)

Module EvictionSpec.

Import Llm.

Definition older_eq (a b : CachedArticleRow) : Prop :=
  ca_last_accessed a <= ca_last_accessed b.

(** The instant before which a row has aged out. *)
Definition cutoffTime (cfg : Config) (now : Z) : Z :=
  now / 1000 - QUIZ_CACHE_TTL_SECONDS cfg.

Definition sweep_cfg : Config := mkConfig None 3600 2 86400.
Definition sweep_server : Server :=
  start sweep_cfg
    (mkDB [] [] [] []
          [mkCachedArticleRow "article-1" "word-1" "One ______." 10 0 10;
           mkCachedArticleRow "article-2" "word-2" "Two ______." 20 3 30;
           mkCachedArticleRow "article-3" "word-3" "Three ______." 20 0 20]
          []).

End EvictionSpec.

(** ** Memory cache against durable store *)

Module CoherenceSpec.

Import Js Llm ArticleSpec CacheSpec.

(** One durable row per key, and no memory entry whose text differs
    from the durable row of its key. *)
Definition coh (rows : list CachedArticleRow) (data : gmap string NodeCache.Entry)
  : Prop :=
  List.NoDup (map ca_word_ids rows) /\
  forall k e row, data !! k = Some e -> In row rows -> ca_word_ids row = k ->
                  ca_article_text row = NodeCache.v e.

Definition coherent (s : Server) : Prop :=
  coh (cached_articles (db s)) (NodeCache.data (memoryCache s)).

(** What can happen to a running server whose calls do not overlap. *)
Inductive step (cfg : Config) : Server -> Server -> Prop :=
| step_request env ws s :
    step cfg s (fst (generateQuizArticle cfg env ws s))
| step_sweep now s :
    step cfg s (fst (cleanupOldCache cfg now s))
| step_check now s :
    step cfg s (set_memoryCache (NodeCache.checkData now (memoryCache s)) s)
| step_restart s :
    step cfg s (start cfg (db s)).

Inductive reachable (cfg : Config) : Server -> Prop :=
| reach_start d : cached_articles d = [] -> reachable cfg (start cfg d)
| reach_step s s' : reachable cfg s -> step cfg s s' -> reachable cfg s'.

(** The request step above is a call that runs from its start to its end
    with nothing in between.  The worlds below also hold the calls
    suspended at their await, so that calls overlap. *)

(** Single flight: a call does not come to its await while a call for
    the same key is suspended there. *)
Definition single_flight (cfg : Config) (w : Overlap.World) (ev : Overlap.Event) : bool :=
  match ev with
  | Overlap.Call now ws =>
      negb (Overlap.suspends cfg now ws (Overlap.server w) &&
            existsb (String.eqb (cacheKey ws)) (map cacheKey (Overlap.awaiting w)))
  | _ => true
  end.

(** No restriction on the events. *)
Definition any_order (w : Overlap.World) (ev : Overlap.Event) : bool := true.

(** The worlds a process reaches, from an empty table of cached articles,
    through the events that [allowed] lets through. *)
Inductive reaches (allowed : Overlap.World -> Overlap.Event -> bool) (cfg : Config)
  : Overlap.World -> Prop :=
| reaches_start d :
    cached_articles d = [] -> reaches allowed cfg (Overlap.mkWorld (start cfg d) [])
| reaches_event w ev :
    reaches allowed cfg w -> allowed w ev = true ->
    reaches allowed cfg (Overlap.fire cfg ev w).


Definition play (cfg : Config) (evs : list Overlap.Event) (w : Overlap.World)
  : Overlap.World :=
  fold_left (fun w ev => Overlap.fire cfg ev w) evs w.

Definition fresh_world (cfg : Config) : Overlap.World :=
  Overlap.mkWorld (start cfg (mkDB [] [] [] [] [] [])) [].


(** Two calls for one key that overlap: both miss, both write. *)
Definition race_world : Overlap.World :=
  play abc_cfg
    [Overlap.Call 1000 [KeySpec.wA];
     Overlap.Call 1001 [KeySpec.wA];
     Overlap.Answer (mkCallEnv 3000 "article-1" (Completion (Some "Pure ______."))) 1;
     Overlap.Answer (mkCallEnv 3500 "article-2" (Completion (Some "Such ______!"))) 0]
    (fresh_world abc_cfg).


End CoherenceSpec.

(** ** The progress routes *)

Module ProgressSpec.

Import Js Progress.

(** The row a quiz result adds to [quiz_results]. *)
Definition result_row (env : ReqEnv) (userId wordId : string) (isCorrect : bool)
  : QuizResultRow :=
  mkQuizResultRow (fresh_id env) userId wordId (if isCorrect then 1 else 0)
                  (unixepoch (now env)).

(** The request passes validation and its result row can be inserted. *)
Definition accepted (env : ReqEnv) (userId wordId : string) (d : DB) : Prop :=
  truthy userId = true /\ truthy wordId = true /\
  exists_in u_id userId (users d) = true /\
  exists_in w_id wordId (words d) = true /\
  pk_taken qr_id (fresh_id env) (quiz_results d) = false.

Definition demo_env : ReqEnv := mkReqEnv 1700000000000 "qr-1" "dp-1" "2023-11-14".
Definition demo_rt : Runtime := mkRuntime true false.
Definition demo_row (bucket : string) : UserWordRow :=
  mkUserWordRow "uw-1" "user-1" "word-1" bucket 1699990000 None 0 0 0.
Definition demo_db (rows : list UserWordRow) : DB :=
  mkDB [mkWordRow "word-1" "Serendipity" "The occurrence of pleasant things"]
       [mkUserRow "user-1" "device-1" 1699990000]
       rows [] [] [].

(** The row [save_word] inserts. *)
Definition saved_row (env : ReqEnv) (userId wordId : string) : UserWordRow :=
  mkUserWordRow (fresh_id env) userId wordId "needs work"
                (unixepoch (now env)) None 0 0 0.

Definition counts_ok (r : UserWordRow) : Prop :=
  uw_review_count r = uw_correct_count r + uw_incorrect_count r.

Definition refers_ok (d : DB) (r : UserWordRow) : Prop :=
  truthy (uw_user_id r) = true /\ truthy (uw_word_id r) = true /\
  exists_in w_id (uw_word_id r) (words d) = true.

Definition pair_of (r : UserWordRow) : string * string :=
  (uw_user_id r, uw_word_id r).

Record good (d : DB) : Prop := mkGood {
  good_counts : Forall counts_ok (user_words d);
  good_refers : Forall (refers_ok d) (user_words d);
  good_unique : List.NoDup (map pair_of (user_words d))
}.

(** The databases the progress routes can produce, from one in which
    nobody has saved a word yet. *)
Inductive reachable (rt : Runtime) : DB -> Prop :=
| reach_init d : user_words d = [] -> reachable rt d
| reach_user env deviceId d :
    reachable rt d -> reachable rt (fst (post_user env deviceId d))
| reach_save env userId wordId d :
    reachable rt d -> reachable rt (fst (save_word rt env userId wordId d))
| reach_quiz env userId wordId isCorrect d :
    reachable rt d -> reachable rt (fst (quiz_result rt env userId wordId isCorrect d)).

Definition save_env : ReqEnv := mkReqEnv 1699990000000 "uw-1" "dp-0" "2023-11-14".
Definition after_save : DB :=
  fst (save_word demo_rt save_env "user-1" "word-1" (demo_db [])).
Definition after_quiz : DB :=
  fst (quiz_result demo_rt demo_env "user-1" "word-1" (Some true) after_save).

End ProgressSpec.

(** ** The routes in front of the tables *)

Module RouteSpec.

Import Js Llm.

(** A server over a [words] table with three of the seeded rows. *)
Definition seeded_words : list WordRow :=
  [mkWordRow "word-1" "Serendipity"
             "The occurrence of pleasant things that happen by chance";
   mkWordRow "word-2" "Ubiquitous" "Present, appearing, or found everywhere";
   mkWordRow "word-3" "Ephemeral" "Lasting for a very short time"].

Definition seeded_server : Server :=
  start (default_config (Some "sk-test")) (mkDB seeded_words [] [] [] [] []).

(** A user's saved words: one per bucket, stored in the order
    well known, needs work, familiar. *)
Definition three_buckets : DB :=
  mkDB seeded_words
       [mkUserRow "user-1" "device-1" 1699990000]
       [mkUserWordRow "uw-1" "user-1" "word-1" "well known" 1699990000
                      (Some 1699990500) 2 2 0;
        mkUserWordRow "uw-2" "user-1" "word-2" "needs work" 1699990100 None 0 0 0;
        mkUserWordRow "uw-3" "user-1" "word-3" "familiar" 1699990200
                      (Some 1699990400) 1 1 0]
       [] [] [].

End RouteSpec.

(** ** The progress tables over time *)

Module HistorySpec.

Import Js Progress ProgressSpec.

(** The databases the progress routes can produce from [d0]. *)
Inductive evolves (rt : Runtime) (d0 : DB) : DB -> Prop :=
| ev_here : evolves rt d0 d0
| ev_user env deviceId d :
    evolves rt d0 d -> evolves rt d0 (fst (post_user env deviceId d))
| ev_save env userId wordId d :
    evolves rt d0 d -> evolves rt d0 (fst (save_word rt env userId wordId d))
| ev_quiz env userId wordId isCorrect d :
    evolves rt d0 d ->
    evolves rt d0 (fst (quiz_result rt env userId wordId isCorrect d)).

(** The sum of an integer column. *)
Definition total {Row} (col : Row -> Z) (rows : list Row) : Z :=
  fold_right (fun r acc => col r + acc) 0 rows.

Definition day_of (p : DailyProgressRow) : string * string :=
  (dp_user_id p, dp_date p).

(** The row that starts a day's statistics. *)
Definition first_of_day (env : ReqEnv) (userId : string) (saved reviewed : Z)
  : DailyProgressRow :=
  mkDailyProgressRow (progress_id env) userId (today env) saved 0 reviewed.

(** What a handler does to [daily_progress]: nothing, one counter bumped
    in the rows with the id of the day's row, or a first row for the day. *)
Definition daily_effect (bump : DailyProgressRow -> DailyProgressRow)
    (fresh : DailyProgressRow) (env : ReqEnv) (userId : string) (d d' : DB) : Prop :=
  daily_progress d' = daily_progress d \/
  (exists p, select_daily_progress userId (today env) d = Some p /\
             daily_progress d' =
               update_where (fun r => String.eqb (dp_id r) (dp_id p)) bump
                            (daily_progress d)) \/
  (select_daily_progress userId (today env) d = None /\
   pk_taken dp_id (progress_id env) (daily_progress d) = false /\
   daily_progress d' = (daily_progress d ++ [fresh])%list).

(** The day's counter of saved words, 0 before the first event of the day. *)
Definition words_saved_on (userId date : string) (d : DB) : Z :=
  match select_daily_progress userId date d with
  | Some p => dp_words_saved p
  | None => 0
  end.

Definition words_reviewed_on (userId date : string) (d : DB) : Z :=
  match select_daily_progress userId date d with
  | Some p => dp_words_reviewed p
  | None => 0
  end.

(** The three buckets. *)
Definition is_bucket (bucket : string) : Prop :=
  bucket = "needs work" \/ bucket = "familiar" \/ bucket = "well known".

End HistorySpec.

(** ** What the schema and the counters promise *)

Module LedgerSpec.

Import Js Progress ProgressSpec HistorySpec.

(** The keys the schema declares: the PRIMARY KEY of each table,
    [device_id TEXT UNIQUE], [UNIQUE(user_id, word_id)] and
    [UNIQUE(user_id, date)]. *)
Record keys_hold (d : DB) : Prop := mkKeys {
  key_users : List.NoDup (map u_id (users d));
  key_devices : List.NoDup (map u_device_id (users d));
  key_user_words : List.NoDup (map uw_id (user_words d));
  key_pairs : List.NoDup (map pair_of (user_words d));
  key_results : List.NoDup (map qr_id (quiz_results d));
  key_progress : List.NoDup (map dp_id (daily_progress d));
  key_days : List.NoDup (map day_of (daily_progress d))
}.

(** The values the comments of the schema allow: a bucket is one of the
    three, [is_correct] is 0 or 1. *)
Definition values_hold (d : DB) : Prop :=
  Forall (fun r => is_bucket (uw_bucket r)) (user_words d) /\
  Forall (fun q => qr_is_correct q = 0 \/ qr_is_correct q = 1) (quiz_results d).

(** [SELECT COUNT( * ) ... WHERE p]. *)
Definition count {Row} (p : Row -> bool) (rows : list Row) : Z :=
  Z.of_nat (length (List.filter p rows)).

(** The logged answers of a user for a word, correct (1) or not (0). *)
Definition answers (userId wordId : string) (isCorrect : Z) (d : DB) : Z :=
  count (fun q => String.eqb (qr_user_id q) userId &&
                  String.eqb (qr_word_id q) wordId &&
                  (qr_is_correct q =? isCorrect))
        (quiz_results d).

(** The counters of a saved word do not exceed the log. *)
Definition within_log (d : DB) (r : UserWordRow) : Prop :=
  0 <= uw_correct_count r <= answers (uw_user_id r) (uw_word_id r) 1 d /\
  0 <= uw_incorrect_count r <= answers (uw_user_id r) (uw_word_id r) 0 d.

Definition of_user (userId : string) (p : DailyProgressRow) : bool :=
  String.eqb (dp_user_id p) userId.

(** The words a user has saved and the answers a user has given. *)
Definition saved_words (userId : string) (d : DB) : Z :=
  count (fun r => String.eqb (uw_user_id r) userId) (user_words d).
Definition given_answers (userId : string) (d : DB) : Z :=
  count (fun q => String.eqb (qr_user_id q) userId) (quiz_results d).

(** A user's daily counters summed over all days. *)
Definition saved_over_days (userId : string) (d : DB) : Z :=
  total dp_words_saved (List.filter (of_user userId) (daily_progress d)).
Definition reviewed_over_days (userId : string) (d : DB) : Z :=
  total dp_words_reviewed (List.filter (of_user userId) (daily_progress d)).

(** The daily counters of a user are not negative and do not exceed what
    the tables hold. *)
Definition days_within_tables (d : DB) : Prop :=
  Forall (fun p => 0 <= dp_words_saved p /\ 0 <= dp_words_reviewed p)
         (daily_progress d) /\
  forall userId,
    saved_over_days userId d <= saved_words userId d /\
    reviewed_over_days userId d <= given_answers userId d.

(** The invariants, each with the keys it depends on. *)
Definition log_ok (d : DB) : Prop :=
  keys_hold d /\ Forall (within_log d) (user_words d).
Definition days_ok (d : DB) : Prop := keys_hold d /\ days_within_tables d.

(** A database with the seeded word and nothing else. *)
Definition seeded : DB :=
  mkDB [mkWordRow "word-1" "Serendipity" "The occurrence of pleasant things"]
       [] [] [] [] [].

(** A first day: a registration, a saved word and a correct answer. *)
Definition register_env : ReqEnv :=
  mkReqEnv 1699990000000 "user-1" "dp-x" "2023-11-14".
Definition day_one : DB :=
  fst (quiz_result demo_rt demo_env "user-1" "word-1" (Some true)
        (fst (save_word demo_rt save_env "user-1" "word-1"
               (fst (post_user register_env "device-1" seeded))))).

(** [daily_progress] after an event of [userId] has been counted: the
    counter of the day's row is bumped, or the day gets its first row. *)
Definition counted (bump : DailyProgressRow -> DailyProgressRow)
    (fresh : DailyProgressRow) (env : ReqEnv) (userId : string) (d : DB)
  : list DailyProgressRow :=
  match select_daily_progress userId (today env) d with
  | Some p => update_where (fun r => String.eqb (dp_id r) (dp_id p)) bump
                           (daily_progress d)
  | None => (daily_progress d ++ [fresh])%list
  end.

(** The day's row can be written: it exists, or the new id is free. *)
Definition day_writable (env : ReqEnv) (userId : string) (d : DB) : Prop :=
  select_daily_progress userId (today env) d = None ->
  pk_taken dp_id (progress_id env) (daily_progress d) = false.

(** A new word of [userId] can be saved. *)
Definition saveable (rt : Runtime) (env : ReqEnv) (userId wordId : string) (d : DB)
  : Prop :=
  truthy userId = true /\ truthy wordId = true /\
  exists_in w_id wordId (words d) = true /\
  select_user_word userId wordId d = None /\
  pk_taken uw_id (fresh_id env) (user_words d) = false /\
  (foreign_keys rt = true -> exists_in u_id userId (users d) = true) /\
  day_writable env userId d.

(** The database after a registration. *)
Definition registered : DB := fst (post_user register_env "device-1" seeded).
Definition saved_once : DB :=
  fst (save_word demo_rt save_env "user-1" "word-1" registered).

End LedgerSpec.

(** ** What the reports promise *)

Module ReportSpec.

Import Js Progress ProgressSpec HistorySpec LedgerSpec.

(** [stats.wordsByBucket[bucket]], 0 when the key is missing. *)
Definition in_bucket (bucket : string) (s : Stats.Reply) : Z :=
  default 0 (Stats.wordsByBucket s !! bucket).

(** The user's rows of [user_words]. *)
Definition saved_rows (userId : string) (d : DB) : list UserWordRow :=
  List.filter (fun r => String.eqb (uw_user_id r) userId) (user_words d).

End ReportSpec.

(** ** What the device keeps *)

Module DeviceSpec.

Import Storage.

(** The storages the app can produce from [s0] with the functions of
    utils/storage.ts. *)
Inductive changes (s0 : AsyncStorage) : AsyncStorage -> Prop :=
| ch_here : changes s0 s0
| ch_word today w s :
    changes s0 s -> changes s0 (saveWord today w s)
| ch_bucket now today wordId isCorrect s :
    changes s0 s -> changes s0 (updateWordBucket now today wordId isCorrect s)
| ch_result stamp now today wordId isCorrect s :
    changes s0 s -> changes s0 (saveQuizResult stamp now today wordId isCorrect s).

(** The word after a review, with the bucket the server would compute. *)
Definition after_review (w : Word) (isCorrect : bool) (now : Z) : Word :=
  mkWord (id w) (word w) (definition w) (Progress.newBucket (bucket w) isCorrect)
         (createdAt w) (Some now).

(** The daily counts are a window of at most seven distinct days, each
    with at least one word, and count no more words than are stored. *)
Record window_ok (s : AsyncStorage) : Prop := mkWindow {
  window_length : (length (getDailyWords s) <= 7)%nat;
  window_dates : List.NoDup (map date (getDailyWords s));
  window_counts : Forall (fun d => 1 <= count d) (getDailyWords s);
  window_total :
    HistorySpec.total count (getDailyWords s) <= Z.of_nat (length (getWords s))
}.

(** [bucketPriority[bucket]] read as a number, 0 for undefined. *)
Definition rank (w : Word) : Z := default 0 (QuizGenerator.bucketPriority (bucket w)).

(** The order of the comparator on words whose bucket has a priority. *)
Definition by_rank (a b : Word) : bool := rank b <=? rank a.

(** The sentence of a word once its placeholder is a blank. *)
Definition blanked (w : Word) : string :=
  JsText.replace (QuizGenerator.sentence 0 w) (QuizGenerator.placeholder 0) "______".

(** [xs[0] + " " + ... + xs[n-1] + " " + rest]. *)
Definition lead (xs : list string) (rest : string) : string :=
  fold_right (fun x acc => x ++ " " ++ acc) rest xs.

(** [" " + ys[0] + ... + " " + ys[n-1]]. *)
Definition trail (ys : list string) : string :=
  fold_right (fun y acc => " " ++ y ++ acc) "" ys.

Definition fresh_storage : AsyncStorage := mkAsyncStorage None None None.
Definition serendipity : Word :=
  mkWord "word-1" "Serendipity" "The occurrence of pleasant things" "needs work"
         1699990000000 None.
Definition ephemeral : Word :=
  mkWord "word-3" "Ephemeral" "Lasting for a very short time" "familiar"
         1699990000001 None.
Definition two_words : AsyncStorage :=
  saveWord "Tue Nov 14 2023" ephemeral (saveWord "Tue Nov 14 2023" serendipity fresh_storage).

End DeviceSpec.

(** ** What the quiz screen keeps *)

Module ScreenSpec.

Import QuizScreen.

(** The states a quiz goes through after [st0]. *)
Inductive plays (st0 : State) : State -> Prop :=
| play_here : plays st0 st0
| play_select word st : plays st0 st -> plays st0 (handleWordSelect word st)
| play_remove blankIndex st : plays st0 st -> plays st0 (handleRemoveBlank blankIndex st)
| play_submit st : plays st0 st -> plays st0 (fst (handleSubmit st)).

(** The ids placed in the blanks. *)
Definition placed (st : State) : list string := omap wordId (blanks st).

(** Every word of the quiz is on offer or in a blank, never both and
    never twice. *)
Record accounted (st : State) : Prop := mkAccounted {
  acc_ids : List.NoDup (map Storage.id (words st));
  acc_correct : map correctWordId (blanks st) = map Storage.id (words st);
  acc_perm :
    Permutation (map Storage.id (availableWords st) ++ placed st)
                (map Storage.id (words st))
}.

Definition idle : State := mkState [] "" [] [] false None false.
Definition opened : State :=
  loadQuiz [DeviceSpec.serendipity; DeviceSpec.ephemeral]
           "Finding it was pure ______. The ______ moment passed." idle.
Definition all_placed : State :=
  handleWordSelect DeviceSpec.serendipity (handleWordSelect DeviceSpec.ephemeral opened).

End ScreenSpec.

(** * Properties *)

(** ** The order behind the default [sort] *)

Section StringOrder.

Lemma ascii_compare_refl (a : ascii) : Ascii.compare a a = Eq.
Proof. unfold Ascii.compare. apply N.compare_refl. Qed.

Lemma ascii_compare_lt_trans (a b c : ascii) :
  Ascii.compare a b = Lt -> Ascii.compare b c = Lt -> Ascii.compare a c = Lt.
Proof.
  unfold Ascii.compare. rewrite !N.compare_lt_iff. lia.
Qed.

Lemma string_compare_refl (s : string) : String.compare s s = Eq.
Proof.
  induction s as [|a s IH]; simpl; [reflexivity|].
  now rewrite ascii_compare_refl.
Qed.

Lemma string_compare_lt_trans (s1 : string) :
  forall s2 s3, String.compare s1 s2 = Lt -> String.compare s2 s3 = Lt ->
                String.compare s1 s3 = Lt.
Proof.
  induction s1 as [|a s1 IH]; intros [|b s2] [|c s3]; simpl; try congruence.
  destruct (Ascii.compare a b) eqn:Eab; try congruence;
    destruct (Ascii.compare b c) eqn:Ebc; try congruence; intros H12 H23.
  - apply Ascii.compare_eq_iff in Eab, Ebc. subst.
    rewrite ascii_compare_refl. eauto.
  - apply Ascii.compare_eq_iff in Eab. subst. now rewrite Ebc.
  - apply Ascii.compare_eq_iff in Ebc. subst. now rewrite Eab.
  - now rewrite (ascii_compare_lt_trans a b c).
Qed.

Lemma string_leb_refl (s : string) : String.leb s s = true.
Proof. unfold String.leb. now rewrite string_compare_refl. Qed.

Lemma string_leb_trans (s1 s2 s3 : string) :
  String.leb s1 s2 = true -> String.leb s2 s3 = true -> String.leb s1 s3 = true.
Proof.
  unfold String.leb.
  destruct (String.compare s1 s2) eqn:E12; try congruence;
    destruct (String.compare s2 s3) eqn:E23; try congruence; intros _ _.
  - apply String.compare_eq_iff in E12, E23. subst. now rewrite string_compare_refl.
  - apply String.compare_eq_iff in E12. subst. now rewrite E23.
  - apply String.compare_eq_iff in E23. subst. now rewrite E12.
  - now rewrite (string_compare_lt_trans s1 s2 s3).
Qed.

Lemma string_leb_false (s1 s2 : string) :
  String.leb s1 s2 = false -> String.leb s2 s1 = true.
Proof.
  intros H. destruct (String.leb_total s1 s2) as [H'|H']; congruence.
Qed.

End StringOrder.

(** ** [sort] is the canonical rearrangement *)

Section Sorting.

Import Js.

Lemma insert_sorted_perm (x : string) (l : list string) :
  Permutation (x :: l) (insert_sorted x l).
Proof.
  induction l as [|y l IH]; simpl; [reflexivity|].
  destruct (String.leb x y); [reflexivity|].
  rewrite perm_swap. now constructor.
Qed.

Lemma sort_perm (l : list string) : Permutation l (sort l).
Proof.
  induction l as [|x l IH]; simpl; [constructor|].
  rewrite <- insert_sorted_perm. now constructor.
Qed.

Lemma insert_sorted_comm (x y : string) (l : list string) :
  insert_sorted x (insert_sorted y l) = insert_sorted y (insert_sorted x l).
Proof.
  induction l as [|h l IH]; simpl.
  - destruct (String.leb x y) eqn:Exy, (String.leb y x) eqn:Eyx; try reflexivity.
    + now rewrite (String.leb_antisym x y).
    + apply string_leb_false in Exy. congruence.
  - destruct (String.leb y h) eqn:Eyh, (String.leb x h) eqn:Exh; simpl;
      rewrite ?Eyh, ?Exh;
      destruct (String.leb x y) eqn:Exy, (String.leb y x) eqn:Eyx;
      try reflexivity; try (now rewrite IH).
    all: try (rewrite (String.leb_antisym x y Exy Eyx) in *; congruence).
    all: try (apply string_leb_false in Exy; congruence).
    all: try (pose proof (string_leb_trans _ _ _ Exy Eyh); congruence).
    all: try (pose proof (string_leb_trans _ _ _ Eyx Exh); congruence).
Qed.

Lemma sort_permutation_eq (l1 l2 : list string) :
  Permutation l1 l2 -> sort l1 = sort l2.
Proof.
  induction 1 as [|x l l' _ IH|x y l|l l' l'' _ IH1 _ IH2]; simpl.
  - reflexivity.
  - now rewrite IH.
  - apply insert_sorted_comm.
  - congruence.
Qed.

End Sorting.

(** ** Reading a comma-joined key back *)

Section CommaFields.

Import Js KeySpec.

Lemma split_commas_app (x rest : string) :
  comma_free x = true ->
  split_commas (x ++ String "," rest) = (x, fields rest).
Proof.
  unfold fields. induction x as [|c x IH]; simpl; intros Hx.
  - now destruct (split_commas rest).
  - apply andb_true_iff in Hx as [Hc Hx]. rewrite (IH Hx).
    apply negb_true_iff in Hc. now rewrite Hc.
Qed.

Lemma split_commas_single (x : string) :
  comma_free x = true -> split_commas x = (x, []).
Proof.
  induction x as [|c x IH]; simpl; intros Hx; [reflexivity|].
  apply andb_true_iff in Hx as [Hc Hx]. rewrite (IH Hx).
  apply negb_true_iff in Hc. now rewrite Hc.
Qed.

Lemma fields_join (x : string) (l : list string) :
  forallb comma_free (x :: l) = true -> fields (join "," (x :: l)) = x :: l.
Proof.
  revert x. induction l as [|y l IH]; intros x Hall.
  - simpl in *. apply andb_true_iff in Hall as [Hx _].
    unfold fields. now rewrite split_commas_single.
  - change (join "," (x :: y :: l)) with (x ++ String "," (join "," (y :: l))).
    simpl in Hall. apply andb_true_iff in Hall as [Hx Hall].
    unfold fields at 1. rewrite split_commas_app by assumption.
    now rewrite IH.
Qed.

Lemma join_comma_inj (l1 l2 : list string) :
  l1 <> [] -> l2 <> [] ->
  forallb comma_free l1 = true -> forallb comma_free l2 = true ->
  join "," l1 = join "," l2 -> l1 = l2.
Proof.
  destruct l1 as [|x1 l1], l2 as [|x2 l2]; try congruence.
  intros _ _ H1 H2 E.
  rewrite <- (fields_join x1 l1 H1), <- (fields_join x2 l2 H2).
  now rewrite E.
Qed.

Lemma forallb_permutation {A} (p : A -> bool) (l1 l2 : list A) :
  Permutation l1 l2 -> forallb p l1 = forallb p l2.
Proof.
  induction 1; simpl; try congruence.
  now rewrite !andb_assoc, (andb_comm (p y)).
Qed.

End CommaFields.

(** ** ORDER BY ... LIMIT *)

Section OrderByFacts.

Context {Row : Type} (leb : Row -> Row -> bool).
Hypothesis leb_total : forall a b, leb a b = true \/ leb b a = true.
Hypothesis leb_trans : forall a b c, leb a b = true -> leb b c = true -> leb a c = true.

Lemma insert_by_perm r l : Permutation (r :: l) (Sql.insert_by leb r l).
Proof.
  induction l as [|x l IH]; simpl; [reflexivity|].
  destruct (leb x r); [|reflexivity].
  rewrite perm_swap. now constructor.
Qed.

Lemma order_by_perm rows : Permutation (Sql.order_by leb rows) rows.
Proof.
  unfold Sql.order_by.
  assert (H : forall acc, Permutation
                (fold_left (fun acc r => Sql.insert_by leb r acc) rows acc) (acc ++ rows)).
  { induction rows as [|r rows IH]; intros acc; simpl.
    - now rewrite app_nil_r.
    - rewrite IH, <- insert_by_perm. simpl. apply Permutation_middle. }
  exact (H []).
Qed.

Lemma insert_by_sorted r l :
  StronglySorted (fun a b => leb a b = true) l ->
  StronglySorted (fun a b => leb a b = true) (Sql.insert_by leb r l).
Proof.
  induction 1 as [|x l Hs IH Hx]; simpl.
  - repeat constructor.
  - destruct (leb x r) eqn:E.
    + constructor; [exact IH|].
      rewrite List.Forall_forall in *. intros y Hy.
      apply (Permutation_in _ (Permutation_sym (insert_by_perm r l))) in Hy as [<-|Hy];
        [exact E | now apply Hx].
    + assert (Hrx : leb r x = true) by (destruct (leb_total r x); congruence).
      constructor; [now constructor|].
      constructor; [exact Hrx|].
      rewrite List.Forall_forall in *. intros y Hy. eauto.
Qed.

Lemma order_by_sorted rows :
  StronglySorted (fun a b => leb a b = true) (Sql.order_by leb rows).
Proof.
  unfold Sql.order_by.
  assert (H : forall acc, StronglySorted (fun a b => leb a b = true) acc ->
              StronglySorted (fun a b => leb a b = true)
                (fold_left (fun acc r => Sql.insert_by leb r acc) rows acc)).
  { induction rows as [|r rows IH]; intros acc Hacc; simpl; [exact Hacc|].
    apply IH. now apply insert_by_sorted. }
  apply H. constructor.
Qed.

Lemma sorted_firstn (l : list Row) (k : nat) :
  StronglySorted (fun a b => leb a b = true) l ->
  StronglySorted (fun a b => leb a b = true) (firstn k l).
Proof.
  intros Hs. revert k. induction Hs as [|a l Hs IH Ha]; intros [|k]; simpl;
    try constructor; [apply IH|].
  rewrite List.Forall_forall in *. intros y Hy. apply Ha.
  rewrite <- (firstn_skipn k l). apply in_or_app. now left.
Qed.

Lemma sorted_firstn_skipn (l : list Row) (k : nat) x y :
  StronglySorted (fun a b => leb a b = true) l ->
  In x (firstn k l) -> In y (skipn k l) -> leb x y = true.
Proof.
  intros Hs. revert k. induction Hs as [|a l Hs IH Ha]; intros k Hx Hy.
  - destruct k; destruct Hx.
  - destruct k as [|k]; [destruct Hx|].
    simpl in Hx, Hy. destruct Hx as [<-|Hx].
    + rewrite List.Forall_forall in Ha. apply Ha.
      rewrite <- (firstn_skipn k l). apply in_or_app. now right.
    + now apply (IH k).
Qed.

(** What [ORDER BY ... LIMIT n] returns: rows of the input, in order, at
    most [n] of them when [n] is not negative, and every row left out
    sorts no earlier than every row returned. *)
Lemma order_by_limit (n : Z) (rows : list Row) :
  let result := limit n (Sql.order_by leb rows) in
  (forall r, In r result -> In r rows) /\
  (0 <= n -> Z.of_nat (length result) <= n) /\
  StronglySorted (fun a b => leb a b = true) result /\
  (forall x y, In x rows -> ~ In x result -> In y result -> leb y x = true).
Proof.
  cbv zeta. unfold limit.
  pose proof (order_by_perm rows) as HP.
  pose proof (order_by_sorted rows) as Hs.
  destruct (n <? 0) eqn:En.
  - apply Z.ltb_lt in En. repeat split.
    + intros r Hr. exact (Permutation_in _ HP Hr).
    + lia.
    + exact Hs.
    + intros x y Hx Hnot. exfalso. apply Hnot.
      exact (Permutation_in _ (Permutation_sym HP) Hx).
  - apply Z.ltb_ge in En. repeat split.
    + intros r Hr. apply (Permutation_in _ HP).
      rewrite <- (firstn_skipn (Z.to_nat n) (Sql.order_by leb rows)).
      apply in_or_app. now left.
    + intros _. pose proof (List.firstn_le_length (Z.to_nat n) (Sql.order_by leb rows)).
      lia.
    + now apply sorted_firstn.
    + intros x y Hx Hnot Hy.
      apply (Permutation_in _ (Permutation_sym HP)) in Hx.
      rewrite <- (firstn_skipn (Z.to_nat n) (Sql.order_by leb rows)) in Hx.
      apply in_app_or in Hx as [Hx|Hx]; [contradiction|].
      exact (sorted_firstn_skipn _ _ y x Hs Hy Hx).
Qed.

End OrderByFacts.

(** ** Cache keys (ArtifactKey Builder) *)

Module KeyFacts.

Import Llm KeySpec.

(** Two requests over different identifier sets share one key once an
    identifier contains the separator. *)
Lemma cacheKey_collision :
  cacheKey [mkWord "a,b" "x" "dx"] = cacheKey [mkWord "a" "y" "dy"; mkWord "b" "z" "dz"]
  /\ ~ (forall i, In i (ids [mkWord "a,b" "x" "dx"]) <->
                  In i (ids [mkWord "a" "y" "dy"; mkWord "b" "z" "dz"])).
Proof.
  split; [reflexivity|].
  intros H. destruct (H "a") as [_ H']. simpl in H'.
  destruct H' as [E|[]]; [now left | discriminate E].
Qed.

(** C6 (as amended).  Word lists whose identifier lists are permutations
    of one another get the same cache key; and two non-empty lists of
    comma-free identifiers that get the same key are permutations of one
    another, so lists over different identifier sets get different keys. *)
Theorem cacheKey_canonical (ws1 ws2 : list Word) :
  (Permutation (ids ws1) (ids ws2) -> cacheKey ws1 = cacheKey ws2) /\
  (ws1 <> [] -> ws2 <> [] ->
   forallb comma_free (ids ws1) = true -> forallb comma_free (ids ws2) = true ->
   cacheKey ws1 = cacheKey ws2 ->
   Permutation (ids ws1) (ids ws2) /\ (forall i, In i (ids ws1) <-> In i (ids ws2))).
Proof.
  unfold cacheKey, ids. split.
  - intros HP. now rewrite (sort_permutation_eq _ _ HP).
  - intros N1 N2 C1 C2 E.
    assert (HP : Permutation (map id ws1) (map id ws2)).
    { apply join_comma_inj in E.
      + rewrite (sort_perm (map id ws1)), (sort_perm (map id ws2)). now rewrite E.
      + intros E0. apply N1. destruct ws1; [reflexivity|].
        pose proof (Permutation_length (sort_perm (map id (w :: ws1)))) as HL.
        rewrite E0 in HL. discriminate HL.
      + intros E0. apply N2. destruct ws2; [reflexivity|].
        pose proof (Permutation_length (sort_perm (map id (w :: ws2)))) as HL.
        rewrite E0 in HL. discriminate HL.
      + now rewrite <- (forallb_permutation _ _ _ (sort_perm _)).
      + now rewrite <- (forallb_permutation _ _ _ (sort_perm _)). }
    split; [exact HP|].
    intros i. split; intros Hi.
    + eapply Permutation_in; eauto.
    + eapply Permutation_in; [symmetry|]; eauto.
Qed.

Lemma cacheKey_canonical_witness :
  cacheKey [wA; wB; wC] = cacheKey [wC; wB; wA] /\
  Permutation (ids [wA; wB]) (ids [wB; wA]).
Proof.
  split.
  - apply (cacheKey_canonical [wA; wB; wC] [wC; wB; wA]).
    simpl. rewrite (perm_swap "word-2" "word-1" ["word-3"]).
    rewrite (Permutation_cons_append ["word-2"; "word-1"] "word-3"). simpl.
    reflexivity.
  - apply (cacheKey_canonical [wA; wB] [wB; wA]);
      try reflexivity; discriminate.
Defined.

End KeyFacts.

(** ** Article generation *)

Module ArticleFacts.

Import Js Llm ArticleSpec.

Lemma fallbackSentence_one_blank (w : Word) (rest : string) :
  count_blanks_from 0 (fallbackSentence w ++ rest) = S (count_blanks_from 0 rest).
Proof.
  unfold fallbackSentence.
  repeat match goal with
         | |- context [if ?b then _ else _] => destruct b
         end; vm_compute; reflexivity.
Qed.

Lemma fallbackSentence_truthy (w : Word) (rest : string) :
  truthy (fallbackSentence w ++ rest) = true.
Proof.
  unfold fallbackSentence.
  repeat match goal with
         | |- context [if ?b then _ else _] => destruct b
         end; reflexivity.
Qed.

Lemma append_empty (s : string) : s ++ "" = s.
Proof.
  induction s as [|c s IH]; [reflexivity|].
  change (String c s ++ "") with (String c (s ++ "")). congruence.
Qed.

Lemma generateFallbackArticle_cons (w w' : Word) (ws : list Word) :
  generateFallbackArticle (w :: w' :: ws) =
  fallbackSentence w ++ String " " (generateFallbackArticle (w' :: ws)).
Proof. reflexivity. Qed.

(** The fallback text has one blank marker per word. *)
Lemma generateFallbackArticle_blanks (ws : list Word) :
  count_blanks (generateFallbackArticle ws) = length ws.
Proof.
  unfold count_blanks.
  induction ws as [|w [|w' ws] IH].
  - reflexivity.
  - change (generateFallbackArticle [w]) with (fallbackSentence w).
    rewrite <- (append_empty (fallbackSentence w)).
    now rewrite fallbackSentence_one_blank.
  - rewrite generateFallbackArticle_cons, fallbackSentence_one_blank.
    change (count_blanks_from 0 (String " " ?s)) with (count_blanks_from 0 s).
    now rewrite IH.
Qed.

Lemma generateFallbackArticle_truthy (ws : list Word) :
  ws <> [] -> truthy (generateFallbackArticle ws) = true.
Proof.
  destruct ws as [|w [|w' ws]]; [congruence| |]; intros _.
  - change (generateFallbackArticle [w]) with (fallbackSentence w).
    rewrite <- (append_empty (fallbackSentence w)). apply fallbackSentence_truthy.
  - rewrite generateFallbackArticle_cons. apply fallbackSentence_truthy.
Qed.

Lemma truthy_length (s : string) :
  truthy s = true -> Nat.eqb (String.length s) 0 = false.
Proof. destruct s; [discriminate | reflexivity]. Qed.

Lemma requestArticle_outcome (env : CallEnv) (ws : list Word) (s : Server) :
  tryCatch (requestArticle env ws)
           (fun _ => ret (generateFallbackArticle ws)) s
  = (s, Returned (settled_article env ws)).
Proof.
  unfold tryCatch, requestArticle, settled_article, throw, ret.
  destruct (llm env) as [|[c|]]; try reflexivity.
  destruct (truthy (trim c)) eqn:E; simpl; [now rewrite E | reflexivity].
Qed.

Lemma generateArticleWithLLM_ready cfg env ws s :
  client_ready cfg s = true ->
  generateArticleWithLLM cfg env ws s
  = (with_client cfg s, Returned (settled_article env ws)).
Proof.
  unfold client_ready, with_client, generateArticleWithLLM, getOpenAIClient, getApiKey.
  unfold bind at 1. unfold bind at 1. unfold gets at 1.
  destruct (openaiClient s) as [k|] eqn:Ek; intros Hr.
  - unfold ret at 1. apply requestArticle_outcome.
  - unfold bind, modify, ret, throw.
    rewrite Hr, (truthy_length _ Hr). simpl.
    apply requestArticle_outcome.
Qed.

Lemma generateArticleWithLLM_no_key cfg env ws s :
  client_ready cfg s = false ->
  generateArticleWithLLM cfg env ws s = (s, Threw ApiKeyNotSet).
Proof.
  unfold client_ready, generateArticleWithLLM, getOpenAIClient, getApiKey.
  unfold bind at 1. unfold bind at 1. unfold gets at 1.
  destruct (openaiClient s) as [k|] eqn:Ek; intros Hr; [discriminate|].
  unfold bind, throw. now rewrite Hr.
Qed.

Lemma settled_article_truthy env ws :
  ws <> [] -> truthy (settled_article env ws) = true.
Proof.
  intros Hws. unfold settled_article.
  destruct (llm env) as [|[c|]]; try now apply generateFallbackArticle_truthy.
  destruct (truthy (trim c)) eqn:E; [exact E | now apply generateFallbackArticle_truthy].
Qed.

Lemma settled_article_failed env ws :
  provider_failed env = true -> settled_article env ws = generateFallbackArticle ws.
Proof.
  unfold provider_failed, settled_article.
  destruct (llm env) as [|[c|]]; try reflexivity.
  now intros ->%negb_true_iff.
Qed.

End ArticleFacts.

(** ** The cache coordinator, path by path *)

Module CacheFacts.

Import Js Llm KeySpec ArticleSpec CacheSpec ArticleFacts.

Lemma length_nonempty {A} (l : list A) : l <> [] -> Nat.eqb (length l) 0 = false.
Proof. destruct l; [congruence | reflexivity]. Qed.

Lemma set_memoryCache_same (s : Server) : set_memoryCache (memoryCache s) s = s.
Proof. now destruct s. Qed.

Lemma get_some_unchanged key now c v :
  snd (NodeCache.get key now c) = Some v -> fst (NodeCache.get key now c) = c.
Proof.
  unfold NodeCache.get. destruct (NodeCache.data c !! key) as [e|]; [|discriminate].
  destruct (NodeCache.expired now e); [discriminate | reflexivity].
Qed.

Lemma gqa_empty cfg env s :
  generateQuizArticle cfg env [] s = (s, Threw NoWordsProvided).
Proof. reflexivity. Qed.

Lemma gqa_memory_hit cfg env ws s v :
  ws <> [] -> memory_hit env ws s = Some v ->
  generateQuizArticle cfg env ws s = (s, Returned v).
Proof.
  intros Hws. unfold memory_hit, generateQuizArticle, bind, memoryCache_get, ret.
  rewrite (length_nonempty _ Hws).
  pose proof (get_some_unchanged (cacheKey ws) (now env) (memoryCache s)) as Hsame.
  destruct (NodeCache.get (cacheKey ws) (now env) (memoryCache s)) as [c [v'|]];
    simpl in *; [|discriminate].
  destruct (truthy v') eqn:Ev; [|discriminate].
  intros [= <-]. rewrite (Hsame v' eq_refl). now rewrite set_memoryCache_same.
Qed.

Lemma memory_hit_none_falsy env ws s :
  memory_hit env ws s = None ->
  truthy (default "" (snd (NodeCache.get (cacheKey ws) (now env) (memoryCache s)))) = false.
Proof.
  unfold memory_hit.
  destruct (snd (NodeCache.get (cacheKey ws) (now env) (memoryCache s))) as [v|];
    [|reflexivity].
  simpl. now destruct (truthy v).
Qed.

Lemma gqa_durable_hit cfg env ws s row :
  ws <> [] -> memory_hit env ws s = None -> durable_row (cacheKey ws) s = Some row ->
  generateQuizArticle cfg env ws s =
  let s1 := set_db (set_cached_articles
               (update_where (fun r => String.eqb (ca_word_ids r) (cacheKey ws))
                             (touch (now env)))) (probed env ws s) in
  match NodeCache.set (cacheKey ws) (ca_article_text row) (now env) (memoryCache s1) with
  | Returned c => (set_memoryCache c s1, Returned (ca_article_text row))
  | Threw e => (s1, Threw e)
  end.
Proof.
  intros Hws Hm Hd. apply memory_hit_none_falsy in Hm.
  unfold durable_row, probed in *.
  unfold generateQuizArticle, bind, memoryCache_get, memoryCache_set, gets, modify, ret.
  rewrite (length_nonempty _ Hws).
  destruct (NodeCache.get (cacheKey ws) (now env) (memoryCache s)) as [c r].
  simpl in Hm. rewrite Hm. simpl. rewrite Hd. simpl.
  now destruct (NodeCache.set _ _ _ c).
Qed.

Lemma gqa_miss cfg env ws s :
  ws <> [] -> is_miss env ws s ->
  generateQuizArticle cfg env ws s =
  match generateArticleWithLLM cfg env ws (probed env ws s) with
  | (s1, Threw e) => (s1, Threw e)
  | (s1, Returned article) =>
      match NodeCache.set (cacheKey ws) article (now env) (memoryCache s1) with
      | Threw e => (s1, Threw e)
      | Returned c =>
          let s2 := set_memoryCache c s1 in
          if pk_taken ca_id (article_id env) (cached_articles (db s2))
          then (s2, Threw SqliteConstraint)
          else (set_db (set_cached_articles (fun rows =>
                  cleanupOldCache_rows cfg (now env)
                    (rows ++ [new_row env ws article])%list)) s2,
                Returned article)
      end
  end.
Proof.
  intros Hws [Hm Hd]. apply memory_hit_none_falsy in Hm.
  unfold durable_row, probed in *.
  unfold generateQuizArticle, bind at 1, memoryCache_get.
  rewrite (length_nonempty _ Hws).
  destruct (NodeCache.get (cacheKey ws) (now env) (memoryCache s)) as [c r].
  simpl in Hm. rewrite Hm. unfold bind at 1, gets. simpl. rewrite Hd.
  unfold bind at 1.
  destruct (generateArticleWithLLM cfg env ws (set_memoryCache c s)) as [s1 [a|e]];
    [|reflexivity].
  unfold bind at 1, memoryCache_set.
  destruct (NodeCache.set (cacheKey ws) a (now env) (memoryCache s1)) as [c2|e];
    [|reflexivity].
  unfold bind at 1, insert_cached_article. simpl.
  destruct (pk_taken ca_id (article_id env) (cached_articles (db s1))); [reflexivity|].
  unfold bind, cleanupOldCache, modify, ret. simpl.
  destruct s1 as [[] ? ?]; reflexivity.
Qed.

Lemma full_after_get key now c :
  NodeCache.full c = false ->
  NodeCache.full (fst (NodeCache.get key now c)) = false.
Proof.
  unfold NodeCache.get.
  destruct (NodeCache.data c !! key) as [e|]; [|trivial].
  destruct (NodeCache.expired now e); [|trivial].
  unfold NodeCache.full, NodeCache.del. simpl.
  pose proof (map_subseteq_size _ _ (delete_subseteq (NodeCache.data c) key)) as Hle.
  destruct (NodeCache.maxKeys (NodeCache.options c) >? -1); [|trivial].
  simpl. rewrite !Z.geb_leb, !Z.leb_gt. lia.
Qed.

Lemma set_not_full key value now c :
  NodeCache.full c = false ->
  NodeCache.set key value now c =
  Returned (NodeCache.mkCache (NodeCache.options c)
              (<[key := NodeCache.wrap (NodeCache.options c) now value]> (NodeCache.data c))).
Proof. unfold NodeCache.set. now intros ->. Qed.

Lemma client_ready_probed cfg env ws s :
  client_ready cfg (probed env ws s) = client_ready cfg s.
Proof. reflexivity. Qed.

(** A valid, non-empty word list and a provider that would answer, yet
    the call throws: no API key is configured. *)
Lemma missing_api_key_is_surfaced :
  generateQuizArticle (default_config None)
    (mkCallEnv 1000 "article-1" (Completion (Some "An ______ a day.")))
    [apple]
    (start (default_config None) (mkDB [] [] [] [] [] []))
  = (start (default_config None) (mkDB [] [] [] [] [] []), Threw ApiKeyNotSet).
Proof. vm_compute. reflexivity. Qed.

Lemma select_words_length_unknown (wordIds : list string) (d : DB) (i : string) :
  List.NoDup (map w_id (words d)) ->
  In i wordIds -> pk_taken w_id i (words d) = false ->
  (length (QuizRoute.select_words wordIds d) < length wordIds)%nat.
Proof.
  intros Hnd Hin Hunknown. unfold QuizRoute.select_words.
  rewrite length_map, (Permutation_length (order_by_perm QuizRoute.by_id _)).
  set (listed := fun r : WordRow => existsb (String.eqb (w_id r)) wordIds).
  apply Nat.le_lt_trans with (length (List.remove string_dec i wordIds));
    [|now apply List.remove_length_lt].
  rewrite <- (length_map w_id).
  apply List.NoDup_incl_length.
  - assert (H : forall rows, List.NoDup (map w_id rows) ->
                             List.NoDup (map w_id (List.filter listed rows))).
    { induction rows as [|r rows IH]; simpl; intros H; [constructor|].
      apply List.NoDup_cons_iff in H as [Hnotin H].
      destruct (listed r); simpl; [|now apply IH].
      constructor; [|now apply IH].
      intros Hr. apply Hnotin. apply in_map_iff in Hr as (r' & E & Hr').
      apply List.filter_In in Hr' as [Hr' _]. rewrite <- E. now apply in_map. }
    now apply H.
  - intros k Hk. apply in_map_iff in Hk as (r & <- & Hr).
    apply List.filter_In in Hr as [Hr Hlisted].
    apply List.in_in_remove.
    + intros E. subst i. unfold pk_taken in Hunknown.
      rewrite <- not_true_iff_false in Hunknown. apply Hunknown.
      apply existsb_exists. exists r. split; [exact Hr | apply String.eqb_refl].
    + unfold listed in Hlisted. apply existsb_exists in Hlisted as (k & Hk & E).
      apply String.eqb_eq in E. now rewrite E.
Qed.

(** C1 (as amended).  An empty word list throws, and the route answers
    400 when a listed id is not in the [words] table.  For a non-empty
    list, once a client exists or the API key is configured, and the cache
    writes are accepted (memory cache below [maxKeys], article id not yet
    used), [generateQuizArticle] returns a text whatever the provider
    does; on a miss that text is non-empty, and it is the fallback article
    whenever the provider rejected or sent nothing. *)
Theorem generateQuizArticle_absorbs_provider_failures cfg env ws s :
  generateQuizArticle cfg env [] s = (s, Threw NoWordsProvided) /\
  (forall wordIds userId i,
     List.NoDup (map w_id (words (db s))) ->
     truthy userId = true ->
     In i wordIds -> pk_taken w_id i (words (db s)) = false ->
     QuizRoute.post_generate cfg env (Some wordIds) userId s
     = (s, QuizRoute.status_json 400 "Some word IDs are invalid")) /\
  (ws <> [] ->
   client_ready cfg s = true ->
   NodeCache.full (memoryCache s) = false ->
   pk_taken ca_id (article_id env) (cached_articles (db s)) = false ->
   exists s' text,
     generateQuizArticle cfg env ws s = (s', Returned text) /\
     (is_miss env ws s ->
      truthy text = true /\
      (provider_failed env = true -> text = generateFallbackArticle ws))).
Proof.
  split; [reflexivity|]. split.
  { intros wordIds userId i Hnd Hu Hin Hunknown.
    pose proof (select_words_length_unknown wordIds (db s) i Hnd Hin Hunknown) as Hlen.
    unfold QuizRoute.post_generate. rewrite Hu. simpl.
    destruct wordIds as [|i0 wordIds]; [destruct Hin|].
    change (Nat.eqb (length (i0 :: wordIds)) 0) with false. cbv iota.
    destruct (Nat.eqb_spec (length (QuizRoute.select_words (i0 :: wordIds) (db s)))
                           (length (i0 :: wordIds))) as [E|_]; [|reflexivity].
    rewrite E in Hlen. lia. }
  intros Hws Hready Hfull Hpk.
  destruct (memory_hit env ws s) as [v|] eqn:Hm.
  { exists s, v. split; [now apply gqa_memory_hit|].
    intros [Hm' _]. congruence. }
  destruct (durable_row (cacheKey ws) s) as [row|] eqn:Hd.
  { rewrite (gqa_durable_hit cfg env ws s row Hws Hm Hd). simpl.
    rewrite set_not_full by (now apply full_after_get).
    eexists _, _. split; [reflexivity|].
    intros [_ Hd']. congruence. }
  rewrite (gqa_miss cfg env ws s Hws (conj Hm Hd)).
  rewrite generateArticleWithLLM_ready by (now rewrite client_ready_probed).
  assert (Hmem : memoryCache (with_client cfg (probed env ws s))
                 = fst (NodeCache.get (cacheKey ws) (now env) (memoryCache s))).
  { unfold with_client, probed. now destruct (openaiClient _). }
  rewrite set_not_full by (rewrite Hmem; now apply full_after_get).
  assert (Hdb : db (with_client cfg (probed env ws s)) = db s).
  { unfold with_client, probed. now destruct (openaiClient _). }
  simpl. rewrite Hdb, Hpk.
  eexists _, _. split; [reflexivity|].
  intros _. split.
  - now apply settled_article_truthy.
  - apply settled_article_failed.
Qed.

Lemma generateQuizArticle_absorbs_provider_failures_witness :
  (exists s' text,
     generateQuizArticle (default_config (Some "sk-test"))
       (mkCallEnv 1000 "article-1" Rejected) [apple]
       (start (default_config (Some "sk-test")) (mkDB [] [] [] [] [] []))
     = (s', Returned text) /\ text = generateFallbackArticle [apple]) /\
  QuizRoute.post_generate (default_config (Some "sk-test"))
    (mkCallEnv 1000 "article-1" Rejected) (Some ["word-9"; "word-0"]) "user-1"
    (start (default_config (Some "sk-test")) (mkDB [] [] [] [] [] []))
  = (start (default_config (Some "sk-test")) (mkDB [] [] [] [] [] []),
     QuizRoute.status_json 400 "Some word IDs are invalid").
Proof.
  destruct (generateQuizArticle_absorbs_provider_failures
              (default_config (Some "sk-test"))
              (mkCallEnv 1000 "article-1" Rejected) [apple]
              (start (default_config (Some "sk-test")) (mkDB [] [] [] [] [] [])))
    as (_ & Hroute & H).
  split.
  - destruct H as (s' & text & Hrun & Hmiss);
      [discriminate | reflexivity | reflexivity | reflexivity |].
    exists s', text. split; [exact Hrun|].
    apply Hmiss; [split; reflexivity | reflexivity].
  - apply (Hroute ["word-9"; "word-0"] "user-1" "word-0");
      [constructor | reflexivity | right; now left | reflexivity].
Defined.

(** *** What a miss leaves behind *)

Lemma delete_where_In {Row} (p : Row -> bool) (rows : list Row) (r : Row) :
  In r (delete_where p rows) <-> In r rows /\ p r = false.
Proof.
  unfold delete_where. rewrite List.filter_In. now rewrite negb_true_iff.
Qed.

Lemma cleanupOldCache_rows_In cfg now rows r :
  In r (cleanupOldCache_rows cfg now rows) -> In r rows.
Proof.
  unfold cleanupOldCache_rows.
  destruct (_ >? _); rewrite ?delete_where_In; tauto.
Qed.

Lemma select_first_none_In {Row} (p : Row -> bool) (rows : list Row) (r : Row) :
  select_first p rows = None -> In r rows -> p r = false.
Proof. intros H Hin. exact (List.find_none p rows H r Hin). Qed.

Lemma gqa_miss_returned cfg env ws s s1 text :
  is_miss env ws s ->
  generateQuizArticle cfg env ws s = (s1, Returned text) ->
  ws <> [] /\ text = settled_article env ws /\ s1 = after_miss cfg env ws s /\
  NodeCache.full (fst (NodeCache.get (cacheKey ws) (now env) (memoryCache s))) = false.
Proof.
  intros Hmiss Hrun.
  assert (Hws : ws <> []) by (intros ->; discriminate Hrun).
  rewrite (gqa_miss cfg env ws s Hws Hmiss) in Hrun.
  destruct (client_ready cfg s) eqn:Hready.
  2:{ rewrite generateArticleWithLLM_no_key in Hrun
        by (now rewrite client_ready_probed).
      discriminate Hrun. }
  rewrite generateArticleWithLLM_ready in Hrun by (now rewrite client_ready_probed).
  assert (Hmem : memoryCache (with_client cfg (probed env ws s))
                 = fst (NodeCache.get (cacheKey ws) (now env) (memoryCache s))).
  { unfold with_client, probed. now destruct (openaiClient _). }
  assert (Hdb : db (with_client cfg (probed env ws s)) = db s).
  { unfold with_client, probed. now destruct (openaiClient _). }
  assert (Hcl : openaiClient (with_client cfg (probed env ws s))
                = openaiClient (with_client cfg s)).
  { unfold with_client, probed. simpl. now destruct (openaiClient s). }
  unfold NodeCache.set in Hrun. rewrite Hmem in Hrun.
  destruct (NodeCache.full _) eqn:Hfull; [discriminate Hrun|].
  simpl in Hrun. rewrite Hdb in Hrun.
  destruct (pk_taken _ _ _); [discriminate Hrun|].
  injection Hrun as <- <-.
  repeat split; trivial.
  unfold after_miss, memory_after_miss, set_db, set_memoryCache. simpl.
  now rewrite Hdb, Hcl.
Qed.

(** The first call of the scenario returns a text with no blank marker
    for one word, and both caches hold it. *)
Lemma cached_article_without_blanks :
  let cfg := default_config (Some "sk-test") in
  let env := mkCallEnv 1000 "article-1" (Completion (Some "No blanks here.")) in
  let out := generateQuizArticle cfg env [apple] (start cfg (mkDB [] [] [] [] [] [])) in
  snd out = Returned "No blanks here." /\
  NodeCache.v <$> (NodeCache.data (memoryCache (fst out)) !! "word-9")
    = Some "No blanks here." /\
  map ca_article_text (cached_articles (db (fst out))) = ["No blanks here."] /\
  count_blanks "No blanks here." <> length [apple].
Proof. vm_compute. repeat split; congruence. Qed.

(** C9 (as amended).  The text that a miss generates and stores under the
    key of a list of K words is held by the memory cache and by every
    durable row of that key; it has exactly K blank markers whenever the
    provider rejected or sent nothing (the fallback text), and it is the
    trimmed provider text, whatever its markers, otherwise. *)
Theorem stored_article_blanks cfg env ws s s1 text :
  is_miss env ws s ->
  generateQuizArticle cfg env ws s = (s1, Returned text) ->
  NodeCache.v <$> (NodeCache.data (memoryCache s1) !! cacheKey ws) = Some text /\
  (forall row, In row (cached_articles (db s1)) ->
               ca_word_ids row = cacheKey ws -> ca_article_text row = text) /\
  (provider_failed env = true -> count_blanks text = length ws) /\
  (forall c, llm env = Completion (Some c) -> truthy (trim c) = true -> text = trim c).
Proof.
  intros Hmiss Hrun.
  destruct (gqa_miss_returned cfg env ws s s1 text Hmiss Hrun) as (Hws & -> & -> & _).
  repeat split.
  - unfold after_miss, memory_after_miss. simpl. now rewrite lookup_insert_eq.
  - intros row Hin Hkey. simpl in Hin.
    apply cleanupOldCache_rows_In, in_app_or in Hin as [Hin|[<-|[]]]; [|reflexivity].
    destruct Hmiss as [_ Hd].
    pose proof (select_first_none_In _ _ row Hd Hin) as Hp. simpl in Hp.
    rewrite Hkey, String.eqb_refl in Hp. discriminate Hp.
  - intros Hf. rewrite (settled_article_failed _ _ Hf).
    apply generateFallbackArticle_blanks.
  - intros c Hc Ht. unfold settled_article. now rewrite Hc, Ht.
Qed.

Lemma stored_article_blanks_witness :
  count_blanks
    (generateFallbackArticle [KeySpec.wA; KeySpec.wB; KeySpec.wC]) = 3%nat.
Proof.
  pose (cfg := default_config (Some "sk-test")).
  pose (env := mkCallEnv 1000 "article-1" Rejected).
  pose (ws := [KeySpec.wA; KeySpec.wB; KeySpec.wC]).
  pose (s := start cfg (mkDB [] [] [] [] [] [])).
  destruct (stored_article_blanks cfg env ws s
              (fst (generateQuizArticle cfg env ws s))
              (generateFallbackArticle ws))
    as (_ & _ & Hblanks & _).
  - split; reflexivity.
  - vm_compute. reflexivity.
  - apply Hblanks. reflexivity.
Defined.

(** *** The reordered second request *)

Lemma select_first_update_where {Row} (p : Row -> bool) (f : Row -> Row)
    (rows : list Row) (r : Row) :
  (forall x, p (f x) = p x) ->
  select_first p rows = Some r ->
  select_first p (update_where p f rows) = Some (f r).
Proof.
  intros Hpf. unfold select_first, update_where.
  induction rows as [|x rows IH]; simpl; [discriminate|].
  destruct (p x) eqn:Hx.
  - intros [= <-]. now rewrite Hpf, Hx.
  - rewrite Hx. exact IH.
Qed.

Lemma cacheKey_reordered ws ws' :
  Permutation (map id ws) (map id ws') -> cacheKey ws' = cacheKey ws.
Proof.
  intros HP. unfold cacheKey. now rewrite (sort_permutation_eq _ _ HP).
Qed.

Lemma reordered_nonempty (ws ws' : list Word) :
  Permutation (map id ws) (map id ws') -> ws <> [] -> ws' <> [].
Proof.
  intros HP Hws ->. apply Permutation_length in HP.
  destruct ws; [congruence | discriminate HP].
Qed.

Lemma options_after_get key now c :
  NodeCache.options (fst (NodeCache.get key now c)) = NodeCache.options c.
Proof.
  unfold NodeCache.get. destruct (NodeCache.data c !! key) as [e|]; [|reflexivity].
  now destruct (NodeCache.expired now e).
Qed.

(** In one process the reordered second request is answered from the
    memory cache: the text is the same, the durable row was created with
    [access_count] 0 and still has 0 afterwards. *)
Lemma second_call_leaves_access_count :
  snd abc_first = Returned "Pure ______ made the ______ moment feel ______." /\
  map ca_access_count (cached_articles (db (fst abc_first))) = [0] /\
  snd abc_second = Returned "Pure ______ made the ______ moment feel ______." /\
  map ca_access_count (cached_articles (db (fst abc_second))) = [0] /\
  map ca_access_count (cached_articles (db (fst abc_second))) <> [1].
Proof. vm_compute. repeat split; congruence. Qed.

(** C3 (as amended).  Let a first request miss, generate [text] and
    return.  A durable row found under its key then has [access_count] 0
    and that text.  A second request over the same identifiers in any
    order returns the same text: while the memory entry lives it is
    served from memory and changes nothing, so the count stays 0; in a
    restarted process it is served from the durable row, whose count
    goes from 0 to 1. *)
Theorem reordered_request_hits_cache cfg env1 env2 ws ws' s s1 text :
  Permutation (map id ws) (map id ws') ->
  configured cfg s ->
  is_miss env1 ws s ->
  generateQuizArticle cfg env1 ws s = (s1, Returned text) ->
  (forall row, durable_row (cacheKey ws) s1 = Some row ->
               ca_access_count row = 0 /\ ca_article_text row = text) /\
  (still_live s (now env1) (now env2) ->
   generateQuizArticle cfg env2 ws' s1 = (s1, Returned text)) /\
  (forall row, durable_row (cacheKey ws) s1 = Some row ->
     exists s2,
       generateQuizArticle cfg env2 ws' (start cfg (db s1)) = (s2, Returned text) /\
       durable_row (cacheKey ws) s2 = Some (touch (now env2) row) /\
       ca_access_count (touch (now env2) row) = 1).
Proof.
  intros HP Hcfg Hmiss Hrun.
  destruct (gqa_miss_returned cfg env1 ws s s1 text Hmiss Hrun)
    as (Hws & Htext & Hs1 & Hfull).
  pose proof (reordered_nonempty ws ws' HP Hws) as Hws'.
  pose proof (cacheKey_reordered ws ws' HP) as Hkey.
  assert (Hrow : forall row, durable_row (cacheKey ws) s1 = Some row ->
                             row = new_row env1 ws text).
  { intros row Hrow. unfold durable_row, select_first in Hrow.
    apply List.find_some in Hrow as [Hin Hp].
    rewrite Hs1 in Hin. simpl in Hin.
    apply cleanupOldCache_rows_In, in_app_or in Hin as [Hin|[<-|[]]].
    - destruct Hmiss as [_ Hd].
      pose proof (select_first_none_In _ _ row Hd Hin) as Hp'. simpl in Hp'.
      congruence.
    - now rewrite Htext. }
  split; [|split].
  - intros row Hr. now rewrite (Hrow row Hr).
  - intros Hlive. apply gqa_memory_hit; [exact Hws'|].
    unfold memory_hit. rewrite Hkey, Hs1. unfold NodeCache.get. simpl.
    rewrite lookup_insert_eq.
    unfold still_live in Hlive. rewrite options_after_get.
    unfold NodeCache.expired, NodeCache.wrap in *. simpl in *. rewrite Hlive.
    simpl. now rewrite Htext, (settled_article_truthy env1 ws Hws).
  - intros row Hr.
    assert (Hm0 : memory_hit env2 ws' (start cfg (db s1)) = None).
    { unfold memory_hit, start, NodeCache.get. simpl. now rewrite lookup_empty. }
    assert (Hd0 : durable_row (cacheKey ws') (start cfg (db s1)) = Some row).
    { rewrite Hkey. exact Hr. }
    rewrite (gqa_durable_hit cfg env2 ws' _ row Hws' Hm0 Hd0). simpl.
    assert (Hnf : NodeCache.full
              (fst (NodeCache.get (cacheKey ws') (now env2) (new_memoryCache cfg)))
            = false).
    { apply full_after_get. unfold NodeCache.full in *. simpl.
      rewrite options_after_get, Hcfg in Hfull. simpl in Hfull.
      destruct (MAX_CACHED_ARTICLES cfg >? -1) eqn:E1; [|reflexivity].
      simpl in *. rewrite map_size_empty.
      rewrite Z.geb_leb, Z.leb_gt in *. lia. }
    rewrite set_not_full by exact Hnf.
    eexists. split; [|split].
    + assert (Htx : ca_article_text row = text) by (now rewrite (Hrow row Hr)).
      rewrite Htx. reflexivity.
    + unfold durable_row. simpl. rewrite Hkey.
      apply select_first_update_where; [reflexivity | exact Hr].
    + rewrite (Hrow row Hr). simpl. reflexivity.
Qed.

Lemma reordered_request_hits_cache_witness :
  generateQuizArticle abc_cfg abc_env2 [KeySpec.wC; KeySpec.wB; KeySpec.wA]
                      (fst abc_first)
  = (fst abc_first, Returned "Pure ______ made the ______ moment feel ______.").
Proof.
  destruct (reordered_request_hits_cache abc_cfg abc_env1 abc_env2
              [KeySpec.wA; KeySpec.wB; KeySpec.wC]
              [KeySpec.wC; KeySpec.wB; KeySpec.wA]
              (start abc_cfg (mkDB [] [] [] [] [] []))
              (fst abc_first)
              "Pure ______ made the ______ moment feel ______.")
    as (_ & Hmem & _).
  - exact (Permutation_rev ["word-1"; "word-2"; "word-3"]).
  - reflexivity.
  - split; reflexivity.
  - vm_compute. reflexivity.
  - apply Hmem. vm_compute. reflexivity.
Defined.

End CacheFacts.

(** ** The eviction sweep *)

Module EvictionFacts.

Import Llm EvictionSpec.

Lemma insert_by_last_accessed_perm r l :
  Permutation (r :: l) (insert_by_last_accessed r l).
Proof.
  induction l as [|x l IH]; simpl; [reflexivity|].
  destruct (ca_last_accessed x <=? ca_last_accessed r); [|reflexivity].
  rewrite perm_swap. now constructor.
Qed.

Lemma fold_insert_perm rows acc :
  Permutation
    (fold_left (fun acc r => insert_by_last_accessed r acc) rows acc)
    (acc ++ rows).
Proof.
  revert acc. induction rows as [|r rows IH]; intros acc; simpl.
  - now rewrite app_nil_r.
  - rewrite IH, <- insert_by_last_accessed_perm. simpl.
    apply Permutation_middle.
Qed.

Lemma order_by_last_accessed_perm rows :
  Permutation (order_by_last_accessed rows) rows.
Proof. unfold order_by_last_accessed. now rewrite fold_insert_perm. Qed.

Lemma insert_by_last_accessed_sorted r l :
  StronglySorted older_eq l -> StronglySorted older_eq (insert_by_last_accessed r l).
Proof.
  induction 1 as [|x l Hs IH Hx]; simpl.
  - repeat constructor.
  - destruct (ca_last_accessed x <=? ca_last_accessed r) eqn:E.
    + constructor; [exact IH|].
      apply Z.leb_le in E.
      rewrite List.Forall_forall in *. intros y Hy.
      apply (Permutation_in _ (Permutation_sym (insert_by_last_accessed_perm r l)))
        in Hy as [<-|Hy]; [exact E | now apply Hx].
    + apply Z.leb_gt in E.
      constructor; [now constructor|].
      constructor; [unfold older_eq; lia|].
      rewrite List.Forall_forall in *. intros y Hy.
      specialize (Hx y Hy). unfold older_eq in *. lia.
Qed.

Lemma order_by_last_accessed_sorted rows :
  StronglySorted older_eq (order_by_last_accessed rows).
Proof.
  unfold order_by_last_accessed.
  assert (H : forall acc, StronglySorted older_eq acc ->
            StronglySorted older_eq
              (fold_left (fun acc r => insert_by_last_accessed r acc) rows acc)).
  { induction rows as [|r rows IH]; intros acc Hacc; simpl; [exact Hacc|].
    apply IH. now apply insert_by_last_accessed_sorted. }
  apply H. constructor.
Qed.

Lemma sorted_take_drop (l : list CachedArticleRow) (k : nat) x y :
  StronglySorted older_eq l -> In x (firstn k l) -> In y (skipn k l) -> older_eq x y.
Proof.
  intros Hs. revert k. induction Hs as [|a l Hs IH Ha]; intros k Hx Hy.
  - destruct k; destruct Hx.
  - destruct k as [|k]; [destruct Hx|].
    simpl in Hx, Hy. destruct Hx as [<-|Hx].
    + rewrite List.Forall_forall in Ha. apply Ha.
      rewrite <- (firstn_skipn k l). apply in_or_app. now right.
    + now apply (IH k).
Qed.

Lemma filter_permutation {A} (p : A -> bool) (l l' : list A) :
  Permutation l l' -> Permutation (List.filter p l) (List.filter p l').
Proof.
  induction 1 as [|x l l' _ IH|x y l|l l' l'' _ IH1 _ IH2]; simpl.
  - constructor.
  - destruct (p x); [now constructor | exact IH].
  - destruct (p x), (p y); try reflexivity. apply perm_swap.
  - now rewrite IH1.
Qed.

Lemma filter_all {A} (p : A -> bool) (l : list A) :
  (forall x, In x l -> p x = true) -> List.filter p l = l.
Proof.
  induction l as [|x l IH]; intros H; simpl; [reflexivity|].
  rewrite (H x) by now left. f_equal. apply IH. intros y Hy. apply H. now right.
Qed.

Lemma filter_none {A} (p : A -> bool) (l : list A) :
  (forall x, In x l -> p x = false) -> List.filter p l = [].
Proof.
  induction l as [|x l IH]; intros H; simpl; [reflexivity|].
  rewrite (H x) by now left. apply IH. intros y Hy. apply H. now right.
Qed.

Lemma NoDup_map_In_eq {A B} (f : A -> B) (l : list A) x y :
  List.NoDup (map f l) -> In x l -> In y l -> f x = f y -> x = y.
Proof.
  induction l as [|a l IH]; simpl; intros Hnd Hx Hy E; [destruct Hx|].
  inversion Hnd as [|? ? Hnotin Hnd']; subst.
  destruct Hx as [<-|Hx], Hy as [<-|Hy]; trivial.
  - exfalso. apply Hnotin. rewrite E. now apply in_map.
  - exfalso. apply Hnotin. rewrite <- E. now apply in_map.
  - now apply IH.
Qed.

Lemma id_listed (r : CachedArticleRow) (l : list CachedArticleRow) :
  existsb (String.eqb (ca_id r)) (map ca_id l) = true <->
  exists r', In r' l /\ ca_id r' = ca_id r.
Proof.
  rewrite existsb_exists. split.
  - intros (i & Hi & E). apply in_map_iff in Hi as (r' & <- & Hr').
    apply String.eqb_eq in E. eauto.
  - intros (r' & Hr' & E). exists (ca_id r'). split; [now apply in_map|].
    apply String.eqb_eq. congruence.
Qed.

Lemma NoDup_app_disjoint {A} (l1 l2 : list A) x :
  List.NoDup (l1 ++ l2) -> In x l1 -> In x l2 -> False.
Proof.
  induction l1 as [|a l1 IH]; simpl; intros Hnd H1 H2; [destruct H1|].
  apply List.NoDup_cons_iff in Hnd as [Hnotin Hnd].
  destruct H1 as [->|H1]; [|now apply IH].
  apply Hnotin, in_or_app. now right.
Qed.

(** The capacity trim, seen from the sorted table: what stays is what
    follows the first [k] rows in [last_accessed] order. *)
Lemma trim_keeps_drop (rows1 : list CachedArticleRow) (k : nat) :
  List.NoDup (map ca_id rows1) ->
  Permutation
    (delete_where
       (fun r => existsb (String.eqb (ca_id r))
                   (map ca_id (firstn k (order_by_last_accessed rows1)))) rows1)
    (skipn k (order_by_last_accessed rows1)).
Proof.
  intros Hnd. unfold delete_where.
  set (sorted := order_by_last_accessed rows1).
  pose proof (order_by_last_accessed_perm rows1) as HP. fold sorted in HP.
  set (kept := fun r : CachedArticleRow =>
                 negb (existsb (String.eqb (ca_id r)) (map ca_id (firstn k sorted)))).
  transitivity (List.filter kept sorted);
    [apply filter_permutation; now symmetry|].
  transitivity (List.filter kept (firstn k sorted ++ skipn k sorted));
    [now rewrite firstn_skipn|].
  rewrite List.filter_app.
  rewrite filter_none, filter_all; [reflexivity| |]; unfold kept.
  - intros y Hy. apply negb_true_iff, not_true_is_false. intros Hex.
    apply id_listed in Hex as (x & Hx & E).
    assert (x = y) as ->.
    { apply (NoDup_map_In_eq ca_id rows1); trivial.
      - apply (Permutation_in _ HP).
        rewrite <- (firstn_skipn k sorted). apply in_or_app. now left.
      - apply (Permutation_in _ HP).
        rewrite <- (firstn_skipn k sorted). apply in_or_app. now right. }
    apply (NoDup_app_disjoint (firstn k sorted) (skipn k sorted) y); trivial.
    rewrite firstn_skipn.
    apply (Permutation_NoDup (Permutation_sym HP)).
    now apply NoDup_map_inv in Hnd.
  - intros x Hx. apply negb_false_iff, id_listed. eauto.
Qed.

Lemma NoDup_map_delete_where {A B} (f : A -> B) (p : A -> bool) (l : list A) :
  List.NoDup (map f l) -> List.NoDup (map f (delete_where p l)).
Proof.
  unfold delete_where. induction l as [|a l IH]; simpl; intros Hnd; [constructor|].
  apply List.NoDup_cons_iff in Hnd as [Hnotin Hnd].
  destruct (negb (p a)); simpl; [|now apply IH].
  constructor; [|now apply IH].
  intros Hin. apply Hnotin.
  apply in_map_iff in Hin as (x & E & Hx). apply List.filter_In in Hx as [Hx _].
  rewrite <- E. now apply in_map.
Qed.

(** C8.  When the table holds more rows than the configured maximum (a
    count, so not negative; ids are a primary key), the sweep only deletes
    rows, leaves at most the maximum, and every row it deletes was last
    accessed no later than every row it keeps; when no row has aged out
    it leaves exactly the maximum. *)
Theorem cleanupOldCache_keeps_most_recent cfg now (s : Server) :
  let rows := cached_articles (db s) in
  let rows' := cached_articles (db (fst (cleanupOldCache cfg now s))) in
  List.NoDup (map ca_id rows) ->
  0 <= MAX_CACHED_ARTICLES cfg ->
  Z.of_nat (length rows) > MAX_CACHED_ARTICLES cfg ->
  (forall r, In r rows' -> In r rows) /\
  Z.of_nat (length rows') <= MAX_CACHED_ARTICLES cfg /\
  (forall d k, In d rows -> ~ In d rows' -> In k rows' ->
               ca_last_accessed d <= ca_last_accessed k) /\
  ((forall r, In r rows -> cutoffTime cfg now <= ca_last_accessed r) ->
   Z.of_nat (length rows') = MAX_CACHED_ARTICLES cfg).
Proof.
  intros rows rows' Hnd Hmax Hover.
  assert (Hrows' : rows' = cleanupOldCache_rows cfg now rows) by reflexivity.
  clearbody rows rows'. subst rows'.
  unfold cleanupOldCache_rows. fold (cutoffTime cfg now).
  set (rows1 := delete_where (fun r => ca_last_accessed r <? cutoffTime cfg now) rows).
  assert (Hin1 : forall r, In r rows1 <->
                           In r rows /\ cutoffTime cfg now <= ca_last_accessed r).
  { intros r. unfold rows1. rewrite CacheFacts.delete_where_In, Z.ltb_ge. tauto. }
  assert (Haged : forall d k, In d rows -> ~ In d rows1 -> In k rows1 ->
                              ca_last_accessed d <= ca_last_accessed k).
  { intros d k Hd Hnot Hk. apply Hin1 in Hk as [_ Hk].
    destruct (Z_lt_le_dec (ca_last_accessed d) (cutoffTime cfg now)) as [Hlt|Hge];
      [lia|].
    exfalso. apply Hnot, Hin1. tauto. }
  destruct (Z.of_nat (length rows1) >? MAX_CACHED_ARTICLES cfg) eqn:Egt.
  - apply Z.gtb_lt in Egt.
    unfold limit.
    destruct (Z.of_nat (length rows1) - MAX_CACHED_ARTICLES cfg <? 0) eqn:Eneg;
      [apply Z.ltb_lt in Eneg; lia|].
    set (k := Z.to_nat (Z.of_nat (length rows1) - MAX_CACHED_ARTICLES cfg)).
    pose proof (trim_keeps_drop rows1 k
                  (NoDup_map_delete_where ca_id _ rows Hnd)) as HP.
    pose proof (order_by_last_accessed_perm rows1) as HPs.
    assert (Hlen : Z.of_nat (length (skipn k (order_by_last_accessed rows1)))
                   = MAX_CACHED_ARTICLES cfg).
    { rewrite length_skipn, (Permutation_length HPs). unfold k. lia. }
    repeat split.
    + intros r Hr. apply CacheFacts.delete_where_In in Hr as [Hr _].
      now apply Hin1 in Hr.
    + rewrite (Permutation_length HP). lia.
    + intros d x Hd Hnot Hx.
      assert (Hx1 : In x rows1) by (now apply CacheFacts.delete_where_In in Hx).
      destruct (in_dec
                  (fun a b : CachedArticleRow =>
                     ltac:(repeat decide equality) : {a = b} + {a <> b})
                  d rows1) as [Hd1|Hd1]; [|now apply Haged].
      apply (Permutation_in _ HP) in Hx.
      apply (Permutation_in _ (Permutation_sym HPs)) in Hd1.
      rewrite <- (firstn_skipn k (order_by_last_accessed rows1)) in Hd1.
      apply in_app_or in Hd1 as [Hd1|Hd1].
      * exact (sorted_take_drop _ k d x (order_by_last_accessed_sorted rows1) Hd1 Hx).
      * exfalso. apply Hnot. now apply (Permutation_in _ (Permutation_sym HP)).
    + intros _. rewrite (Permutation_length HP). exact Hlen.
  - rewrite Z.gtb_ltb, Z.ltb_ge in Egt.
    repeat split.
    + intros r Hr. now apply Hin1 in Hr.
    + exact Egt.
    + exact Haged.
    + intros Hall. exfalso.
      assert (rows1 = rows) as E.
      { unfold rows1, delete_where. apply filter_all. intros r Hr.
        apply negb_true_iff, Z.ltb_ge. now apply Hall. }
      rewrite E in Egt. lia.
Qed.

Lemma cleanupOldCache_keeps_most_recent_witness :
  Z.of_nat (length (cached_articles
                      (db (fst (cleanupOldCache sweep_cfg 40000 sweep_server))))) <= 2.
Proof.
  apply (cleanupOldCache_keeps_most_recent sweep_cfg 40000 sweep_server).
  - repeat (constructor; [simpl; intuition discriminate|]). constructor.
  - vm_compute. discriminate.
  - reflexivity.
Defined.

End EvictionFacts.

(** ** Memory cache against durable store *)

Module CoherenceFacts.

Import Js Llm KeySpec ArticleSpec CacheSpec CoherenceSpec ArticleFacts CacheFacts.

Lemma coh_empty rows : List.NoDup (map ca_word_ids rows) -> coh rows ∅.
Proof. intros H. split; [exact H|]. intros k e row Hk. now rewrite lookup_empty in Hk. Qed.

Lemma coh_delete rows data k : coh rows data -> coh rows (delete k data).
Proof.
  intros [Hnd H]. split; [exact Hnd|]. intros k' e row Hk.
  apply lookup_delete_Some in Hk as [_ Hk]. eauto.
Qed.

Lemma coh_filter rows data (P : string * NodeCache.Entry -> Prop)
    `{!forall x, Decision (P x)} :
  coh rows data -> coh rows (filter P data).
Proof.
  intros [Hnd Hc]. split; [exact Hnd|]. intros k e row Hk.
  apply map_lookup_filter_Some in Hk as [Hk _]. eauto.
Qed.

Lemma coh_get rows key now c :
  coh rows (NodeCache.data c) -> coh rows (NodeCache.data (fst (NodeCache.get key now c))).
Proof.
  intros H. unfold NodeCache.get.
  destruct (NodeCache.data c !! key) as [e|]; [|exact H].
  destruct (NodeCache.expired now e); [|exact H].
  now apply coh_delete.
Qed.

Lemma map_update_where_keys p now rows :
  map ca_word_ids (update_where p (touch now) rows) = map ca_word_ids rows.
Proof.
  unfold update_where. rewrite map_map. apply map_ext. intros r. now destruct (p r).
Qed.

Lemma coh_touch rows data p now :
  coh rows data -> coh (update_where p (touch now) rows) data.
Proof.
  intros [Hnd H]. split; [now rewrite map_update_where_keys|].
  intros k e row Hk Hin Hkey. unfold update_where in Hin.
  apply in_map_iff in Hin as (r & <- & Hr).
  destruct (p r); simpl in *; eauto.
Qed.

Lemma coh_set_found rows data key row (e : NodeCache.Entry) :
  coh rows data ->
  select_first (fun r => String.eqb (ca_word_ids r) key) rows = Some row ->
  NodeCache.v e = ca_article_text row ->
  coh rows (<[key := e]> data).
Proof.
  intros [Hnd H] Hrow He. split; [exact Hnd|].
  intros k e' row' Hk Hin Hkey.
  apply lookup_insert_Some in Hk as [[<- <-]|[_ Hk]]; [|eauto].
  apply List.find_some in Hrow as [Hin0 Hk0]. apply String.eqb_eq in Hk0.
  rewrite He. f_equal.
  apply (EvictionFacts.NoDup_map_In_eq ca_word_ids rows); congruence.
Qed.

Lemma coh_set_absent rows data key (e : NodeCache.Entry) :
  coh rows data ->
  select_first (fun r => String.eqb (ca_word_ids r) key) rows = None ->
  coh rows (<[key := e]> data).
Proof.
  intros [Hnd H] Hnone. split; [exact Hnd|].
  intros k e' row' Hk Hin Hkey.
  apply lookup_insert_Some in Hk as [[<- <-]|[_ Hk]]; [|eauto].
  pose proof (select_first_none_In _ _ row' Hnone Hin) as Hp. simpl in Hp.
  rewrite Hkey, String.eqb_refl in Hp. discriminate Hp.
Qed.

Lemma coh_insert_row rows data key aid text c1 c2 (e : NodeCache.Entry) :
  coh rows data ->
  select_first (fun r => String.eqb (ca_word_ids r) key) rows = None ->
  NodeCache.v e = text ->
  coh (rows ++ [mkCachedArticleRow aid key text c1 0 c2]) (<[key := e]> data).
Proof.
  intros [Hnd H] Hnone He. split.
  - rewrite map_app. simpl. apply List.NoDup_app; trivial.
    + repeat constructor. intros [].
    + intros k Hk [<-|[]]. apply in_map_iff in Hk as (r & Hkey & Hr).
      pose proof (select_first_none_In _ _ r Hnone Hr) as Hp. simpl in Hp.
      rewrite Hkey, String.eqb_refl in Hp. discriminate Hp.
  - intros k e' row' Hk Hin Hkey.
    apply in_app_or in Hin as [Hin|[<-|[]]].
    + apply lookup_insert_Some in Hk as [[<- <-]|[_ Hk]]; [|eauto].
      pose proof (select_first_none_In _ _ row' Hnone Hin) as Hp. simpl in Hp.
      rewrite Hkey, String.eqb_refl in Hp. discriminate Hp.
    + simpl in *. subst k. rewrite lookup_insert_eq in Hk. congruence.
Qed.

Lemma coh_cleanup cfg now rows data :
  coh rows data -> coh (cleanupOldCache_rows cfg now rows) data.
Proof.
  intros [Hnd H]. split.
  - unfold cleanupOldCache_rows.
    destruct (_ >? _); repeat apply EvictionFacts.NoDup_map_delete_where; exact Hnd.
  - intros k e row Hk Hin. apply cleanupOldCache_rows_In in Hin. eauto.
Qed.

Lemma with_client_memory cfg s : memoryCache (with_client cfg s) = memoryCache s.
Proof. unfold with_client. now destruct (openaiClient s). Qed.

Lemma with_client_db cfg s : db (with_client cfg s) = db s.
Proof. unfold with_client. now destruct (openaiClient s). Qed.

Lemma coherent_request cfg env ws s :
  coherent s -> coherent (fst (generateQuizArticle cfg env ws s)).
Proof.
  intros Hc. destruct ws as [|w ws0]; [exact Hc|].
  set (ws := w :: ws0). assert (Hws : ws <> []) by discriminate.
  destruct (memory_hit env ws s) as [v|] eqn:Hm.
  { now rewrite (gqa_memory_hit cfg env ws s v Hws Hm). }
  assert (Hp : coh (cached_articles (db s))
                   (NodeCache.data
                      (fst (NodeCache.get (cacheKey ws) (now env) (memoryCache s)))))
    by (apply coh_get, Hc).
  destruct (durable_row (cacheKey ws) s) as [row|] eqn:Hd.
  { rewrite (gqa_durable_hit cfg env ws s row Hws Hm Hd).
    cbv zeta. unfold NodeCache.set.
    destruct (NodeCache.full _); unfold coherent; simpl.
    - now apply coh_touch.
    - apply coh_touch. now apply (coh_set_found _ _ _ row). }
  rewrite (gqa_miss cfg env ws s Hws (conj Hm Hd)).
  destruct (client_ready cfg s) eqn:Hr.
  2:{ rewrite generateArticleWithLLM_no_key by exact Hr. exact Hp. }
  rewrite generateArticleWithLLM_ready by exact Hr.
  unfold NodeCache.set. rewrite with_client_memory.
  destruct (NodeCache.full _).
  { unfold coherent. cbn [fst]. now rewrite with_client_db, with_client_memory. }
  cbv zeta.
  change (db (set_memoryCache ?c ?s0)) with (db s0).
  rewrite with_client_db.
  change (db (probed env ws s)) with (db s).
  destruct (pk_taken ca_id (article_id env) (cached_articles (db s))).
  - unfold coherent. cbn [fst]. simpl. rewrite with_client_db.
    now apply coh_set_absent.
  - unfold coherent. cbn [fst]. simpl. rewrite with_client_db.
    apply coh_cleanup. now apply coh_insert_row.
Qed.

Lemma coherent_step cfg s s' : step cfg s s' -> coherent s -> coherent s'.
Proof.
  intros Hstep Hc. destruct Hstep.
  - now apply coherent_request.
  - unfold coherent. simpl. now apply coh_cleanup.
  - unfold coherent, NodeCache.checkData. simpl. now apply coh_filter.
  - unfold coherent. simpl. apply coh_empty, Hc.
Qed.

(** *** Calls that overlap at the await *)

Lemma generateQuizArticle_split cfg env ws s :
  generateQuizArticle cfg env ws s =
  match Overlap.begin cfg (now env) ws s with
  | (s1, Returned (Some text)) => (s1, Returned text)
  | (s1, Returned None) => Overlap.resume cfg env ws s1
  | (s1, Threw e) => (s1, Threw e)
  end.
Proof.
  unfold generateQuizArticle, Overlap.begin, Overlap.resume, generateArticleWithLLM.
  destruct (Nat.eqb (length ws) 0); [reflexivity|]. cbv zeta.
  unfold bind, memoryCache_get, gets, ret.
  destruct (NodeCache.get (cacheKey ws) (now env) (memoryCache s)) as [c r].
  destruct (truthy (default "" r)); [reflexivity|].
  destruct (select_first _ _) as [row|].
  - unfold modify, memoryCache_set. now destruct (NodeCache.set _ _ _ _).
  - now destruct (getOpenAIClient cfg (set_memoryCache c s)) as [s1 [k|e]].
Qed.



Lemma begin_settled cfg env ws s :
  Overlap.suspends cfg (now env) ws s = false ->
  fst (Overlap.begin cfg (now env) ws s) = fst (generateQuizArticle cfg env ws s).
Proof.
  unfold Overlap.suspends. rewrite generateQuizArticle_split.
  destruct (Overlap.begin cfg (now env) ws s) as [s1 [[text|]|e]];
    simpl; [reflexivity | discriminate | reflexivity].
Qed.











(** Calls that run one after the other are in single flight. *)
Lemma serial_is_single_flight cfg s :
  reachable cfg s -> reaches (single_flight cfg) cfg (Overlap.mkWorld s []).
Proof.
  induction 1 as [d Hd|s s' _ IH Hstep]; [now apply reaches_start|].
  destruct Hstep as [env ws s|now s|now s|s].
  - assert (Hcall : reaches (single_flight cfg) cfg
                      (Overlap.fire cfg (Overlap.Call (Llm.now env) ws)
                                    (Overlap.mkWorld s []))).
    { apply reaches_event; [exact IH|]. simpl. now rewrite andb_false_r. }
    cbn [Overlap.fire Overlap.server Overlap.awaiting] in Hcall.
    destruct (Overlap.suspends cfg (Llm.now env) ws s) eqn:Hs.
    + apply (reaches_event _ _ _ (Overlap.Answer env 0)) in Hcall; [|reflexivity].
      cbn in Hcall.
      replace (fst (generateQuizArticle cfg env ws s))
        with (fst (Overlap.resume cfg env ws (fst (Overlap.begin cfg (Llm.now env) ws s))));
        [exact Hcall|].
      rewrite generateQuizArticle_split. unfold Overlap.suspends in Hs.
      destruct (Overlap.begin cfg (Llm.now env) ws s) as [s1 [[text|]|e]];
        simpl in Hs; try discriminate Hs. reflexivity.
    + now rewrite <- (begin_settled cfg env ws s Hs).
  - apply (reaches_event _ _ _ (Overlap.Sweep now)) in IH; [exact IH|reflexivity].
  - apply (reaches_event _ _ _ (Overlap.Check now)) in IH; [exact IH|reflexivity].
  - apply (reaches_event _ _ _ Overlap.Restart) in IH; [exact IH|reflexivity].
Qed.

(** Two calls for one key that overlap at the await both miss and both
    write: the table holds two rows for the key, and the memory cache
    serves the text of the later answer while a lookup by key finds the
    row of the earlier one. *)
Lemma overlapping_misses_disagree :
  reaches any_order abc_cfg race_world /\
  map ca_word_ids (cached_articles (db (Overlap.server race_world)))
    = ["word-1"; "word-1"] /\
  snd (NodeCache.get "word-1" 4000 (memoryCache (Overlap.server race_world)))
    = Some "Such ______!" /\
  option_map ca_article_text (durable_row "word-1" (Overlap.server race_world))
    = Some "Pure ______." /\
  ~ coherent (Overlap.server race_world).
Proof.
  split; [|split; [|split; [|split]]].
  - unfold race_world, play. cbn [fold_left].
    repeat (apply reaches_event; [|reflexivity]).
    now apply reaches_start.
  - vm_compute. reflexivity.
  - vm_compute. reflexivity.
  - vm_compute. reflexivity.
  - intros [Hnd _].
    assert (Hk : map ca_word_ids (cached_articles (db (Overlap.server race_world)))
                 = ["word-1"; "word-1"]) by (vm_compute; reflexivity).
    rewrite Hk in Hnd. inversion Hnd as [|x l Hnot _]. apply Hnot. now left.
Qed.




End CoherenceFacts.

(** ** The mastery ladder and the progress handlers *)

Module ProgressFacts.

Import Js Progress ProgressSpec.

Ltac unfold_handler :=
  unfold handler, bind, gets, modify, ret, throw,
    insert_user, insert_user_word, insert_quiz_result, insert_daily_progress in *.

(** Case analysis on an innermost scrutinee of the goal. *)
Ltac split_match :=
  match goal with
  | |- context [match ?x with _ => _ end] =>
      lazymatch x with
      | context [match _ with _ => _ end] => fail
      | _ => destruct x eqn:?
      end
  end.

Lemma exists_in_select {Row} (key : Row -> string) k (rows : list Row) :
  exists_in key k rows = true ->
  exists r, select_first (fun r => String.eqb (key r) k) rows = Some r.
Proof.
  unfold exists_in, select_first. induction rows as [|x rows IH]; simpl; [discriminate|].
  destruct (String.eqb (key x) k); eauto.
Qed.

Lemma exists_in_select_eq {Row} (key : Row -> string) k (rows : list Row) :
  exists_in key k rows =
  match select_first (fun r => String.eqb (key r) k) rows with
  | Some _ => true
  | None => false
  end.
Proof.
  unfold exists_in, select_first. induction rows as [|x rows IH]; simpl; [reflexivity|].
  now destruct (String.eqb (key x) k).
Qed.

Lemma select_exists_in {Row} (key : Row -> string) k (rows : list Row) :
  select_first (fun r => String.eqb (key r) k) rows = None ->
  exists_in key k rows = false.
Proof.
  unfold exists_in, select_first. induction rows as [|x rows IH]; simpl; [reflexivity|].
  destruct (String.eqb (key x) k); [discriminate | exact IH].
Qed.

(** On an accepted request for a saved word, the handler rewrites the
    rows with the id of the row it selected and adds the result row. *)
Lemma quiz_result_saved_word rt env userId wordId isCorrect d uw :
  accepted env userId wordId d ->
  select_user_word userId wordId d = Some uw ->
  let d' := fst (quiz_result rt env userId wordId (Some isCorrect) d) in
  user_words d' =
    update_where (fun r => String.eqb (uw_id r) (uw_id uw))
                 (reviewed (newBucket (uw_bucket uw) isCorrect) isCorrect (now env))
                 (user_words d) /\
  quiz_results d' = (quiz_results d ++ [result_row env userId wordId isCorrect])%list.
Proof.
  intros (Hu & Hw & Huser & Hword & Hpk) Huw.
  apply exists_in_select in Huser as [u Huser], Hword as [w Hword].
  unfold quiz_result. unfold_handler.
  rewrite Hu, Hw. simpl. rewrite Huser, Hword, Hpk.
  change (select_user_word userId wordId (set_quiz_results ?f d))
    with (select_user_word userId wordId d).
  rewrite Huw.
  repeat (split_match; simpl); split; reflexivity.
Qed.

Lemma select_first_map {Row} (p : Row -> bool) (g : Row -> Row) (rows : list Row) :
  (forall r, p (g r) = p r) ->
  select_first p (map g rows) = g <$> select_first p rows.
Proof.
  intros Hpg. unfold select_first.
  induction rows as [|x rows IH]; simpl; [reflexivity|].
  rewrite Hpg. now destruct (p x).
Qed.

Lemma select_user_word_updated userId wordId d d' uw f :
  (forall r, uw_user_id (f r) = uw_user_id r /\ uw_word_id (f r) = uw_word_id r) ->
  user_words d' = update_where (fun r => String.eqb (uw_id r) (uw_id uw)) f (user_words d) ->
  select_user_word userId wordId d = Some uw ->
  select_user_word userId wordId d' = Some (f uw).
Proof.
  intros Hf Hd' Huw. unfold select_user_word, update_where in *.
  rewrite Hd', select_first_map.
  - rewrite Huw. simpl. now rewrite String.eqb_refl.
  - intros r. destruct (String.eqb (uw_id r) (uw_id uw)); [|reflexivity].
    now destruct (Hf r) as [-> ->].
Qed.

(** C2.  On an accepted quiz result for a saved word, the row of that
    word is rewritten with the next bucket: a correct answer takes
    'needs work' to 'familiar', 'familiar' to 'well known' and leaves
    'well known'; an incorrect answer gives 'needs work' from any bucket. *)
Theorem quiz_result_moves_bucket rt env userId wordId isCorrect d uw :
  accepted env userId wordId d ->
  select_user_word userId wordId d = Some uw ->
  exists uw',
    select_user_word userId wordId
      (fst (quiz_result rt env userId wordId (Some isCorrect) d)) = Some uw' /\
    uw_id uw' = uw_id uw /\
    (isCorrect = true -> uw_bucket uw = "needs work" -> uw_bucket uw' = "familiar") /\
    (isCorrect = true -> uw_bucket uw = "familiar" -> uw_bucket uw' = "well known") /\
    (isCorrect = true -> uw_bucket uw = "well known" -> uw_bucket uw' = "well known") /\
    (isCorrect = false -> uw_bucket uw' = "needs work").
Proof.
  intros Hacc Huw.
  destruct (quiz_result_saved_word rt env userId wordId isCorrect d uw Hacc Huw)
    as [Hrows _].
  eexists. split.
  - eapply select_user_word_updated; [|exact Hrows|exact Huw]. intros r. now split.
  - simpl. repeat split.
    + now intros -> ->.
    + now intros -> ->.
    + now intros -> ->.
    + now intros ->.
Qed.

Lemma quiz_result_moves_bucket_witness :
  exists uw',
    select_user_word "user-1" "word-1"
      (fst (quiz_result demo_rt demo_env "user-1" "word-1" (Some true)
              (demo_db [demo_row "familiar"]))) = Some uw' /\
    uw_bucket uw' = "well known".
Proof.
  destruct (quiz_result_moves_bucket demo_rt demo_env "user-1" "word-1" true
              (demo_db [demo_row "familiar"]) (demo_row "familiar"))
    as (uw' & Hsel & _ & _ & Hfam & _).
  - repeat split; reflexivity.
  - reflexivity.
  - exists uw'. split; [exact Hsel|]. apply Hfam; reflexivity.
Defined.

(** A quiz result for a word the user has not saved is answered with
    success and is recorded. *)
Lemma quiz_result_unsaved_is_recorded :
  select_user_word "user-1" "word-1" (demo_db []) = None /\
  quiz_result demo_rt demo_env "user-1" "word-1" (Some true) (demo_db [])
  = (set_quiz_results
       (fun _ => [mkQuizResultRow "qr-1" "user-1" "word-1" 1 1700000000])
       (demo_db []),
     json_quiz "Quiz result saved" "qr-1" None).
Proof. split; reflexivity. Qed.

(** C4 (as amended).  For a word that is not in the user's saved
    collection, the handler never touches [user_words] or
    [daily_progress].  It answers 404 and changes nothing when the user or
    the word does not exist at all; when both exist it inserts the row
    into [quiz_results] and answers success with a null [newBucket]. *)
Theorem quiz_result_unsaved_word rt env userId wordId isCorrect d :
  truthy userId = true -> truthy wordId = true ->
  select_user_word userId wordId d = None ->
  let out := quiz_result rt env userId wordId (Some isCorrect) d in
  user_words (fst out) = user_words d /\
  daily_progress (fst out) = daily_progress d /\
  (exists_in u_id userId (users d) = false ->
   out = (d, status_json 404 "User not found")) /\
  (exists_in u_id userId (users d) = true ->
   exists_in w_id wordId (words d) = false ->
   out = (d, status_json 404 "Word not found")) /\
  (accepted env userId wordId d ->
   out = (set_quiz_results
            (fun rows => (rows ++ [result_row env userId wordId isCorrect])%list) d,
          json_quiz "Quiz result saved" (fresh_id env) None)).
Proof.
  intros Hu Hw Hnone. cbv zeta.
  unfold accepted.
  rewrite (exists_in_select_eq u_id), (exists_in_select_eq w_id).
  unfold quiz_result. unfold_handler. rewrite Hu, Hw. simpl.
  destruct (select_first (fun r => String.eqb (u_id r) userId) (users d)) as [u|];
    [|repeat split; intros; try reflexivity; intuition congruence].
  destruct (select_first (fun r => String.eqb (w_id r) wordId) (words d)) as [w|];
    [|repeat split; intros; try reflexivity; intuition congruence].
  destruct (pk_taken qr_id (fresh_id env) (quiz_results d)) eqn:Epk;
    [repeat split; intros; try reflexivity; intuition congruence|].
  change (select_user_word userId wordId (set_quiz_results ?f d))
    with (select_user_word userId wordId d).
  rewrite Hnone. simpl.
  repeat split; intros; try reflexivity; intuition congruence.
Qed.

Lemma quiz_result_unsaved_word_witness :
  user_words (fst (quiz_result demo_rt demo_env "user-1" "word-1" (Some false)
                     (demo_db []))) = [] /\
  quiz_result demo_rt demo_env "user-2" "word-1" (Some false) (demo_db [])
  = (demo_db [], status_json 404 "User not found").
Proof.
  split.
  - apply (quiz_result_unsaved_word demo_rt demo_env "user-1" "word-1" false
             (demo_db [])); reflexivity.
  - apply (quiz_result_unsaved_word demo_rt demo_env "user-2" "word-1" false
             (demo_db [])); reflexivity.
Defined.

(** *** What the handlers do to [words] and [user_words] *)

Lemma post_user_tables env deviceId d :
  words (fst (post_user env deviceId d)) = words d /\
  user_words (fst (post_user env deviceId d)) = user_words d.
Proof.
  unfold post_user. unfold_handler.
  repeat (split_match; simpl); split; reflexivity.
Qed.

Lemma save_word_tables rt env userId wordId d :
  let d' := fst (save_word rt env userId wordId d) in
  words d' = words d /\
  (user_words d' = user_words d \/
   (truthy userId = true /\ truthy wordId = true /\
    exists_in w_id wordId (words d) = true /\
    select_user_word userId wordId d = None /\
    user_words d' = (user_words d ++ [saved_row env userId wordId])%list)).
Proof.
  cbv zeta. rewrite (exists_in_select_eq w_id).
  unfold save_word. unfold_handler.
  destruct (truthy userId); [|simpl; auto].
  destruct (truthy wordId); [|simpl; auto].
  simpl.
  destruct (select_first (fun r => String.eqb (w_id r) wordId) (words d));
    [|simpl; auto].
  destruct (select_user_word userId wordId d); [simpl; auto|].
  repeat (split_match; simpl); split; auto;
    right; repeat split; reflexivity.
Qed.

Lemma quiz_result_tables rt env userId wordId isCorrect d :
  let d' := fst (quiz_result rt env userId wordId isCorrect d) in
  words d' = words d /\
  (user_words d' = user_words d \/
   exists uw bucket correct,
     user_words d' =
       update_where (fun r => String.eqb (uw_id r) (uw_id uw))
                    (reviewed bucket correct (now env)) (user_words d)).
Proof.
  cbv zeta. unfold quiz_result. unfold_handler.
  repeat (split_match; simpl); split; auto; right; eauto.
Qed.

(** *** Invariants of the saved-word table *)

Lemma reviewed_counts bucket correct now r :
  counts_ok r -> counts_ok (reviewed bucket correct now r).
Proof. unfold counts_ok. destruct correct; simpl; lia. Qed.

Lemma select_user_word_none_pair userId wordId d r :
  select_user_word userId wordId d = None -> In r (user_words d) ->
  pair_of r <> (userId, wordId).
Proof.
  intros Hnone Hin E. unfold select_user_word in Hnone.
  pose proof (CacheFacts.select_first_none_In _ _ r Hnone Hin) as Hp. simpl in Hp.
  unfold pair_of in E. injection E as E1 E2.
  rewrite E1, E2, !String.eqb_refl in Hp. discriminate Hp.
Qed.

Lemma good_same_tables d d' :
  words d' = words d -> user_words d' = user_words d -> good d -> good d'.
Proof.
  intros Hw Huw [Hc Hr Hu]. split; rewrite Huw; trivial.
  unfold refers_ok. now rewrite Hw.
Qed.

Lemma good_saved env userId wordId d d' :
  words d' = words d ->
  truthy userId = true -> truthy wordId = true ->
  exists_in w_id wordId (words d) = true ->
  select_user_word userId wordId d = None ->
  user_words d' = (user_words d ++ [saved_row env userId wordId])%list ->
  good d -> good d'.
Proof.
  intros Hw Hu Hwd Hex Hnone Huw [Hc Hr Hnd]. split; rewrite Huw.
  - apply Forall_app. split; [exact Hc|]. repeat constructor.
  - apply Forall_app. unfold refers_ok. rewrite Hw. split; [exact Hr|].
    repeat constructor; assumption.
  - rewrite map_app. apply List.NoDup_app; trivial.
    + repeat constructor. intros [].
    + intros p Hp [<-|[]]. apply in_map_iff in Hp as (r & E & Hin).
      exact (select_user_word_none_pair userId wordId d r Hnone Hin E).
Qed.

Lemma good_reviewed d d' uw bucket correct now :
  words d' = words d ->
  user_words d' =
    update_where (fun r => String.eqb (uw_id r) (uw_id uw))
                 (reviewed bucket correct now) (user_words d) ->
  good d -> good d'.
Proof.
  intros Hw Huw [Hc Hr Hnd]. unfold update_where in Huw. split; rewrite Huw.
  - apply List.Forall_map. eapply List.Forall_impl; [|exact Hc].
    intros r Hr0. destruct (String.eqb _ _); [now apply reviewed_counts | exact Hr0].
  - apply List.Forall_map. eapply List.Forall_impl; [|exact Hr].
    intros r Hr0. unfold refers_ok in *. rewrite Hw.
    now destruct (String.eqb _ _).
  - rewrite map_map.
    erewrite map_ext; [exact Hnd|]. intros r. now destruct (String.eqb _ _).
Qed.

Lemma reachable_good rt d : reachable rt d -> good d.
Proof.
  induction 1 as [d Hd|env dev d _ IH|env u w d _ IH|env u w c d _ IH].
  - split; rewrite Hd; constructor.
  - destruct (post_user_tables env dev d) as [Hw Huw].
    exact (good_same_tables _ _ Hw Huw IH).
  - destruct (save_word_tables rt env u w d) as [Hw [Huw|(Hu & Hwd & Hex & Hnone & Huw)]].
    + exact (good_same_tables _ _ Hw Huw IH).
    + exact (good_saved env u w _ _ Hw Hu Hwd Hex Hnone Huw IH).
  - destruct (quiz_result_tables rt env u w c d) as [Hw [Huw|(uw & b & c' & Huw)]].
    + exact (good_same_tables _ _ Hw Huw IH).
    + exact (good_reviewed _ _ uw b c' (now env) Hw Huw IH).
Qed.

Lemma after_save_reachable : reachable demo_rt after_save.
Proof. apply reach_save, reach_init. reflexivity. Qed.

(** C5.  In every database the routes can produce, and so after every
    quiz result, each saved-word row has
    [review_count = correct_count + incorrect_count]: a row is created
    with the three counters at 0, and the update adds 1 to [review_count]
    and 1 to exactly one of the other two. *)
Theorem review_count_invariant rt d :
  reachable rt d ->
  Forall counts_ok (user_words d) /\
  (forall env userId wordId isCorrect,
     Forall counts_ok
       (user_words (fst (quiz_result rt env userId wordId isCorrect d)))) /\
  (forall env userId wordId,
     uw_review_count (saved_row env userId wordId) = 0 /\
     uw_correct_count (saved_row env userId wordId) = 0 /\
     uw_incorrect_count (saved_row env userId wordId) = 0) /\
  (forall bucket correct now r,
     uw_review_count (reviewed bucket correct now r) = uw_review_count r + 1 /\
     (uw_correct_count (reviewed bucket correct now r),
      uw_incorrect_count (reviewed bucket correct now r))
     = if correct
       then (uw_correct_count r + 1, uw_incorrect_count r)
       else (uw_correct_count r, uw_incorrect_count r + 1)).
Proof.
  intros Hreach. repeat split.
  - apply (good_counts d), (reachable_good rt), Hreach.
  - intros env userId wordId isCorrect.
    apply (good_counts _), (reachable_good rt). now apply reach_quiz.
  - destruct correct; simpl; f_equal; lia.
Qed.

Lemma review_count_invariant_witness :
  Forall counts_ok (user_words after_quiz) /\
  map uw_review_count (user_words after_quiz) = [1].
Proof.
  split; [|reflexivity].
  apply (review_count_invariant demo_rt after_save after_save_reachable).
Defined.

Lemma select_first_unique {Row} (p : Row -> bool) (rows : list Row) (x : Row) :
  In x rows -> p x = true ->
  (forall y, In y rows -> p y = true -> y = x) ->
  select_first p rows = Some x.
Proof.
  unfold select_first. induction rows as [|a rows IH]; simpl; intros Hin Hp Huniq.
  - destruct Hin.
  - destruct (p a) eqn:Ea.
    + f_equal. apply Huniq; [now left | exact Ea].
    + destruct Hin as [->|Hin]; [congruence|].
      apply IH; trivial. intros y Hy. apply Huniq. now right.
Qed.

Lemma select_user_word_present d uw :
  good d -> In uw (user_words d) ->
  select_user_word (uw_user_id uw) (uw_word_id uw) d = Some uw.
Proof.
  intros Hgood Hin. unfold select_user_word.
  apply select_first_unique; trivial.
  - now rewrite !String.eqb_refl.
  - intros y Hy Hp. apply andb_true_iff in Hp as [Hu Hw].
    apply String.eqb_eq in Hu, Hw.
    apply (EvictionFacts.NoDup_map_In_eq pair_of (user_words d)); trivial.
    + apply (good_unique d Hgood).
    + unfold pair_of. congruence.
Qed.

(** C10.  In every database the routes can produce, saving a word that
    is already in [user_words] for that user answers with the id of the
    existing row and leaves the whole database as it is. *)
Theorem save_word_idempotent rt d uw :
  reachable rt d -> In uw (user_words d) ->
  forall env,
    save_word rt env (uw_user_id uw) (uw_word_id uw) d
    = (d, json_saved "Word already saved" (uw_id uw)).
Proof.
  intros Hreach Hin env.
  pose proof (reachable_good rt d Hreach) as Hgood.
  pose proof (good_refers d Hgood) as Hrefs.
  rewrite List.Forall_forall in Hrefs. destruct (Hrefs uw Hin) as (Hu & Hw & Hex).
  apply exists_in_select in Hex as [w Hword].
  unfold save_word. unfold_handler.
  rewrite Hu, Hw. simpl. rewrite Hword.
  now rewrite (select_user_word_present d uw Hgood Hin).
Qed.

Lemma save_word_idempotent_witness :
  save_word demo_rt demo_env "user-1" "word-1" after_save
  = (after_save, json_saved "Word already saved" "uw-1").
Proof.
  apply (save_word_idempotent demo_rt after_save
           (saved_row save_env "user-1" "word-1") after_save_reachable).
  now left.
Defined.

End ProgressFacts.

(** ** More on the cache coordinator: write-through and the client *)

Module WriteThroughFacts.

Import Js Llm KeySpec ArticleSpec CacheSpec ArticleFacts CacheFacts.



(** X2.  The OpenAI client is built once: after one call of
    [generateArticleWithLLM] has returned, every later call returns a
    non-empty article and leaves the server as it is, whatever the
    configuration says by then, even with the API key removed. *)
Theorem client_is_built_once cfg env ws s s1 article :
  generateArticleWithLLM cfg env ws s = (s1, Returned article) ->
  forall cfg' env' ws',
    ws' <> [] ->
    exists article',
      generateArticleWithLLM cfg' env' ws' s1 = (s1, Returned article') /\
      truthy article' = true.
Proof.
  intros Hrun cfg' env' ws' Hws'.
  assert (Hclient : exists k, openaiClient s1 = Some k).
  { destruct (client_ready cfg s) eqn:Hready.
    - rewrite (generateArticleWithLLM_ready cfg env ws s Hready) in Hrun.
      injection Hrun as <- _. unfold with_client.
      destruct (openaiClient s) eqn:E; [rewrite E|]; simpl; eauto.
    - rewrite (generateArticleWithLLM_no_key cfg env ws s Hready) in Hrun.
      discriminate Hrun. }
  destruct Hclient as [k Hk].
  assert (Hready' : client_ready cfg' s1 = true)
    by (unfold client_ready; now rewrite Hk).
  rewrite (generateArticleWithLLM_ready cfg' env' ws' s1 Hready').
  exists (settled_article env' ws'). split.
  - unfold with_client. now rewrite Hk.
  - now apply settled_article_truthy.
Qed.

Lemma client_is_built_once_witness :
  exists article',
    generateArticleWithLLM (default_config None)
      (mkCallEnv 2000 "article-2" Rejected) [apple]
      (fst (generateArticleWithLLM abc_cfg abc_env1 [apple]
              (start abc_cfg (mkDB [] [] [] [] [] []))))
    = (fst (generateArticleWithLLM abc_cfg abc_env1 [apple]
              (start abc_cfg (mkDB [] [] [] [] [] []))),
       Returned article') /\
    truthy article' = true.
Proof.
  apply (client_is_built_once abc_cfg abc_env1 [apple]
           (start abc_cfg (mkDB [] [] [] [] [] []))
           (fst (generateArticleWithLLM abc_cfg abc_env1 [apple]
                   (start abc_cfg (mkDB [] [] [] [] [] []))))
           "Pure ______ made the ______ moment feel ______.").
  - reflexivity.
  - discriminate.
Defined.

End WriteThroughFacts.

(** ** More on the eviction sweep *)

Module SweepFacts.

Import Js Llm KeySpec ArticleSpec CacheSpec EvictionSpec CoherenceSpec.
Import ArticleFacts CacheFacts EvictionFacts CoherenceFacts.

(** The two shapes of a sweep: nothing to trim, or the rows after the
    first [k] in [last_accessed] order. *)
Lemma cleanup_rows_cases cfg now rows :
  List.NoDup (map ca_id rows) ->
  let rows1 := delete_where (fun r => ca_last_accessed r <? cutoffTime cfg now) rows in
  let k := Z.to_nat (Z.of_nat (length rows1) - MAX_CACHED_ARTICLES cfg) in
  (Z.of_nat (length rows1) <= MAX_CACHED_ARTICLES cfg /\
   cleanupOldCache_rows cfg now rows = rows1) \/
  (MAX_CACHED_ARTICLES cfg < Z.of_nat (length rows1) /\
   Permutation (cleanupOldCache_rows cfg now rows)
               (skipn k (order_by_last_accessed rows1)) /\
   forall r, In r (cleanupOldCache_rows cfg now rows) -> In r rows1).
Proof.
  intros Hnd rows1 k. unfold cleanupOldCache_rows. fold (cutoffTime cfg now).
  fold rows1.
  destruct (Z.of_nat (length rows1) >? MAX_CACHED_ARTICLES cfg) eqn:Egt.
  - right. apply Z.gtb_lt in Egt. split; [exact Egt|].
    unfold limit.
    destruct (Z.of_nat (length rows1) - MAX_CACHED_ARTICLES cfg <? 0) eqn:Eneg;
      [apply Z.ltb_lt in Eneg; lia|].
    fold k. split.
    + apply trim_keeps_drop. now apply NoDup_map_delete_where.
    + intros r Hr. now apply delete_where_In in Hr.
  - left. rewrite Z.gtb_ltb, Z.ltb_ge in Egt. now split.
Qed.

Lemma cleanup_rows_unexpired cfg now rows r :
  In r (cleanupOldCache_rows cfg now rows) -> cutoffTime cfg now <= ca_last_accessed r.
Proof.
  unfold cleanupOldCache_rows. fold (cutoffTime cfg now).
  destruct (_ >? _); intros Hr.
  - apply delete_where_In in Hr as [Hr _]. apply delete_where_In in Hr as [_ Hr].
    now apply Z.ltb_ge.
  - apply delete_where_In in Hr as [_ Hr]. now apply Z.ltb_ge.
Qed.

Lemma cleanup_rows_length cfg now rows :
  List.NoDup (map ca_id rows) -> 0 <= MAX_CACHED_ARTICLES cfg ->
  Z.of_nat (length (cleanupOldCache_rows cfg now rows)) <= MAX_CACHED_ARTICLES cfg.
Proof.
  intros Hnd Hmax.
  destruct (cleanup_rows_cases cfg now rows Hnd) as [[Hle ->]|(Hlt & HP & _)];
    [exact Hle|].
  rewrite (Permutation_length HP), length_skipn.
  rewrite (Permutation_length (order_by_last_accessed_perm _)). lia.
Qed.

Lemma cleanup_rows_ids cfg now rows :
  List.NoDup (map ca_id rows) -> List.NoDup (map ca_id (cleanupOldCache_rows cfg now rows)).
Proof.
  intros Hnd. unfold cleanupOldCache_rows.
  destruct (_ >? _); repeat apply NoDup_map_delete_where; exact Hnd.
Qed.

(** X3.  The sweep is idempotent and leaves no aged-out row: running it
    again at the same instant changes nothing, and every row it keeps was
    last accessed at or after the cutoff. *)
Theorem cleanupOldCache_idempotent cfg now (s : Server) :
  List.NoDup (map ca_id (cached_articles (db s))) ->
  fst (cleanupOldCache cfg now (fst (cleanupOldCache cfg now s)))
  = fst (cleanupOldCache cfg now s) /\
  forall r, In r (cached_articles (db (fst (cleanupOldCache cfg now s)))) ->
            now / 1000 - QUIZ_CACHE_TTL_SECONDS cfg <= ca_last_accessed r.
Proof.
  intros Hnd. split; [|intros r Hr; exact (cleanup_rows_unexpired cfg now _ r Hr)].
  unfold cleanupOldCache, modify, set_db, set_cached_articles. simpl. f_equal. f_equal.
  set (rows := cached_articles (db s)) in *.
  set (rows' := cleanupOldCache_rows cfg now rows).
  assert (Hsame : delete_where (fun r => ca_last_accessed r <? cutoffTime cfg now) rows'
                  = rows').
  { unfold delete_where. apply filter_all. intros r Hr.
    apply negb_true_iff, Z.ltb_ge. exact (cleanup_rows_unexpired cfg now rows r Hr). }
  destruct (cleanup_rows_cases cfg now rows' (cleanup_rows_ids cfg now rows Hnd))
    as [[_ E]|(Hlt & HP & _)]; rewrite Hsame in *; [exact E|].
  destruct (Z_lt_le_dec (MAX_CACHED_ARTICLES cfg) 0) as [Hneg|Hpos].
  - assert (Hempty : rows' = []).
    { unfold rows'.
      destruct (cleanup_rows_cases cfg now rows Hnd) as [[Hle _]|(_ & HP1 & _)];
        [exfalso; lia|].
      apply Permutation_length in HP1.
      rewrite length_skipn, (Permutation_length (order_by_last_accessed_perm _)) in HP1.
      apply length_zero_iff_nil. lia. }
    fold rows'. rewrite Hempty in *. apply Permutation_length in HP.
    rewrite length_skipn in HP. apply length_zero_iff_nil. simpl in *. lia.
  - pose proof (cleanup_rows_length cfg now rows Hnd Hpos) as Hlen.
    fold rows' in Hlen. exfalso. lia.
Qed.

Lemma cleanupOldCache_idempotent_witness :
  fst (cleanupOldCache sweep_cfg 40000 (fst (cleanupOldCache sweep_cfg 40000 sweep_server)))
  = fst (cleanupOldCache sweep_cfg 40000 sweep_server).
Proof.
  apply (cleanupOldCache_idempotent sweep_cfg 40000 sweep_server).
  repeat (constructor; [simpl; intuition discriminate|]). constructor.
Defined.

End SweepFacts.

(** ** The durable store over time *)

Module StoreFacts.

Import Js Llm KeySpec ArticleSpec CacheSpec EvictionSpec CoherenceSpec.
Import ArticleFacts CacheFacts EvictionFacts CoherenceFacts SweepFacts.










End StoreFacts.

(** ** The routes in front of the tables *)

Module RouteFacts.

Import Js Llm KeySpec RouteSpec.

Lemma select_words_ids (wordIds : list string) (d : DB) :
  Permutation
    (map id (QuizRoute.select_words wordIds d))
    (map w_id (List.filter (fun r => existsb (String.eqb (w_id r)) wordIds) (words d))).
Proof.
  unfold QuizRoute.select_words. rewrite map_map.
  exact (Permutation_map w_id (order_by_perm QuizRoute.by_id _)).
Qed.

Lemma select_words_In (wordIds : list string) (d : DB) (i : string) :
  In i (map id (QuizRoute.select_words wordIds d)) <->
  In i wordIds /\ In i (map w_id (words d)).
Proof.
  transitivity
    (In i (map w_id (List.filter (fun r => existsb (String.eqb (w_id r)) wordIds)
                                 (words d)))).
  { split; apply Permutation_in;
      [apply select_words_ids | apply Permutation_sym, select_words_ids]. }
  rewrite !in_map_iff. split.
  - intros (r & <- & Hr). apply List.filter_In in Hr as [Hr Hl].
    apply existsb_exists in Hl as (k & Hk & E). apply String.eqb_eq in E.
    split; [now rewrite E | eauto].
  - intros (Hi & r & <- & Hr). exists r. split; [reflexivity|].
    apply List.filter_In. split; [exact Hr|].
    apply existsb_exists. exists (w_id r). split; [exact Hi | apply String.eqb_refl].
Qed.

Lemma select_words_NoDup (wordIds : list string) (d : DB) :
  List.NoDup (map w_id (words d)) ->
  List.NoDup (map id (QuizRoute.select_words wordIds d)).
Proof.
  intros Hnd.
  apply (Permutation_NoDup (Permutation_sym (select_words_ids wordIds d))).
  induction (words d) as [|r rows IH]; simpl; [constructor|].
  apply List.NoDup_cons_iff in Hnd as [Hnotin Hnd].
  destruct (existsb _ _); simpl; [|now apply IH].
  constructor; [|now apply IH].
  intros Hr. apply Hnotin. apply in_map_iff in Hr as (r' & E & Hr').
  apply List.filter_In in Hr' as [Hr' _]. rewrite <- E. now apply in_map.
Qed.

Lemma pk_taken_listed (i : string) (rows : list WordRow) :
  pk_taken w_id i rows = true <-> In i (map w_id rows).
Proof.
  unfold pk_taken. rewrite existsb_exists, in_map_iff. split.
  - intros (r & Hr & E). apply String.eqb_eq in E. eauto.
  - intros (r & E & Hr). exists r. split; [exact Hr | now apply String.eqb_eq].
Qed.

(** X6.  With ids unique in [words], a non-empty list and a user id, the
    generate route gets past its validation exactly when the listed ids
    are pairwise different and all known: a repeated or unknown id is
    answered 400.  Past validation, the words handed to
    [generateQuizArticle] carry the listed ids, so the cache key is the
    sorted listed ids joined by commas, whatever their order in the
    request. *)
Theorem post_generate_validation cfg env wordIds userId s :
  List.NoDup (map w_id (words (db s))) ->
  wordIds <> [] ->
  truthy userId = true ->
  let words := QuizRoute.select_words wordIds (db s) in
  let valid := List.NoDup wordIds /\
               forall i, In i wordIds -> pk_taken w_id i (Database.words (db s)) = true in
  (valid ->
   Permutation (map id words) wordIds /\
   cacheKey words = Js.join "," (Js.sort wordIds) /\
   QuizRoute.post_generate cfg env (Some wordIds) userId s =
     match generateQuizArticle cfg env words s with
     | (s', Returned article) => (s', QuizRoute.json_article article words)
     | (s', Threw e) => (s', QuizRoute.next_error e)
     end) /\
  (~ valid ->
   QuizRoute.post_generate cfg env (Some wordIds) userId s
   = (s, QuizRoute.status_json 400 "Some word IDs are invalid")).
Proof.
  intros Hnd Hne Hu. cbv zeta.
  set (words := QuizRoute.select_words wordIds (db s)).
  pose proof (select_words_NoDup wordIds (db s) Hnd) as Hsel. fold words in Hsel.
  assert (Hincl : incl (map id words) wordIds).
  { intros i Hi. now apply select_words_In in Hi. }
  assert (Hlen : forall b : bool,
            Nat.eqb (length words) (length wordIds) = b ->
            QuizRoute.post_generate cfg env (Some wordIds) userId s =
            if b
            then match generateQuizArticle cfg env words s with
                 | (s', Returned article) => (s', QuizRoute.json_article article words)
                 | (s', Threw e) => (s', QuizRoute.next_error e)
                 end
            else (s, QuizRoute.status_json 400 "Some word IDs are invalid")).
  { intros b Hb. unfold QuizRoute.post_generate. rewrite Hu. fold words.
    destruct wordIds as [|i0 rest]; [congruence|].
    change (Nat.eqb (length (i0 :: rest)) 0) with false. cbv iota.
    rewrite Hb. now destruct b. }
  split.
  - intros [Hnd' Hknown].
    assert (HP : Permutation (map id words) wordIds).
    { apply Permutation.NoDup_Permutation; trivial.
      intros i. split; [apply Hincl|].
      intros Hi. apply select_words_In. split; [exact Hi|].
      apply pk_taken_listed. now apply Hknown. }
    split; [exact HP|]. split.
    + unfold cacheKey. now rewrite (sort_permutation_eq _ _ HP).
    + apply (Hlen true). apply Nat.eqb_eq.
      rewrite <- (length_map id). now apply Permutation_length.
  - intros Hinvalid. apply (Hlen false). apply Nat.eqb_neq. intros E.
    apply Hinvalid.
    assert (Hle : (length wordIds <= length (map id words))%nat)
      by (rewrite length_map; lia).
    split.
    + eapply List.NoDup_incl_NoDup; eassumption.
    + intros i Hi. apply pk_taken_listed.
      assert (Hin : In i (map id words))
        by (eapply List.NoDup_length_incl; eassumption).
      now apply select_words_In in Hin.
Qed.

Lemma post_generate_validation_witness :
  cacheKey (QuizRoute.select_words ["word-3"; "word-1"] (db seeded_server))
  = "word-1,word-3" /\
  QuizRoute.post_generate (default_config (Some "sk-test"))
    (mkCallEnv 1000 "article-1" Rejected) (Some ["word-1"; "word-1"]) "user-1"
    seeded_server
  = (seeded_server, QuizRoute.status_json 400 "Some word IDs are invalid").
Proof.
  assert (Hnd : List.NoDup (map w_id (words (db seeded_server)))).
  { repeat (constructor; [simpl; intuition discriminate|]). constructor. }
  split.
  - destruct (post_generate_validation (default_config (Some "sk-test"))
                (mkCallEnv 1000 "article-1" Rejected) ["word-3"; "word-1"] "user-1"
                seeded_server Hnd) as [Hvalid _]; [discriminate | reflexivity |].
    destruct Hvalid as (_ & Hkey & _); [|exact Hkey].
    split.
    + repeat (constructor; [simpl; intuition discriminate|]). constructor.
    + intros i [<-|[<-|[]]]; reflexivity.
  - destruct (post_generate_validation (default_config (Some "sk-test"))
                (mkCallEnv 1000 "article-1" Rejected) ["word-1"; "word-1"] "user-1"
                seeded_server Hnd) as [_ Hinvalid]; [discriminate | reflexivity |].
    apply Hinvalid. intros [Hdup _].
    apply List.NoDup_cons_iff in Hdup as [Hnotin _]. apply Hnotin. now left.
Defined.

(** *** The quiz-word selection *)

Lemma nulls_first_total a b :
  Sql.nulls_first_leb a b = true \/ Sql.nulls_first_leb b a = true.
Proof. destruct a, b; simpl; auto. rewrite !Z.leb_le. lia. Qed.

Lemma ranks_before_total a b :
  QuizWords.ranks_before a b = true \/ QuizWords.ranks_before b a = true.
Proof.
  unfold QuizWords.ranks_before.
  destruct (QuizWords.bucket_case (uw_bucket (snd a))) as [ka|],
           (QuizWords.bucket_case (uw_bucket (snd b))) as [kb|]; simpl; auto.
  - rewrite (Z.eqb_sym kb ka).
    destruct (ka =? kb) eqn:E; [apply nulls_first_total|].
    rewrite !Z.leb_le. lia.
  - apply nulls_first_total.
Qed.

Lemma nulls_first_trans a b c :
  Sql.nulls_first_leb a b = true -> Sql.nulls_first_leb b c = true ->
  Sql.nulls_first_leb a c = true.
Proof.
  destruct a, b, c; simpl; auto; try discriminate.
  rewrite !Z.leb_le. lia.
Qed.

Lemma ranks_before_trans a b c :
  QuizWords.ranks_before a b = true -> QuizWords.ranks_before b c = true ->
  QuizWords.ranks_before a c = true.
Proof.
  unfold QuizWords.ranks_before.
  destruct (QuizWords.bucket_case (uw_bucket (snd a))) as [ka|],
           (QuizWords.bucket_case (uw_bucket (snd b))) as [kb|],
           (QuizWords.bucket_case (uw_bucket (snd c))) as [kc|]; simpl;
    try discriminate; auto; try apply nulls_first_trans.
  destruct (ka =? kb) eqn:Eab, (kb =? kc) eqn:Ebc, (ka =? kc) eqn:Eac;
    rewrite ?Z.eqb_eq, ?Z.eqb_neq, ?Z.leb_le in *; intros H1 H2;
    try (now apply (nulls_first_trans _ _ _ H1 H2)); try lia.
Qed.

Lemma joined_In userId d (row : QuizWords.Joined) :
  In row (QuizWords.joined userId d) <->
  In (snd row) (user_words d) /\ uw_user_id (snd row) = userId /\
  In (fst row) (words d) /\ w_id (fst row) = uw_word_id (snd row).
Proof.
  unfold QuizWords.joined. rewrite in_flat_map. split.
  - intros (uw & Huw & Hrow). apply List.filter_In in Huw as [Huw Hu].
    apply in_map_iff in Hrow as (w & <- & Hw). apply List.filter_In in Hw as [Hw Hid].
    apply String.eqb_eq in Hu, Hid. simpl. auto.
  - destruct row as [w uw]. simpl. intros (Huw & Hu & Hw & Hid).
    exists uw. split.
    + apply List.filter_In. split; [exact Huw | now apply String.eqb_eq].
    + apply in_map_iff. exists w. split; [reflexivity|].
      apply List.filter_In. split; [exact Hw | now apply String.eqb_eq].
Qed.

(** X7.  The quiz-word selection returns saved words of that user, each
    with its own row of [words]; at most [maxWords] of them when that
    number is not negative; ordered by bucket ('needs work', 'familiar',
    'well known') and then by [last_reviewed], never-reviewed first; and
    every saved word it leaves out ranks no earlier than every word it
    returns. *)
Theorem select_quiz_words_ranked userId maxWords d :
  let result := QuizWords.select_quiz_words userId maxWords d in
  (forall row, In row result ->
     In (snd row) (user_words d) /\ uw_user_id (snd row) = userId /\
     In (fst row) (words d) /\ w_id (fst row) = uw_word_id (snd row)) /\
  (0 <= maxWords -> Z.of_nat (length result) <= maxWords) /\
  StronglySorted (fun a b => QuizWords.ranks_before a b = true) result /\
  (forall x y, In x (QuizWords.joined userId d) -> ~ In x result -> In y result ->
               QuizWords.ranks_before y x = true).
Proof.
  cbv zeta. unfold QuizWords.select_quiz_words.
  destruct (order_by_limit QuizWords.ranks_before ranks_before_total ranks_before_trans
              maxWords (QuizWords.joined userId d)) as (Hin & Hlen & Hsorted & Htop).
  split; [|now repeat split].
  intros row Hrow. now apply joined_In, Hin.
Qed.

Lemma select_quiz_words_ranked_witness :
  Z.of_nat (length (QuizWords.select_quiz_words "user-1" 2 three_buckets)) <= 2.
Proof.
  apply (select_quiz_words_ranked "user-1" 2 three_buckets). lia.
Defined.

Lemma bucket_case_needs_work bucket :
  QuizWords.bucket_case bucket = Some 1 -> bucket = "needs work".
Proof.
  unfold QuizWords.bucket_case.
  destruct (String.eqb_spec bucket "needs work") as [E|_]; [trivial|].
  destruct (String.eqb bucket "familiar"); [discriminate|].
  destruct (String.eqb bucket "well known"); discriminate.
Qed.

(** X8.  When the user has a saved word in 'needs work', every saved word
    of the user is in one of the three buckets and [maxWords] is positive,
    the first word of the selection is a 'needs work' word, whatever the
    order of the rows in the table. *)
Theorem needs_work_comes_first userId maxWords d (c : QuizWords.Joined) :
  0 < maxWords ->
  In c (QuizWords.joined userId d) ->
  uw_bucket (snd c) = "needs work" ->
  (forall x, In x (QuizWords.joined userId d) ->
             QuizWords.bucket_case (uw_bucket (snd x)) <> None) ->
  exists first rest,
    QuizWords.select_quiz_words userId maxWords d = first :: rest /\
    uw_bucket (snd first) = "needs work" /\
    QuizWords.get_quiz_words userId maxWords d
    = QuizWords.json_words (map QuizWords.format (first :: rest))
                           (Z.of_nat (length (first :: rest))).
Proof.
  intros Hmax Hc Hbucket Hknown.
  cut (exists first rest,
         QuizWords.select_quiz_words userId maxWords d = first :: rest /\
         uw_bucket (snd first) = "needs work").
  { intros (first & rest & E & Hb). exists first, rest. repeat split; trivial.
    unfold QuizWords.get_quiz_words. rewrite E. cbv zeta.
    change (Nat.eqb (length (first :: rest)) 0) with false. cbv iota.
    now rewrite length_map. }
  unfold QuizWords.select_quiz_words, limit.
  destruct (maxWords <? 0) eqn:En; [apply Z.ltb_lt in En; lia|].
  pose proof (order_by_perm QuizWords.ranks_before (QuizWords.joined userId d)) as HP.
  pose proof (order_by_sorted QuizWords.ranks_before ranks_before_total
                ranks_before_trans (QuizWords.joined userId d)) as Hs.
  apply (Permutation_in _ (Permutation_sym HP)) in Hc.
  destruct (Sql.order_by QuizWords.ranks_before (QuizWords.joined userId d))
    as [|h t] eqn:E; [destruct Hc|].
  destruct (Z.to_nat maxWords) as [|n] eqn:En'; [lia|].
  exists h, (firstn n t). split; [reflexivity|].
  assert (Hh : QuizWords.bucket_case (uw_bucket (snd h)) <> None).
  { apply Hknown. apply (Permutation_in _ HP). now left. }
  destruct Hc as [<-|Hc]; [exact Hbucket|].
  apply StronglySorted_inv in Hs as [_ Hall].
  rewrite List.Forall_forall in Hall. specialize (Hall c Hc).
  unfold QuizWords.ranks_before in Hall. rewrite Hbucket in Hall.
  change (QuizWords.bucket_case "needs work") with (Some 1) in Hall.
  apply bucket_case_needs_work.
  destruct (QuizWords.bucket_case (uw_bucket (snd h))) as [k|] eqn:Ek; [|congruence].
  simpl in Hall.
  assert (Hk : k = 1 \/ k = 2 \/ k = 3).
  { unfold QuizWords.bucket_case in Ek.
    repeat match type of Ek with
           | (if ?b then _ else _) = _ => destruct b
           end; try discriminate Ek; injection Ek as <-; auto. }
  destruct (k =? 1) eqn:E1; [apply Z.eqb_eq in E1; now subst|].
  apply Z.eqb_neq in E1. apply Z.leb_le in Hall. lia.
Qed.

Lemma needs_work_comes_first_witness :
  exists first rest,
    QuizWords.select_quiz_words "user-1" 5 three_buckets = first :: rest /\
    uw_bucket (snd first) = "needs work" /\
    QuizWords.get_quiz_words "user-1" 5 three_buckets
    = QuizWords.json_words (map QuizWords.format (first :: rest))
                           (Z.of_nat (length (first :: rest))).
Proof.
  apply (needs_work_comes_first "user-1" 5 three_buckets
           (mkWordRow "word-2" "Ubiquitous" "Present, appearing, or found everywhere",
            mkUserWordRow "uw-2" "user-1" "word-2" "needs work" 1699990100 None 0 0 0)).
  - lia.
  - vm_compute. right. now left.
  - reflexivity.
  - intros x Hx. vm_compute in Hx.
    destruct Hx as [<-|[<-|[<-|[]]]]; discriminate.
Defined.

(** *** The daily statistics *)

Lemma later_first_total a b :
  DailyProgress.later_first a b = true \/ DailyProgress.later_first b a = true.
Proof. unfold DailyProgress.later_first. apply String.leb_total. Qed.

Lemma later_first_trans a b c :
  DailyProgress.later_first a b = true -> DailyProgress.later_first b c = true ->
  DailyProgress.later_first a c = true.
Proof.
  unfold DailyProgress.later_first. intros H1 H2.
  exact (string_leb_trans _ _ _ H2 H1).
Qed.

(** X9.  The daily statistics list rows of that user only, one response
    day per row with its three counters, at most [dayCount] of them when
    that number is not negative, latest date first; and every day of the
    user that is left out is no later than every day listed. *)
Theorem get_daily_latest_first userId dayCount d :
  let rows := DailyProgress.select_daily userId dayCount d in
  (forall p, In p rows -> In p (daily_progress d) /\ dp_user_id p = userId) /\
  (0 <= dayCount ->
   Z.of_nat (length (DailyProgress.get_daily userId dayCount d)) <= dayCount) /\
  StronglySorted (fun a b => String.leb (DailyProgress.date b) (DailyProgress.date a) = true)
                 (DailyProgress.get_daily userId dayCount d) /\
  (forall x y, In x (daily_progress d) -> dp_user_id x = userId ->
               ~ In x rows -> In y rows ->
               String.leb (dp_date x) (dp_date y) = true).
Proof.
  cbv zeta. unfold DailyProgress.get_daily, DailyProgress.select_daily.
  set (mine := List.filter (fun p => String.eqb (dp_user_id p) userId) (daily_progress d)).
  destruct (order_by_limit DailyProgress.later_first later_first_total later_first_trans
              dayCount mine) as (Hin & Hlen & Hsorted & Htop).
  cbv zeta in *. repeat split.
  - apply Hin in H. now apply List.filter_In in H.
  - apply Hin in H. apply List.filter_In in H as [_ H]. now apply String.eqb_eq.
  - intros Hpos. rewrite length_map. now apply Hlen.
  - clear Hin Hlen Htop.
    induction Hsorted as [|a l Hs IH Ha]; simpl; constructor; [exact IH|].
    rewrite List.Forall_forall in *. intros y Hy.
    apply in_map_iff in Hy as (p & <- & Hp). simpl. exact (Ha p Hp).
  - intros x y Hx Hu Hnot Hy. apply (Htop x y); trivial.
    apply List.filter_In. split; [exact Hx | now apply String.eqb_eq].
Qed.

Lemma get_daily_latest_first_witness :
  Z.of_nat (length (DailyProgress.get_daily "user-1" 7 ProgressSpec.after_quiz)) <= 7.
Proof.
  apply (get_daily_latest_first "user-1" 7 ProgressSpec.after_quiz). lia.
Defined.

End RouteFacts.

(** ** The progress tables over time *)

Module HistoryFacts.

Import Js Progress ProgressSpec HistorySpec ProgressFacts.

(** *** What each handler does to the tables *)

(** Apply a statement about any final state to the one in the goal. *)
Ltac apply_to_state H d :=
  match goal with
  | |- _ /\ _ /\ _ /\ (?X = d \/ _) => apply (H X)
  end.

Lemma save_word_effect rt env userId wordId d :
  let d' := fst (save_word rt env userId wordId d) in
  words d' = words d /\ users d' = users d /\ quiz_results d' = quiz_results d /\
  cached_articles d' = cached_articles d /\
  (d' = d \/
   (truthy userId = true /\ truthy wordId = true /\
    select_user_word userId wordId d = None /\
    pk_taken uw_id (fresh_id env) (user_words d) = false /\
    user_words d' = (user_words d ++ [saved_row env userId wordId])%list /\
    daily_effect add_words_saved (first_of_day env userId 1 0) env userId d d')).
Proof.
  cbv zeta. unfold save_word. unfold_handler.
  destruct (truthy userId); [|simpl; auto 6].
  destruct (truthy wordId); [|simpl; auto 6].
  simpl.
  destruct (select_first (fun r => String.eqb (w_id r) wordId) (words d));
    [|simpl; auto 6].
  destruct (select_user_word userId wordId d) eqn:Hsel; [simpl; auto 6|].
  destruct (pk_taken uw_id (fresh_id env) (user_words d)) eqn:Hpk; [simpl; auto 6|].
  destruct (foreign_keys rt && _); [simpl; auto 6|].
  change (select_daily_progress userId (today env) (set_user_words ?f d))
    with (select_daily_progress userId (today env) d).
  destruct (select_daily_progress userId (today env) d) as [p|] eqn:Hday.
  - simpl. repeat split; trivial. right. repeat split; trivial.
    right. left. exists p. now split.
  - cbn [daily_progress set_user_words].
    destruct (pk_taken dp_id (progress_id env) (daily_progress d)) eqn:Hdp.
    + simpl. repeat split; trivial. right. repeat split; trivial. now left.
    + destruct (foreign_keys rt && _).
      * simpl. repeat split; trivial. right. repeat split; trivial. now left.
      * simpl. repeat split; trivial. right. repeat split; trivial.
        right. right. now repeat split.
Qed.

Lemma quiz_result_effect rt env userId wordId isCorrect d :
  let d' := fst (quiz_result rt env userId wordId isCorrect d) in
  words d' = words d /\ users d' = users d /\ cached_articles d' = cached_articles d /\
  (d' = d \/
   exists correct,
     isCorrect = Some correct /\
     pk_taken qr_id (fresh_id env) (quiz_results d) = false /\
     quiz_results d' = (quiz_results d ++ [result_row env userId wordId correct])%list /\
     ((select_user_word userId wordId d = None /\
       user_words d' = user_words d /\ daily_progress d' = daily_progress d) \/
      (exists uw,
         select_user_word userId wordId d = Some uw /\
         user_words d' =
           update_where (fun r => String.eqb (uw_id r) (uw_id uw))
             (reviewed (newBucket (uw_bucket uw) correct) correct (now env))
             (user_words d) /\
         daily_effect add_words_reviewed (first_of_day env userId 0 1)
                      env userId d d'))).
Proof.
  cbv zeta. unfold quiz_result. unfold_handler.
  destruct isCorrect as [correct|]; [|simpl; auto 6].
  destruct (truthy userId); [|simpl; auto 6].
  destruct (truthy wordId); [|simpl; auto 6].
  simpl.
  destruct (select_first (fun r => String.eqb (u_id r) userId) (users d));
    [|simpl; auto 6].
  destruct (select_first (fun r => String.eqb (w_id r) wordId) (words d));
    [|simpl; auto 6].
  destruct (pk_taken qr_id (fresh_id env) (quiz_results d)) eqn:Hpk; [simpl; auto 6|].
  change (select_user_word userId wordId (set_quiz_results ?f d))
    with (select_user_word userId wordId d).
  destruct (select_user_word userId wordId d) as [uw|] eqn:Hsel.
  2:{ simpl. repeat split; trivial. right. exists correct. repeat split; trivial.
      now left. }
  change (select_daily_progress userId (today env)
            (set_user_words ?f (set_quiz_results ?g d)))
    with (select_daily_progress userId (today env) d).
  assert (Hgoal : forall d' : DB,
            words d' = words d -> users d' = users d ->
            cached_articles d' = cached_articles d ->
            quiz_results d' = (quiz_results d ++ [result_row env userId wordId correct])%list ->
            user_words d' =
              update_where (fun r => String.eqb (uw_id r) (uw_id uw))
                (reviewed (newBucket (uw_bucket uw) correct) correct (now env))
                (user_words d) ->
            daily_effect add_words_reviewed (first_of_day env userId 0 1) env userId d d' ->
            words d' = words d /\ users d' = users d /\
            cached_articles d' = cached_articles d /\
            (d' = d \/
             exists c, Some correct = Some c /\ false = false /\
               quiz_results d' = (quiz_results d ++ [result_row env userId wordId c])%list /\
               ((Some uw = None /\ user_words d' = user_words d /\
                 daily_progress d' = daily_progress d) \/
                (exists uw0, Some uw = Some uw0 /\
                   user_words d' =
                     update_where (fun r => String.eqb (uw_id r) (uw_id uw0))
                       (reviewed (newBucket (uw_bucket uw0) c) c (now env))
                       (user_words d) /\
                   daily_effect add_words_reviewed (first_of_day env userId 0 1)
                                env userId d d')))).
  { intros d' H1 H2 H3 H4 H5 H6. repeat split; trivial. right. exists correct.
    repeat split; trivial. right. exists uw. now repeat split. }
  destruct (select_daily_progress userId (today env) d) as [p|] eqn:Hday.
  - destruct (let_block_scoped rt); simpl; apply_to_state Hgoal d;
      trivial; right; left; exists p; now split.
  - cbn [daily_progress set_user_words set_quiz_results].
    destruct (pk_taken dp_id (progress_id env) (daily_progress d)) eqn:Hdp.
    + simpl. apply_to_state Hgoal d; trivial. now left.
    + destruct (foreign_keys rt && _).
      * simpl. apply_to_state Hgoal d; trivial. now left.
      * destruct (let_block_scoped rt); simpl; apply_to_state Hgoal d;
          trivial; right; right; now repeat split.
Qed.

Lemma post_user_effect env deviceId d :
  let d' := fst (post_user env deviceId d) in
  words d' = words d /\ user_words d' = user_words d /\
  quiz_results d' = quiz_results d /\ daily_progress d' = daily_progress d /\
  cached_articles d' = cached_articles d /\
  (users d' = users d \/
   (select_first (fun r => String.eqb (u_device_id r) deviceId) (users d) = None /\
    pk_taken u_id (fresh_id env) (users d) = false /\
    users d' = (users d ++ [mkUserRow (fresh_id env) deviceId (unixepoch (now env))])%list) \/
   (exists u,
      select_first (fun r => String.eqb (u_device_id r) deviceId) (users d) = Some u /\
      users d' = update_where (fun r => String.eqb (u_id r) (u_id u))
                   (fun r => mkUserRow (u_id r) (u_device_id r) (unixepoch (now env)))
                   (users d))).
Proof.
  cbv zeta. unfold post_user. unfold_handler.
  destruct (truthy deviceId); [|simpl; auto 7].
  simpl.
  destruct (select_first (fun r => String.eqb (u_device_id r) deviceId) (users d))
    as [u|] eqn:Hsel.
  - simpl. repeat split; trivial. right. right. exists u. now split.
  - destruct (pk_taken u_id (fresh_id env) (users d)) eqn:Hpk; simpl.
    + auto 7.
    + repeat split; trivial. right. left. now repeat split.
Qed.

End HistoryFacts.

(** ** The ledger kept by the progress routes *)

Module LedgerFacts.

Import Js Progress ProgressSpec HistorySpec LedgerSpec.

(** *** Rows, keys and counts *)

Lemma map_update_where {Row K} (key : Row -> K) (p : Row -> bool) (f : Row -> Row)
    (rows : list Row) :
  (forall r, key (f r) = key r) -> map key (update_where p f rows) = map key rows.
Proof.
  intros Hkey. unfold update_where. rewrite map_map. apply map_ext.
  intros r. destruct (p r); [apply Hkey | reflexivity].
Qed.

Lemma pk_free_fresh {Row} (key : Row -> string) (k : string) (rows : list Row) :
  pk_taken key k rows = false -> ~ In k (map key rows).
Proof.
  unfold pk_taken. intros Hpk Hin. apply in_map_iff in Hin as (r & E & Hr).
  rewrite <- not_true_iff_false in Hpk. apply Hpk.
  apply existsb_exists. exists r. split; [exact Hr | now apply String.eqb_eq].
Qed.

Lemma NoDup_snoc {K} (l : list K) (x : K) :
  List.NoDup l -> ~ In x l -> List.NoDup (l ++ [x]).
Proof.
  intros Hnd Hx. apply List.NoDup_app; trivial.
  - repeat constructor. intros [].
  - intros i Hi [<-|[]]. exact (Hx Hi).
Qed.

Lemma NoDup_key_snoc {Row} (key : Row -> string) (rows : list Row) (r : Row) :
  List.NoDup (map key rows) -> pk_taken key (key r) rows = false ->
  List.NoDup (map key (rows ++ [r])).
Proof.
  intros Hnd Hpk. rewrite map_app. apply NoDup_snoc; trivial.
  now apply pk_free_fresh.
Qed.

Lemma select_first_In {Row} (p : Row -> bool) (rows : list Row) (r : Row) :
  select_first p rows = Some r -> In r rows /\ p r = true.
Proof. intros H. exact (List.find_some p rows H). Qed.

Lemma no_day_not_listed userId date d :
  select_daily_progress userId date d = None ->
  ~ In (userId, date) (map day_of (daily_progress d)).
Proof.
  intros Hnone Hin. apply in_map_iff in Hin as (r & E & Hr).
  pose proof (CacheFacts.select_first_none_In _ _ r Hnone Hr) as Hp. simpl in Hp.
  unfold day_of in E. injection E as E1 E2.
  rewrite E1, E2, !String.eqb_refl in Hp. discriminate Hp.
Qed.

Lemma no_pair_not_listed userId wordId d :
  select_user_word userId wordId d = None ->
  ~ In (userId, wordId) (map pair_of (user_words d)).
Proof.
  intros Hnone Hin. apply in_map_iff in Hin as (r & E & Hr).
  exact (ProgressFacts.select_user_word_none_pair _ _ _ _ Hnone Hr E).
Qed.

Lemma no_device_not_listed deviceId (rows : list UserRow) :
  select_first (fun r => String.eqb (u_device_id r) deviceId) rows = None ->
  ~ In deviceId (map u_device_id rows).
Proof.
  intros Hnone Hin. apply in_map_iff in Hin as (r & E & Hr).
  pose proof (CacheFacts.select_first_none_In _ _ r Hnone Hr) as Hp. simpl in Hp.
  rewrite E, String.eqb_refl in Hp. discriminate Hp.
Qed.

(** *** The declared keys *)

Lemma daily_effect_keys bump fresh env userId d d' :
  (forall r, dp_id (bump r) = dp_id r /\ day_of (bump r) = day_of r) ->
  dp_id fresh = progress_id env -> day_of fresh = (userId, today env) ->
  daily_effect bump fresh env userId d d' ->
  List.NoDup (map dp_id (daily_progress d)) ->
  List.NoDup (map day_of (daily_progress d)) ->
  List.NoDup (map dp_id (daily_progress d')) /\
  List.NoDup (map day_of (daily_progress d')).
Proof.
  intros Hbump Hid Hday [E | [(p & Hp & E) | (Hnone & Hpk & E)]] Hids Hdays;
    rewrite E.
  - now split.
  - rewrite !map_update_where; [now split | |]; intros r; apply Hbump.
  - split.
    + apply NoDup_key_snoc; trivial. now rewrite Hid.
    + rewrite map_app. apply NoDup_snoc; trivial. simpl. rewrite Hday.
      now apply no_day_not_listed.
Qed.

Lemma keys_post_user env deviceId d :
  keys_hold d -> keys_hold (fst (post_user env deviceId d)).
Proof.
  intros [K1 K2 K3 K4 K5 K6 K7].
  destruct (HistoryFacts.post_user_effect env deviceId d)
    as (_ & E2 & E3 & E4 & _ & Hu).
  cbv zeta in *. split; rewrite ?E2, ?E3, ?E4; trivial.
  - destruct Hu as [E | [(Hnone & Hpk & E) | (u & Hu & E)]]; rewrite E; trivial.
    + now apply NoDup_key_snoc.
    + now rewrite map_update_where.
  - destruct Hu as [E | [(Hnone & Hpk & E) | (u & Hu & E)]]; rewrite E; trivial.
    + rewrite map_app. apply NoDup_snoc; trivial. simpl.
      now apply no_device_not_listed.
    + now rewrite map_update_where.
Qed.

Lemma keys_save_word rt env userId wordId d :
  keys_hold d -> keys_hold (fst (save_word rt env userId wordId d)).
Proof.
  intros [K1 K2 K3 K4 K5 K6 K7].
  destruct (HistoryFacts.save_word_effect rt env userId wordId d)
    as (_ & E1 & E2 & _ & Hd).
  cbv zeta in *.
  destruct Hd as [E | (_ & _ & Hnone & Hpk & Ew & Hday)].
  { rewrite E. now split. }
  destruct (daily_effect_keys add_words_saved (first_of_day env userId 1 0)
              env userId d _ (fun r => conj eq_refl eq_refl) eq_refl eq_refl
              Hday K6 K7) as [K6' K7'].
  split; rewrite ?E1, ?E2, ?Ew; trivial.
  - now apply NoDup_key_snoc.
  - rewrite map_app. apply NoDup_snoc; trivial. simpl.
    now apply no_pair_not_listed.
Qed.

Lemma keys_quiz_result rt env userId wordId isCorrect d :
  keys_hold d -> keys_hold (fst (quiz_result rt env userId wordId isCorrect d)).
Proof.
  intros [K1 K2 K3 K4 K5 K6 K7].
  destruct (HistoryFacts.quiz_result_effect rt env userId wordId isCorrect d)
    as (_ & E1 & _ & Hd).
  cbv zeta in *.
  destruct Hd as [E | (c & _ & Hpk & Eq & Hd)].
  { rewrite E. now split. }
  destruct Hd as [(_ & Ew & Ep) | (uw & Huw & Ew & Hday)].
  - split; rewrite ?E1, ?Eq, ?Ew, ?Ep; trivial. now apply NoDup_key_snoc.
  - destruct (daily_effect_keys add_words_reviewed (first_of_day env userId 0 1)
                env userId d _ (fun r => conj eq_refl eq_refl) eq_refl eq_refl
                Hday K6 K7) as [K6' K7'].
    split; rewrite ?E1, ?Eq, ?Ew; trivial.
    + now rewrite map_update_where.
    + now rewrite map_update_where.
    + now apply NoDup_key_snoc.
Qed.

Lemma evolves_keys rt d0 d : keys_hold d0 -> evolves rt d0 d -> keys_hold d.
Proof.
  intros H0 Hev. induction Hev.
  - exact H0.
  - now apply keys_post_user.
  - now apply keys_save_word.
  - now apply keys_quiz_result.
Qed.

Lemma seeded_keys : keys_hold seeded.
Proof. split; simpl; constructor. Qed.

(** *** The values of the columns *)

Lemma newBucket_is_bucket bucket correct :
  is_bucket bucket -> is_bucket (newBucket bucket correct).
Proof.
  unfold is_bucket, newBucket. destruct correct; [|now left].
  intros [-> | [-> | ->]]; simpl; auto.
Qed.

Lemma Forall_snoc {A} (P : A -> Prop) (l : list A) (x : A) :
  Forall P l -> P x -> Forall P (l ++ [x]).
Proof. intros Hl Hx. apply Forall_app. split; [exact Hl | now constructor]. Qed.

Lemma Forall_update_where {Row} (P : Row -> Prop) (p : Row -> bool) (f : Row -> Row)
    (rows : list Row) :
  Forall P rows -> (forall r, In r rows -> p r = true -> P (f r)) ->
  Forall P (update_where p f rows).
Proof.
  intros Hrows Hf. unfold update_where. rewrite List.Forall_forall in *.
  intros y Hy. apply in_map_iff in Hy as (r & <- & Hr).
  destruct (p r) eqn:E; [now apply Hf | now apply Hrows].
Qed.

Lemma evolves_values rt d0 d : values_hold d0 -> evolves rt d0 d -> values_hold d.
Proof.
  intros H0 Hev. induction Hev as [|env deviceId d Hev IH|env userId wordId d Hev IH
                                  |env userId wordId isCorrect d Hev IH].
  - exact H0.
  - destruct IH as [Hb Hc].
    destruct (HistoryFacts.post_user_effect env deviceId d)
      as (_ & E2 & E3 & _). cbv zeta in *.
    split; [now rewrite E2 | now rewrite E3].
  - destruct IH as [Hb Hc].
    destruct (HistoryFacts.save_word_effect rt env userId wordId d)
      as (_ & _ & E2 & _ & Hd). cbv zeta in *.
    destruct Hd as [E | (_ & _ & _ & _ & Ew & _)]; [rewrite E; now split|].
    split; [|now rewrite E2].
    rewrite Ew. apply Forall_snoc; [exact Hb | now left].
  - destruct IH as [Hb Hc].
    destruct (HistoryFacts.quiz_result_effect rt env userId wordId isCorrect d)
      as (_ & _ & _ & Hd). cbv zeta in *.
    destruct Hd as [E | (c & _ & _ & Eq & Hd)]; [rewrite E; now split|].
    assert (Hc' : Forall (fun q => qr_is_correct q = 0 \/ qr_is_correct q = 1)
                    (quiz_results (fst (quiz_result rt env userId wordId isCorrect d)))).
    { rewrite Eq. apply Forall_snoc; [exact Hc|]. simpl. destruct c; auto. }
    split; [|exact Hc'].
    destruct Hd as [(_ & Ew & _) | (uw & Huw & Ew & _)]; rewrite Ew; [exact Hb|].
    apply Forall_update_where; [exact Hb|]. intros r _ _. simpl.
    apply newBucket_is_bucket.
    apply select_first_In in Huw as [Huw _].
    rewrite List.Forall_forall in Hb. now apply Hb.
Qed.

Lemma evolves_quizzes_completed rt d0 d :
  Forall (fun p => dp_quizzes_completed p = 0) (daily_progress d0) ->
  evolves rt d0 d ->
  Forall (fun p => dp_quizzes_completed p = 0) (daily_progress d).
Proof.
  intros H0 Hev. induction Hev as [|env deviceId d Hev IH|env userId wordId d Hev IH
                                  |env userId wordId isCorrect d Hev IH].
  - exact H0.
  - destruct (HistoryFacts.post_user_effect env deviceId d)
      as (_ & _ & _ & E & _). cbv zeta in *. now rewrite E.
  - destruct (HistoryFacts.save_word_effect rt env userId wordId d)
      as (_ & _ & _ & _ & Hd). cbv zeta in *.
    destruct Hd as [E | (_ & _ & _ & _ & _ & Hday)]; [now rewrite E|].
    destruct Hday as [E | [(p & Hp & E) | (_ & _ & E)]]; rewrite E; trivial.
    + apply Forall_update_where; [exact IH|]. intros r Hr _. simpl.
      rewrite List.Forall_forall in IH. now apply IH.
    + now apply Forall_snoc.
  - destruct (HistoryFacts.quiz_result_effect rt env userId wordId isCorrect d)
      as (_ & _ & _ & Hd). cbv zeta in *.
    destruct Hd as [E | (c & _ & _ & _ & Hd)]; [now rewrite E|].
    destruct Hd as [(_ & _ & E) | (uw & _ & _ & Hday)]; [now rewrite E|].
    destruct Hday as [E | [(p & Hp & E) | (_ & _ & E)]]; rewrite E; trivial.
    + apply Forall_update_where; [exact IH|]. intros r Hr _. simpl.
      rewrite List.Forall_forall in IH. now apply IH.
    + now apply Forall_snoc.
Qed.

Lemma select_daily_In userId dayCount d p :
  In p (DailyProgress.select_daily userId dayCount d) ->
  In p (daily_progress d) /\ dp_user_id p = userId.
Proof.
  unfold DailyProgress.select_daily, limit. intros Hin.
  assert (Hin' : In p (Sql.order_by DailyProgress.later_first
                         (List.filter (fun p => String.eqb (dp_user_id p) userId)
                                      (daily_progress d)))).
  { destruct (dayCount <? 0); [exact Hin|].
    rewrite <- (firstn_skipn (Z.to_nat dayCount)). apply in_or_app. now left. }
  apply (Permutation_in _ (order_by_perm _ _)) in Hin'.
  apply List.filter_In in Hin' as [Hp Hu]. split; [exact Hp | now apply String.eqb_eq].
Qed.

(** *** Counting rows *)

Lemma count_snoc {Row} (p : Row -> bool) (rows : list Row) (x : Row) :
  count p (rows ++ [x]) = count p rows + (if p x then 1 else 0).
Proof.
  unfold count. rewrite List.filter_app, length_app. simpl.
  destruct (p x); simpl; lia.
Qed.

Lemma count_nonneg {Row} (p : Row -> bool) (rows : list Row) : 0 <= count p rows.
Proof. unfold count. lia. Qed.

Lemma filter_update_where {Row} (q p : Row -> bool) (f : Row -> Row) (rows : list Row) :
  (forall r, q (f r) = q r) ->
  List.filter q (update_where p f rows) = update_where p f (List.filter q rows).
Proof.
  intros Hq. unfold update_where. induction rows as [|a rows IH]; simpl; [reflexivity|].
  destruct (p a) eqn:Ep; rewrite ?Hq; destruct (q a); simpl; rewrite ?Ep, IH; reflexivity.
Qed.

Lemma count_update_where {Row} (q p : Row -> bool) (f : Row -> Row) (rows : list Row) :
  (forall r, q (f r) = q r) -> count q (update_where p f rows) = count q rows.
Proof.
  intros Hq. unfold count. rewrite filter_update_where by exact Hq.
  unfold update_where. now rewrite length_map.
Qed.

Lemma total_snoc {Row} (col : Row -> Z) (rows : list Row) (x : Row) :
  total col (rows ++ [x]) = total col rows + col x.
Proof. unfold total. induction rows as [|a rows IH]; simpl; lia. Qed.

Lemma total_filter_snoc {Row} (col : Row -> Z) (q : Row -> bool) (rows : list Row) (x : Row) :
  total col (List.filter q (rows ++ [x])) =
  total col (List.filter q rows) + (if q x then col x else 0).
Proof.
  rewrite List.filter_app. simpl. destruct (q x).
  - apply total_snoc.
  - rewrite app_nil_r. lia.
Qed.

Lemma update_where_absent {Row} (key : Row -> string) (k : string) (f : Row -> Row)
    (rows : list Row) :
  ~ In k (map key rows) ->
  update_where (fun r => String.eqb (key r) k) f rows = rows.
Proof.
  unfold update_where. induction rows as [|a rows IH]; simpl; intros Hk; [reflexivity|].
  destruct (String.eqb (key a) k) eqn:E.
  - apply String.eqb_eq in E. exfalso. apply Hk. now left.
  - f_equal. apply IH. intros Hin. apply Hk. now right.
Qed.

Lemma NoDup_key_eq {Row} (key : Row -> string) (rows : list Row) (a b : Row) :
  List.NoDup (map key rows) -> In a rows -> In b rows -> key a = key b -> a = b.
Proof.
  induction rows as [|x rows IH]; simpl; intros Hnd Ha Hb E; [destruct Ha|].
  apply List.NoDup_cons_iff in Hnd as [Hx Hnd].
  destruct Ha as [<-|Ha], Hb as [<-|Hb]; trivial.
  - exfalso. apply Hx. rewrite E. now apply in_map.
  - exfalso. apply Hx. rewrite <- E. now apply in_map.
  - now apply IH.
Qed.

Lemma total_update_same {Row} (col : Row -> Z) (q p : Row -> bool) (f : Row -> Row)
    (rows : list Row) :
  (forall r, q (f r) = q r) -> (forall r, col (f r) = col r) ->
  total col (List.filter q (update_where p f rows)) = total col (List.filter q rows).
Proof.
  intros Hq Hcol. rewrite filter_update_where by exact Hq.
  unfold update_where, total. induction (List.filter q rows) as [|a l IH]; simpl; trivial.
  rewrite IH. destruct (p a); rewrite ?Hcol; reflexivity.
Qed.

Lemma total_update_bump {Row} (key : Row -> string) (col : Row -> Z) (q : Row -> bool)
    (f : Row -> Row) (rows : list Row) (x : Row) :
  List.NoDup (map key rows) -> In x rows ->
  (forall r, q (f r) = q r) -> (forall r, col (f r) = col r + 1) ->
  total col (List.filter q (update_where (fun r => String.eqb (key r) (key x)) f rows)) =
  total col (List.filter q rows) + (if q x then 1 else 0).
Proof.
  intros Hnd Hx Hq Hcol. induction rows as [|a rows IH]; [destruct Hx|].
  simpl in Hnd. apply List.NoDup_cons_iff in Hnd as [Ha Hnd].
  change (update_where ?p f (a :: rows))
    with ((if p a then f a else a) :: update_where p f rows).
  cbv beta. destruct (String.eqb (key a) (key x)) eqn:E.
  - apply String.eqb_eq in E.
    assert (a = x) as <-.
    { destruct Hx as [Hx|Hx]; trivial. exfalso. apply Ha. rewrite E. now apply in_map. }
    rewrite update_where_absent by exact Ha.
    simpl. rewrite Hq. destruct (q a); simpl; rewrite ?Hcol; lia.
  - destruct Hx as [->|Hx]; [now rewrite String.eqb_refl in E|].
    simpl. destruct (q a); simpl; rewrite (IH Hnd Hx); lia.
Qed.

(** *** The counters of a saved word against the log *)

Lemma answers_same userId wordId k d d' :
  quiz_results d' = quiz_results d -> answers userId wordId k d' = answers userId wordId k d.
Proof. unfold answers. now intros ->. Qed.

Lemma answers_logged env userId wordId c u w k d d' :
  quiz_results d' = (quiz_results d ++ [result_row env userId wordId c])%list ->
  answers u w k d' =
  answers u w k d +
  (if String.eqb userId u && String.eqb wordId w && ((if c then 1 else 0) =? k)
   then 1 else 0).
Proof. unfold answers. intros ->. now rewrite count_snoc. Qed.

Lemma within_log_grows d d' r :
  (forall u w k, answers u w k d <= answers u w k d') ->
  within_log d r -> within_log d' r.
Proof.
  intros Hle [[H1 H2] [H3 H4]]. unfold within_log.
  pose proof (Hle (uw_user_id r) (uw_word_id r) 1).
  pose proof (Hle (uw_user_id r) (uw_word_id r) 0). lia.
Qed.

Lemma evolves_log rt d0 d : log_ok d0 -> evolves rt d0 d -> log_ok d.
Proof.
  intros H0 Hev. induction Hev as [|env deviceId d Hev IH|env userId wordId d Hev IH
                                  |env userId wordId isCorrect d Hev IH].
  - exact H0.
  - destruct IH as [Hk Hl]. split; [now apply keys_post_user|].
    destruct (HistoryFacts.post_user_effect env deviceId d)
      as (_ & E2 & E3 & _). cbv zeta in *. rewrite E2.
    eapply List.Forall_impl; [|exact Hl]. intros r. apply within_log_grows.
    intros u w k. rewrite (answers_same u w k _ _ E3). lia.
  - destruct IH as [Hk Hl]. split; [now apply keys_save_word|].
    destruct (HistoryFacts.save_word_effect rt env userId wordId d)
      as (_ & _ & E2 & _ & Hd). cbv zeta in *.
    destruct Hd as [E | (_ & _ & _ & _ & Ew & _)]; [now rewrite E|].
    assert (Hgrow : forall r, within_log d r ->
                      within_log (fst (save_word rt env userId wordId d)) r).
    { intros r. apply within_log_grows.
      intros u w k. rewrite (answers_same u w k _ _ E2). lia. }
    rewrite Ew. apply Forall_snoc.
    + eapply List.Forall_impl; [exact Hgrow | exact Hl].
    + unfold within_log, answers. simpl. split; split; try lia; apply count_nonneg.
  - destruct IH as [Hk Hl]. split; [now apply keys_quiz_result|].
    destruct (HistoryFacts.quiz_result_effect rt env userId wordId isCorrect d)
      as (_ & _ & _ & Hd). cbv zeta in *.
    destruct Hd as [E | (c & _ & _ & Eq & Hd)]; [now rewrite E|].
    set (d' := fst (quiz_result rt env userId wordId isCorrect d)) in *.
    assert (Hanswers : forall u w k,
              answers u w k d' =
              answers u w k d +
              (if String.eqb userId u && String.eqb wordId w && ((if c then 1 else 0) =? k)
               then 1 else 0)).
    { intros u w k. exact (answers_logged env userId wordId c u w k d d' Eq). }
    assert (Hgrow : forall r, within_log d r -> within_log d' r).
    { intros r. apply within_log_grows. intros u w k. rewrite Hanswers.
      destruct (_ && _); lia. }
    destruct Hd as [(_ & Ew & _) | (uw & Huw & Ew & _)]; rewrite Ew.
    + eapply List.Forall_impl; [exact Hgrow | exact Hl].
    + apply select_first_In in Huw as [Huw Hpair]. simpl in Hpair.
      apply andb_true_iff in Hpair as [Hu Hw]. apply String.eqb_eq in Hu, Hw.
      rewrite List.Forall_forall in Hl.
      apply Forall_update_where.
      * rewrite List.Forall_forall. intros r Hr. apply Hgrow, Hl, Hr.
      * intros r Hr Eid. apply String.eqb_eq in Eid.
        assert (r = uw) as ->
          by exact (NoDup_key_eq uw_id _ r uw (key_user_words d Hk) Hr Huw Eid).
        destruct (Hl uw Huw) as [[H1 H2] [H3 H4]].
        unfold within_log. simpl. rewrite !Hanswers, Hu, Hw, !String.eqb_refl.
        rewrite Hu, Hw in H2, H4. destruct c; simpl; lia.
Qed.

(** *** The daily counters against the tables *)

Lemma days_same d d' :
  user_words d' = user_words d -> quiz_results d' = quiz_results d ->
  daily_progress d' = daily_progress d ->
  days_within_tables d -> days_within_tables d'.
Proof.
  unfold days_within_tables, saved_over_days, reviewed_over_days, saved_words,
    given_answers.
  now intros -> -> ->.
Qed.

(** What one accepted event may do to the sums of a user: the table grows
    by one row of [userId], and the day's counter by at most as much. *)
Lemma daily_effect_sums bump fresh env userId d d' u :
  List.NoDup (map dp_id (daily_progress d)) ->
  Forall (fun p => 0 <= dp_words_saved p /\ 0 <= dp_words_reviewed p) (daily_progress d) ->
  (forall r, dp_user_id (bump r) = dp_user_id r) ->
  dp_user_id fresh = userId ->
  0 <= dp_words_saved fresh /\ 0 <= dp_words_reviewed fresh ->
  forall (ds dr : Z),
  (forall r, dp_words_saved (bump r) = dp_words_saved r + ds) ->
  (forall r, dp_words_reviewed (bump r) = dp_words_reviewed r + dr) ->
  dp_words_saved fresh = ds -> dp_words_reviewed fresh = dr ->
  (ds = 1 /\ dr = 0) \/ (ds = 0 /\ dr = 1) ->
  daily_effect bump fresh env userId d d' ->
  Forall (fun p => 0 <= dp_words_saved p /\ 0 <= dp_words_reviewed p) (daily_progress d') /\
  saved_over_days u d' <= saved_over_days u d + (if String.eqb userId u then ds else 0) /\
  reviewed_over_days u d' <= reviewed_over_days u d + (if String.eqb userId u then dr else 0).
Proof.
  intros Hnd Hpos Hbu Hfu Hfpos ds dr Hbs Hbr Hfs Hfr Hcase Heff.
  unfold saved_over_days, reviewed_over_days.
  destruct Heff as [E | [(p & Hp & E) | (_ & _ & E)]]; rewrite E.
  - split; [exact Hpos|]. destruct (String.eqb userId u); lia.
  - apply select_first_In in Hp as [Hp Hday]. simpl in Hday.
    apply andb_true_iff in Hday as [Hu _]. apply String.eqb_eq in Hu.
    assert (Hof : forall r, of_user u (bump r) = of_user u r).
    { intros r. unfold of_user. now rewrite Hbu. }
    assert (Hofp : of_user u p = String.eqb userId u).
    { unfold of_user. now rewrite Hu. }
    split.
    { apply Forall_update_where; [exact Hpos|]. intros r Hr _.
      rewrite List.Forall_forall in Hpos. destruct (Hpos r Hr).
      rewrite Hbs, Hbr. lia. }
    destruct Hcase as [[-> ->] | [-> ->]].
    + rewrite (total_update_bump dp_id dp_words_saved (of_user u) bump _ p Hnd Hp Hof Hbs).
      rewrite (total_update_same dp_words_reviewed (of_user u) _ bump _ Hof).
      * rewrite Hofp. destruct (String.eqb userId u); lia.
      * intros r. rewrite Hbr. lia.
    + rewrite (total_update_bump dp_id dp_words_reviewed (of_user u) bump _ p Hnd Hp Hof Hbr).
      rewrite (total_update_same dp_words_saved (of_user u) _ bump _ Hof).
      * rewrite Hofp. destruct (String.eqb userId u); lia.
      * intros r. rewrite Hbs. lia.
  - split; [now apply Forall_snoc|].
    rewrite !total_filter_snoc. unfold of_user. rewrite Hfu, Hfs, Hfr.
    destruct (String.eqb userId u); lia.
Qed.

Lemma evolves_days rt d0 d : days_ok d0 -> evolves rt d0 d -> days_ok d.
Proof.
  intros H0 Hev. induction Hev as [|env deviceId d Hev IH|env userId wordId d Hev IH
                                  |env userId wordId isCorrect d Hev IH].
  - exact H0.
  - destruct IH as [Hk Hl]. split; [now apply keys_post_user|].
    destruct (HistoryFacts.post_user_effect env deviceId d)
      as (_ & E2 & E3 & E4 & _). cbv zeta in *.
    exact (days_same d _ E2 E3 E4 Hl).
  - destruct IH as [Hk Hl]. split; [now apply keys_save_word|].
    destruct (HistoryFacts.save_word_effect rt env userId wordId d)
      as (_ & _ & E2 & _ & Hd). cbv zeta in *.
    destruct Hd as [E | (_ & _ & _ & _ & Ew & Hday)]; [now rewrite E|].
    destruct Hl as [Hpos Hl].
    set (d' := fst (save_word rt env userId wordId d)) in *.
    assert (Hsums := fun u =>
      daily_effect_sums add_words_saved (first_of_day env userId 1 0) env userId d d' u
        (key_progress d Hk) Hpos (fun r => eq_refl) eq_refl
        (conj (Z.le_0_1) (Z.le_refl 0)) 1 0
        (fun r => eq_refl) (fun r => eq_sym (Z.add_0_r _)) eq_refl eq_refl
        (or_introl (conj eq_refl eq_refl)) Hday).
    split; [exact (proj1 (Hsums EmptyString))|].
    intros u. destruct (Hsums u) as (_ & Hs & Hr). destruct (Hl u) as [Hs0 Hr0].
    unfold saved_words, given_answers in *. rewrite Ew, E2, count_snoc. simpl.
    destruct (String.eqb userId u); lia.
  - destruct IH as [Hk Hl]. split; [now apply keys_quiz_result|].
    destruct (HistoryFacts.quiz_result_effect rt env userId wordId isCorrect d)
      as (_ & _ & _ & Hd). cbv zeta in *.
    destruct Hd as [E | (c & _ & _ & Eq & Hd)]; [now rewrite E|].
    destruct Hl as [Hpos Hl].
    set (d' := fst (quiz_result rt env userId wordId isCorrect d)) in *.
    destruct Hd as [(_ & Ew & Ep) | (uw & Huw & Ew & Hday)].
    + split; [now rewrite Ep|]. intros u. destruct (Hl u) as [Hs0 Hr0].
      unfold saved_over_days, reviewed_over_days, saved_words, given_answers in *.
      rewrite Ep, Ew, Eq, count_snoc. simpl. destruct (String.eqb userId u); lia.
    + assert (Hsums := fun u =>
        daily_effect_sums add_words_reviewed (first_of_day env userId 0 1) env userId d d' u
          (key_progress d Hk) Hpos (fun r => eq_refl) eq_refl
          (conj (Z.le_refl 0) (Z.le_0_1)) 0 1
          (fun r => eq_sym (Z.add_0_r _)) (fun r => eq_refl) eq_refl eq_refl
          (or_intror (conj eq_refl eq_refl)) Hday).
      split; [exact (proj1 (Hsums EmptyString))|].
      intros u. destruct (Hsums u) as (_ & Hs & Hr). destruct (Hl u) as [Hs0 Hr0].
      unfold saved_words, given_answers in *.
      rewrite Ew, Eq, count_snoc, count_update_where by reflexivity. simpl.
      destruct (String.eqb userId u); lia.
Qed.

(** *** An accepted event and its day *)

Lemma select_first_snoc_hit {Row} (p : Row -> bool) (rows : list Row) (x : Row) :
  select_first p rows = None -> p x = true -> select_first p (rows ++ [x]) = Some x.
Proof.
  unfold select_first. induction rows as [|a rows IH]; simpl; intros Hnone Hx.
  - now rewrite Hx.
  - destruct (p a); [discriminate | now apply IH].
Qed.

Lemma select_first_snoc_miss {Row} (p : Row -> bool) (rows : list Row) (x : Row) :
  p x = false -> select_first p (rows ++ [x]) = select_first p rows.
Proof.
  unfold select_first. induction rows as [|a rows IH]; simpl; intros Hx.
  - now rewrite Hx.
  - destruct (p a); [reflexivity | now apply IH].
Qed.

Lemma counted_on_the_day bump fresh env userId d :
  (forall r, dp_user_id (bump r) = dp_user_id r /\ dp_date (bump r) = dp_date r) ->
  day_of fresh = (userId, today env) ->
  select_first (fun r => String.eqb (dp_user_id r) userId &&
                         String.eqb (dp_date r) (today env))
               (counted bump fresh env userId d) =
  Some match select_daily_progress userId (today env) d with
       | Some p => bump p
       | None => fresh
       end.
Proof.
  intros Hbump Hfresh. unfold counted.
  destruct (select_daily_progress userId (today env) d) as [p|] eqn:Hday.
  - unfold update_where. rewrite ProgressFacts.select_first_map.
    + unfold select_daily_progress in Hday. rewrite Hday. simpl.
      now rewrite String.eqb_refl.
    + intros r. destruct (String.eqb (dp_id r) (dp_id p)); trivial.
      destruct (Hbump r) as [-> ->]. reflexivity.
  - apply select_first_snoc_hit; [exact Hday|].
    unfold day_of in Hfresh. injection Hfresh as -> ->. now rewrite !String.eqb_refl.
Qed.

Lemma counted_elsewhere bump fresh env userId d u date :
  (forall r, dp_user_id (bump r) = dp_user_id r /\ dp_date (bump r) = dp_date r) ->
  day_of fresh = (userId, today env) ->
  List.NoDup (map dp_id (daily_progress d)) ->
  (u, date) <> (userId, today env) ->
  select_first (fun r => String.eqb (dp_user_id r) u && String.eqb (dp_date r) date)
               (counted bump fresh env userId d) =
  select_daily_progress u date d.
Proof.
  intros Hbump Hfresh Hnd Hother. unfold counted.
  destruct (select_daily_progress userId (today env) d) as [p|] eqn:Hday.
  - unfold update_where. rewrite ProgressFacts.select_first_map.
    + unfold select_daily_progress.
      destruct (select_first _ (daily_progress d)) as [x|] eqn:Hx; [|reflexivity].
      simpl. destruct (String.eqb (dp_id x) (dp_id p)) eqn:E; [|reflexivity].
      apply String.eqb_eq in E.
      apply select_first_In in Hx as [Hx Hqx], Hday as [Hp Hqp].
      assert (x = p) as -> by exact (NoDup_key_eq dp_id _ x p Hnd Hx Hp E).
      simpl in Hqx, Hqp.
      apply andb_true_iff in Hqx as [E1 E2], Hqp as [E3 E4].
      apply String.eqb_eq in E1, E2, E3, E4.
      exfalso. apply Hother. congruence.
    + intros r. destruct (String.eqb (dp_id r) (dp_id p)); trivial.
      destruct (Hbump r) as [-> ->]. reflexivity.
  - apply select_first_snoc_miss.
    unfold day_of in Hfresh. injection Hfresh as -> ->.
    apply not_true_iff_false. intros Hq.
    apply andb_true_iff in Hq as [E1 E2]. apply String.eqb_eq in E1, E2.
    apply Hother. congruence.
Qed.

Lemma save_word_new rt env userId wordId d :
  saveable rt env userId wordId d ->
  save_word rt env userId wordId d =
  (mkDB (words d) (users d) (user_words d ++ [saved_row env userId wordId])%list
        (quiz_results d) (cached_articles d)
        (counted add_words_saved (first_of_day env userId 1 0) env userId d),
   json_saved "Word saved successfully" (fresh_id env)).
Proof.
  intros (Hu & Hw & Hword & Hnone & Hpk & Hfk & Hday).
  apply ProgressFacts.exists_in_select in Hword as [w Hword].
  unfold save_word, counted. ProgressFacts.unfold_handler.
  rewrite Hu, Hw. simpl. rewrite Hword, Hnone, Hpk.
  assert (Hfk1 : foreign_keys rt &&
                 negb (exists_in u_id userId (users d) && exists_in w_id wordId (words d))
                 = false).
  { destruct (foreign_keys rt); [|reflexivity].
    rewrite (Hfk eq_refl). simpl.
    rewrite (ProgressFacts.exists_in_select_eq w_id), Hword. reflexivity. }
  rewrite Hfk1.
  change (select_daily_progress userId (today env) (set_user_words ?f d))
    with (select_daily_progress userId (today env) d).
  destruct (select_daily_progress userId (today env) d) as [p|] eqn:Ep.
  - reflexivity.
  - cbn [daily_progress set_user_words users]. rewrite (Hday Ep).
    assert (Hfk2 : foreign_keys rt && negb (exists_in u_id userId (users d)) = false).
    { destruct (foreign_keys rt); [|reflexivity]. now rewrite (Hfk eq_refl). }
    rewrite Hfk2. reflexivity.
Qed.

Lemma quiz_result_saved_tables rt env userId wordId correct d uw :
  accepted env userId wordId d ->
  select_user_word userId wordId d = Some uw ->
  day_writable env userId d ->
  fst (quiz_result rt env userId wordId (Some correct) d) =
  mkDB (words d) (users d)
       (update_where (fun r => String.eqb (uw_id r) (uw_id uw))
          (reviewed (newBucket (uw_bucket uw) correct) correct (now env))
          (user_words d))
       (quiz_results d ++ [result_row env userId wordId correct])%list
       (cached_articles d)
       (counted add_words_reviewed (first_of_day env userId 0 1) env userId d).
Proof.
  intros (Hu & Hw & Huser & Hword & Hpk) Huw Hday.
  assert (Huser' := Huser).
  apply ProgressFacts.exists_in_select in Huser as [u Huser], Hword as [w Hword].
  unfold quiz_result, counted. ProgressFacts.unfold_handler.
  rewrite Hu, Hw. simpl. rewrite Huser, Hword, Hpk.
  change (select_user_word userId wordId (set_quiz_results ?f d))
    with (select_user_word userId wordId d).
  rewrite Huw.
  change (select_daily_progress userId (today env)
            (set_user_words ?f (set_quiz_results ?g d)))
    with (select_daily_progress userId (today env) d).
  destruct (select_daily_progress userId (today env) d) as [p|] eqn:Ep.
  - destruct (let_block_scoped rt); reflexivity.
  - cbn [daily_progress set_user_words set_quiz_results users].
    rewrite (Hday Ep), Huser', andb_false_r.
    destruct (let_block_scoped rt); reflexivity.
Qed.

(** X10.  The handlers check none of the UNIQUE constraints of the schema
    before they write, apart from a SELECT of their own; all the same, in
    every database the progress routes produce from one in which the
    declared keys hold, the keys hold: ids are unique in each table, no
    device is registered twice, a user has one row per word and one row
    per day. *)
Theorem declared_keys_are_kept rt d0 d :
  keys_hold d0 -> evolves rt d0 d ->
  List.NoDup (map u_id (users d)) /\
  List.NoDup (map u_device_id (users d)) /\
  List.NoDup (map uw_id (user_words d)) /\
  List.NoDup (map pair_of (user_words d)) /\
  List.NoDup (map qr_id (quiz_results d)) /\
  List.NoDup (map dp_id (daily_progress d)) /\
  List.NoDup (map day_of (daily_progress d)).
Proof.
  intros H0 Hev. destruct (evolves_keys rt d0 d H0 Hev). repeat split; assumption.
Qed.

Lemma declared_keys_are_kept_witness :
  List.NoDup (map u_id (users day_one)) /\
  List.NoDup (map u_device_id (users day_one)) /\
  List.NoDup (map uw_id (user_words day_one)) /\
  List.NoDup (map pair_of (user_words day_one)) /\
  List.NoDup (map qr_id (quiz_results day_one)) /\
  List.NoDup (map dp_id (daily_progress day_one)) /\
  List.NoDup (map day_of (daily_progress day_one)).
Proof.
  apply (declared_keys_are_kept demo_rt seeded day_one).
  - split; simpl; constructor.
  - unfold day_one. repeat constructor.
Defined.

(** X11.  In every database the progress routes produce from one whose
    buckets and answers are well formed, every saved word is in one of the
    three buckets, so that the CASE expression of the quiz query is never
    NULL, and every logged answer is 0 or 1. *)
Theorem column_values_are_kept rt d0 d :
  values_hold d0 -> evolves rt d0 d ->
  (forall r, In r (user_words d) ->
     is_bucket (uw_bucket r) /\
     exists k, QuizWords.bucket_case (uw_bucket r) = Some k /\ 1 <= k <= 3) /\
  (forall q, In q (quiz_results d) -> qr_is_correct q = 0 \/ qr_is_correct q = 1).
Proof.
  intros H0 Hev. destruct (evolves_values rt d0 d H0 Hev) as [Hb Hc].
  rewrite List.Forall_forall in Hb, Hc. split; [|exact Hc].
  intros r Hr. split; [now apply Hb|].
  destruct (Hb r Hr) as [E | [E | E]]; rewrite E;
    [exists 1 | exists 2 | exists 3]; (split; [reflexivity | lia]).
Qed.

Lemma column_values_are_kept_witness :
  (forall r, In r (user_words day_one) ->
     is_bucket (uw_bucket r) /\
     exists k, QuizWords.bucket_case (uw_bucket r) = Some k /\ 1 <= k <= 3) /\
  (forall q, In q (quiz_results day_one) -> qr_is_correct q = 0 \/ qr_is_correct q = 1).
Proof.
  apply (column_values_are_kept demo_rt seeded day_one).
  - split; constructor.
  - unfold day_one. repeat constructor.
Defined.

(** X12.  No progress route writes [quizzes_completed]: when no row of
    [daily_progress] counts a completed quiz to begin with, every day that
    GET /api/progress/daily reports afterwards has [quizzesCompleted] 0,
    whatever was saved or answered in between. *)
Theorem quizzes_completed_is_never_counted rt d0 d userId dayCount day :
  Forall (fun p => dp_quizzes_completed p = 0) (daily_progress d0) ->
  evolves rt d0 d ->
  In day (DailyProgress.get_daily userId dayCount d) ->
  DailyProgress.quizzesCompleted day = 0.
Proof.
  intros H0 Hev Hday. unfold DailyProgress.get_daily in Hday.
  apply in_map_iff in Hday as (p & <- & Hp). simpl.
  apply select_daily_In in Hp as [Hp _].
  pose proof (evolves_quizzes_completed rt d0 d H0 Hev) as Hz.
  rewrite List.Forall_forall in Hz. now apply Hz.
Qed.

Lemma quizzes_completed_is_never_counted_witness :
  DailyProgress.quizzesCompleted (DailyProgress.mkDay "2023-11-14" 1 0 1) = 0.
Proof.
  apply (quizzes_completed_is_never_counted demo_rt seeded day_one "user-1" 7).
  - constructor.
  - unfold day_one. repeat constructor.
  - vm_compute. now left.
Defined.

Lemma NoDup_firstn {A} (k : nat) (l : list A) : List.NoDup l -> List.NoDup (firstn k l).
Proof.
  intros H. rewrite <- (firstn_skipn k l) in H. exact (List.NoDup_app_remove_r _ _ H).
Qed.

Lemma dates_of_user_distinct userId (rows : list DailyProgressRow) :
  List.NoDup (map day_of rows) ->
  List.NoDup (map dp_date (List.filter (fun p => String.eqb (dp_user_id p) userId) rows)).
Proof.
  induction rows as [|x rows IH]; simpl; intros Hnd; [constructor|].
  apply List.NoDup_cons_iff in Hnd as [Hx Hnd].
  destruct (String.eqb (dp_user_id x) userId) eqn:Eu; [|now apply IH].
  simpl. constructor; [|now apply IH].
  intros Hin. apply in_map_iff in Hin as (y & Ey & Hy).
  apply List.filter_In in Hy as [Hy Euy].
  apply String.eqb_eq in Eu, Euy.
  apply Hx. apply in_map_iff. exists y. split; [|exact Hy].
  unfold day_of. now rewrite Ey, Eu, Euy.
Qed.

(** X13.  In every database the progress routes produce from one in which
    the declared keys hold, GET /api/progress/daily reports each date at
    most once. *)
Theorem daily_reports_each_date_once rt d0 d userId dayCount :
  keys_hold d0 -> evolves rt d0 d ->
  List.NoDup (map DailyProgress.date (DailyProgress.get_daily userId dayCount d)).
Proof.
  intros H0 Hev. destruct (evolves_keys rt d0 d H0 Hev) as [_ _ _ _ _ _ Hdays].
  unfold DailyProgress.get_daily. rewrite map_map. simpl.
  unfold DailyProgress.select_daily.
  set (mine := List.filter _ (daily_progress d)).
  assert (Hsorted : List.NoDup (map dp_date (Sql.order_by DailyProgress.later_first mine))).
  { apply (Permutation_NoDup
             (Permutation_map dp_date
                (Permutation_sym (order_by_perm DailyProgress.later_first mine)))).
    now apply dates_of_user_distinct. }
  unfold limit. destruct (dayCount <? 0); [exact Hsorted|].
  rewrite <- firstn_map. now apply NoDup_firstn.
Qed.

Lemma daily_reports_each_date_once_witness :
  List.NoDup (map DailyProgress.date (DailyProgress.get_daily "user-1" 7 day_one)).
Proof.
  apply (daily_reports_each_date_once demo_rt seeded day_one "user-1" 7).
  - split; simpl; constructor.
  - unfold day_one. repeat constructor.
Defined.

(** X14.  The counters of a saved word never overstate the log: in every
    database the progress routes produce from one where this holds and
    the declared keys hold, [correct_count] of a row is at most the number
    of correct answers logged in [quiz_results] for its user and word, and
    [incorrect_count] at most the number of incorrect ones. *)
Theorem counters_stay_within_the_log rt d0 d r :
  keys_hold d0 -> Forall (within_log d0) (user_words d0) ->
  evolves rt d0 d -> In r (user_words d) ->
  0 <= uw_correct_count r <= answers (uw_user_id r) (uw_word_id r) 1 d /\
  0 <= uw_incorrect_count r <= answers (uw_user_id r) (uw_word_id r) 0 d.
Proof.
  intros Hk Hl Hev Hr.
  destruct (evolves_log rt d0 d (conj Hk Hl) Hev) as [_ Hall].
  rewrite List.Forall_forall in Hall. exact (Hall r Hr).
Qed.

Lemma counters_stay_within_the_log_witness :
  let r := mkUserWordRow "uw-1" "user-1" "word-1" "familiar" 1699990000
                         (Some 1700000000) 1 1 0 in
  0 <= uw_correct_count r <= answers (uw_user_id r) (uw_word_id r) 1 day_one /\
  0 <= uw_incorrect_count r <= answers (uw_user_id r) (uw_word_id r) 0 day_one.
Proof.
  apply (counters_stay_within_the_log demo_rt seeded day_one).
  - split; simpl; constructor.
  - constructor.
  - unfold day_one. repeat constructor.
  - vm_compute. now left.
Defined.

(** X15.  The daily counters never overstate the tables: in every
    database the progress routes produce from one where this holds and
    the declared keys hold, a user's [words_saved] summed over all days is
    at most the number of rows the user has in [user_words], and the
    user's [words_reviewed] summed over all days is at most the number of
    answers the user has in [quiz_results]. *)
Theorem daily_counters_stay_within_the_tables rt d0 d userId :
  keys_hold d0 -> days_within_tables d0 -> evolves rt d0 d ->
  saved_over_days userId d <= saved_words userId d /\
  reviewed_over_days userId d <= given_answers userId d.
Proof.
  intros Hk Hl Hev.
  destruct (evolves_days rt d0 d (conj Hk Hl) Hev) as [_ [_ Hall]].
  exact (Hall userId).
Qed.

Lemma daily_counters_stay_within_the_tables_witness :
  saved_over_days "user-1" day_one <= saved_words "user-1" day_one /\
  reviewed_over_days "user-1" day_one <= given_answers "user-1" day_one.
Proof.
  apply (daily_counters_stay_within_the_tables demo_rt seeded day_one "user-1").
  - split; simpl; constructor.
  - split; [constructor|]. intros u. vm_compute. split; discriminate.
  - unfold day_one. repeat constructor.
Defined.

(** X16.  Saving a new word that can be saved answers "Word saved
    successfully" with the new id, makes the word the user's saved row,
    and counts it once on its day: [words_saved] of the user's row for
    today goes up by one (from 0 when the day had no row), [words_reviewed]
    stays, and with unique ids in [daily_progress] the row of every other
    user and day is as it was. *)
Theorem saved_word_is_counted_on_its_day rt env userId wordId d :
  saveable rt env userId wordId d ->
  let d' := fst (save_word rt env userId wordId d) in
  snd (save_word rt env userId wordId d) =
    json_saved "Word saved successfully" (fresh_id env) /\
  select_user_word userId wordId d' = Some (saved_row env userId wordId) /\
  words_saved_on userId (today env) d' = words_saved_on userId (today env) d + 1 /\
  words_reviewed_on userId (today env) d' = words_reviewed_on userId (today env) d /\
  (List.NoDup (map dp_id (daily_progress d)) ->
   forall u date, (u, date) <> (userId, today env) ->
     select_daily_progress u date d' = select_daily_progress u date d).
Proof.
  intros Hok. cbv zeta. rewrite (save_word_new rt env userId wordId d Hok).
  destruct Hok as (_ & _ & _ & Hnone & _).
  cbn [fst snd]. split; [reflexivity|]. split.
  { unfold select_user_word. cbn [user_words].
    apply select_first_snoc_hit; [exact Hnone|]. simpl. now rewrite !String.eqb_refl. }
  assert (Hday := counted_on_the_day add_words_saved (first_of_day env userId 1 0)
                    env userId d (fun r => conj eq_refl eq_refl) eq_refl).
  unfold words_saved_on, words_reviewed_on.
  unfold select_daily_progress at 1 3. cbn [daily_progress]. rewrite Hday.
  repeat split.
  - destruct (select_daily_progress userId (today env) d); reflexivity.
  - destruct (select_daily_progress userId (today env) d); reflexivity.
  - intros Hnd u date Hother.
    exact (counted_elsewhere add_words_saved (first_of_day env userId 1 0) env userId d
             u date (fun r => conj eq_refl eq_refl) eq_refl Hnd Hother).
Qed.

Lemma saved_word_is_counted_on_its_day_witness :
  words_saved_on "user-1" "2023-11-14" saved_once =
  words_saved_on "user-1" "2023-11-14" registered + 1.
Proof.
  apply (saved_word_is_counted_on_its_day demo_rt save_env "user-1" "word-1" registered).
  repeat split; reflexivity.
Defined.

(** X17.  An accepted quiz result for a word the user has saved is logged
    as the last row of [quiz_results] and counted once on its day:
    [words_reviewed] of the user's row for today goes up by one (from 0
    when the day had no row), [words_saved] stays, and with unique ids in
    [daily_progress] the row of every other user and day is as it was. *)
Theorem answer_is_counted_on_its_day rt env userId wordId correct d uw :
  accepted env userId wordId d ->
  select_user_word userId wordId d = Some uw ->
  day_writable env userId d ->
  let d' := fst (quiz_result rt env userId wordId (Some correct) d) in
  quiz_results d' = (quiz_results d ++ [result_row env userId wordId correct])%list /\
  words_reviewed_on userId (today env) d' = words_reviewed_on userId (today env) d + 1 /\
  words_saved_on userId (today env) d' = words_saved_on userId (today env) d /\
  (List.NoDup (map dp_id (daily_progress d)) ->
   forall u date, (u, date) <> (userId, today env) ->
     select_daily_progress u date d' = select_daily_progress u date d).
Proof.
  intros Hacc Huw Hwr. cbv zeta.
  rewrite (quiz_result_saved_tables rt env userId wordId correct d uw Hacc Huw Hwr).
  split; [reflexivity|].
  assert (Hday := counted_on_the_day add_words_reviewed (first_of_day env userId 0 1)
                    env userId d (fun r => conj eq_refl eq_refl) eq_refl).
  unfold words_saved_on, words_reviewed_on.
  unfold select_daily_progress at 1 3. cbn [daily_progress]. rewrite Hday.
  repeat split.
  - destruct (select_daily_progress userId (today env) d); reflexivity.
  - destruct (select_daily_progress userId (today env) d); reflexivity.
  - intros Hnd u date Hother.
    exact (counted_elsewhere add_words_reviewed (first_of_day env userId 0 1) env userId d
             u date (fun r => conj eq_refl eq_refl) eq_refl Hnd Hother).
Qed.

Lemma answer_is_counted_on_its_day_witness :
  words_reviewed_on "user-1" "2023-11-14" day_one =
  words_reviewed_on "user-1" "2023-11-14" saved_once + 1.
Proof.
  apply (answer_is_counted_on_its_day demo_rt demo_env "user-1" "word-1" true saved_once
           (mkUserWordRow "uw-1" "user-1" "word-1" "needs work" 1699990000 None 0 0 0)).
  - repeat split; reflexivity.
  - reflexivity.
  - intros H. discriminate H.
Defined.

(** X18.  Registration is idempotent per device: once POST
    /api/progress/user has answered with a user id for a device, every
    later registration of the same device answers with the same id and
    adds no user; it only refreshes [last_active]. *)
Theorem registration_keeps_the_user env1 env2 deviceId d uid dev :
  snd (post_user env1 deviceId d) = json_user uid dev ->
  let d1 := fst (post_user env1 deviceId d) in
  dev = deviceId /\
  snd (post_user env2 deviceId d1) = json_user uid deviceId /\
  map u_id (users (fst (post_user env2 deviceId d1))) = map u_id (users d1) /\
  map u_device_id (users (fst (post_user env2 deviceId d1))) = map u_device_id (users d1).
Proof.
  cbv zeta.
  assert (Hagain : forall d1 u,
            select_first (fun r => String.eqb (u_device_id r) deviceId) (users d1) = Some u ->
            truthy deviceId = true ->
            snd (post_user env2 deviceId d1) = json_user (u_id u) deviceId /\
            map u_id (users (fst (post_user env2 deviceId d1))) = map u_id (users d1) /\
            map u_device_id (users (fst (post_user env2 deviceId d1))) =
              map u_device_id (users d1)).
  { intros d1 u Hsel Ht. unfold post_user. ProgressFacts.unfold_handler.
    rewrite Ht. simpl. rewrite Hsel. simpl.
    apply select_first_In in Hsel as [_ Hdev]. apply String.eqb_eq in Hdev.
    rewrite Hdev. repeat split; now apply map_update_where. }
  remember (post_user env2 deviceId) as again eqn:Eagain. clear Eagain.
  unfold post_user, handler, bind, gets, modify, ret, throw, insert_user.
  destruct (truthy deviceId) eqn:Ht; simpl; [|discriminate].
  destruct (select_first (fun r => String.eqb (u_device_id r) deviceId) (users d))
    as [u|] eqn:Hsel.
  - simpl. intros E. injection E as <- <-.
    assert (Hdev : u_device_id u = deviceId).
    { apply select_first_In in Hsel as [_ Hdev]. now apply String.eqb_eq. }
    split; [exact Hdev|].
    set (touch := fun r => mkUserRow (u_id r) (u_device_id r) (unixepoch (now env1))).
    set (g := fun r => if String.eqb (u_id r) (u_id u) then touch r else r).
    assert (Hsel1 : select_first (fun r => String.eqb (u_device_id r) deviceId)
                      (update_where (fun r => String.eqb (u_id r) (u_id u)) touch (users d))
                    = Some (g u)).
    { unfold update_where. rewrite ProgressFacts.select_first_map.
      - now rewrite Hsel.
      - intros r. now destruct (String.eqb (u_id r) (u_id u)). }
    destruct (Hagain (set_users (update_where (fun r => String.eqb (u_id r) (u_id u)) touch) d)
                (g u) Hsel1 eq_refl) as (H1 & H2 & H3).
    replace (u_id (g u)) with (u_id u) in H1
      by (unfold g; now destruct (String.eqb (u_id u) (u_id u))).
    now repeat split.
  - destruct (pk_taken u_id (fresh_id env1) (users d)); simpl; [discriminate|].
    intros E. injection E as <- <-. split; [reflexivity|].
    set (row := mkUserRow (fresh_id env1) deviceId (unixepoch (now env1))).
    assert (Hsel1 : select_first (fun r => String.eqb (u_device_id r) deviceId)
                      (users d ++ [row]) = Some row).
    { apply select_first_snoc_hit; [exact Hsel|]. simpl. apply String.eqb_refl. }
    exact (Hagain (set_users (fun rows => (rows ++ [row])%list) d) row Hsel1 eq_refl).
Qed.

Lemma registration_keeps_the_user_witness :
  snd (post_user demo_env "device-1" registered) = json_user "user-1" "device-1".
Proof.
  apply (registration_keeps_the_user register_env demo_env "device-1" seeded
           "user-1" "device-1").
  reflexivity.
Defined.

(** X19.  A request that a progress route answers with an error status
    (400 or 404) has no effect on the database. *)
Theorem refused_requests_change_nothing rt env d code error :
  (forall deviceId,
     snd (post_user env deviceId d) = status_json code error ->
     fst (post_user env deviceId d) = d) /\
  (forall userId wordId,
     snd (save_word rt env userId wordId d) = status_json code error ->
     fst (save_word rt env userId wordId d) = d) /\
  (forall userId wordId isCorrect,
     snd (quiz_result rt env userId wordId isCorrect d) = status_json code error ->
     fst (quiz_result rt env userId wordId isCorrect d) = d).
Proof.
  repeat split.
  - intros deviceId. unfold post_user. ProgressFacts.unfold_handler.
    repeat (ProgressFacts.split_match; simpl); trivial; discriminate.
  - intros userId wordId. unfold save_word. ProgressFacts.unfold_handler.
    repeat (ProgressFacts.split_match; simpl); trivial; discriminate.
  - intros userId wordId isCorrect. unfold quiz_result. ProgressFacts.unfold_handler.
    repeat (ProgressFacts.split_match; simpl); trivial; discriminate.
Qed.

Lemma refused_requests_change_nothing_witness :
  fst (save_word demo_rt demo_env "user-1" "word-9" registered) = registered.
Proof.
  apply (refused_requests_change_nothing demo_rt demo_env registered 404 "Word not found").
  reflexivity.
Defined.

End LedgerFacts.

(** ** The reports *)

Module ReportFacts.

Import Js Progress ProgressSpec HistorySpec LedgerSpec ReportSpec.

(** *** GROUP BY and the aggregates *)

Lemma distinct_In (k : string) (keys : list string) :
  In k (Stats.distinct keys) <-> In k keys.
Proof.
  induction keys as [|a keys IH]; simpl; [tauto|].
  rewrite List.filter_In, IH, negb_true_iff, String.eqb_neq.
  destruct (String.eqb_spec a k) as [->|Hne]; [tauto|].
  split; [tauto|]. intros [E|Hin]; [tauto|]. right. split; [exact Hin|].
  intros ->. now apply Hne.
Qed.

Lemma grouped_lookup {A} (f : string -> A) (l : list string) (m : gmap string A)
    (b : string) :
  fold_left (fun acc stat => <[fst stat := snd stat]> acc)
            (map (fun k => (k, f k)) l) m !! b =
  if in_dec String.string_dec b l then Some (f b) else m !! b.
Proof.
  revert m. induction l as [|a l IH]; intros m; simpl; [reflexivity|].
  rewrite IH. destruct (String.string_dec a b) as [->|Hne].
  - destruct (in_dec String.string_dec b l); [reflexivity|].
    rewrite lookup_insert. now destruct (decide (b = b)).
  - destruct (in_dec String.string_dec b l); [reflexivity|].
    rewrite lookup_insert. now destruct (decide (a = b)).
Qed.

Lemma count_where_positive {Row} (p : Row -> bool) (rows : list Row) (r : Row) :
  In r rows -> p r = true -> 0 < Stats.count_where p rows.
Proof.
  intros Hin Hp. unfold Stats.count_where.
  assert (Hf : In r (List.filter p rows)) by (apply List.filter_In; now split).
  destruct (List.filter p rows); [destruct Hf | simpl; lia].
Qed.

Lemma sum_of_indicator {Row} (p : Row -> bool) (rows : list Row) :
  Stats.or_zero (Stats.sum_of (fun r => if p r then 1 else 0) rows) =
  Stats.count_where p rows.
Proof.
  unfold Stats.count_where.
  assert (H : fold_right (fun r acc => (if p r then 1 else 0) + acc) 0 rows =
              Z.of_nat (length (List.filter p rows))).
  { induction rows as [|a rows IH]; simpl; [reflexivity|].
    rewrite IH. destruct (p a); simpl; lia. }
  destruct rows; [reflexivity | exact H].
Qed.

Lemma count_where_split {Row} (p q : Row -> bool) (rows : list Row) :
  Forall (fun r => xorb (p r) (q r) = true) rows ->
  Z.of_nat (length rows) = Stats.count_where p rows + Stats.count_where q rows.
Proof.
  unfold Stats.count_where. induction 1 as [|a rows Ha _ IH]; simpl; [reflexivity|].
  destruct (p a), (q a); simpl in *; try discriminate; lia.
Qed.

Lemma count_where_three (rows : list UserWordRow) :
  Forall (fun r => is_bucket (uw_bucket r)) rows ->
  Z.of_nat (length rows) =
  Stats.count_where (fun r => String.eqb (uw_bucket r) "needs work") rows +
  Stats.count_where (fun r => String.eqb (uw_bucket r) "familiar") rows +
  Stats.count_where (fun r => String.eqb (uw_bucket r) "well known") rows.
Proof.
  unfold Stats.count_where. induction 1 as [|a rows Ha _ IH]; simpl; [reflexivity|].
  destruct Ha as [-> | [-> | ->]]; simpl; lia.
Qed.

Lemma Forall_filter {A} (P : A -> Prop) (p : A -> bool) (l : list A) :
  Forall P l -> Forall P (List.filter p l).
Proof.
  rewrite !List.Forall_forall. intros H x Hx. apply List.filter_In in Hx as [Hx _].
  now apply H.
Qed.

Lemma in_bucket_counts userId d b :
  in_bucket b (Stats.get_stats userId d) =
  Stats.count_where (fun r => String.eqb (uw_bucket r) b) (saved_rows userId d).
Proof.
  unfold in_bucket, Stats.get_stats, Stats.bucketStats. cbn [Stats.wordsByBucket].
  fold (saved_rows userId d).
  rewrite (grouped_lookup
             (fun b => Stats.count_where (fun r => String.eqb (uw_bucket r) b)
                                         (saved_rows userId d))).
  destruct (in_dec String.string_dec b _) as [Hin|Hnin]; [reflexivity|].
  rewrite lookup_empty. simpl.
  unfold Stats.count_where.
  destruct (List.filter _ (saved_rows userId d)) as [|r l] eqn:E; [reflexivity|].
  exfalso. apply Hnin. apply distinct_In.
  assert (Hr : In r (List.filter (fun r => String.eqb (uw_bucket r) b) (saved_rows userId d)))
    by (rewrite E; now left).
  apply List.filter_In in Hr as [Hr Hb]. apply String.eqb_eq in Hb.
  rewrite <- Hb. now apply in_map.
Qed.

(** X20.  The statistics add up.  In every database the progress routes
    produce from one whose buckets and answers are well formed, GET
    /api/progress/stats reports for every user: as many quizzes as correct
    and incorrect answers together; only the three buckets as keys of
    [wordsByBucket], each with a positive count; and as many words in
    total as in the three buckets together. *)
Theorem statistics_add_up rt d0 d userId :
  values_hold d0 -> evolves rt d0 d ->
  let stats := Stats.get_stats userId d in
  Stats.totalQuizzes stats = Stats.correctAnswers stats + Stats.incorrectAnswers stats /\
  (forall b n, Stats.wordsByBucket stats !! b = Some n -> is_bucket b /\ 0 < n) /\
  Stats.totalWords stats =
    in_bucket "needs work" stats + in_bucket "familiar" stats +
    in_bucket "well known" stats.
Proof.
  intros H0 Hev. cbv zeta.
  destruct (LedgerFacts.evolves_values rt d0 d H0 Hev) as [Hb Hc].
  repeat split.
  - unfold Stats.get_stats.
    cbn [Stats.totalQuizzes Stats.correctAnswers Stats.incorrectAnswers].
    rewrite (sum_of_indicator (fun q => qr_is_correct q =? 1)),
            (sum_of_indicator (fun q => qr_is_correct q =? 0)).
    apply count_where_split. apply Forall_filter.
    eapply List.Forall_impl; [|exact Hc]. intros q [-> | ->]; reflexivity.
  - unfold Stats.get_stats, Stats.bucketStats in H. cbn [Stats.wordsByBucket] in H.
    fold (saved_rows userId d) in H.
    rewrite (grouped_lookup
               (fun b => Stats.count_where (fun r => String.eqb (uw_bucket r) b)
                                           (saved_rows userId d))) in H.
    destruct (in_dec String.string_dec b _) as [Hin|Hnin]; [|now rewrite lookup_empty in H].
    apply distinct_In, in_map_iff in Hin as (r & <- & Hr).
    apply List.filter_In in Hr as [Hr _].
    rewrite List.Forall_forall in Hb. now apply Hb.
  - unfold Stats.get_stats, Stats.bucketStats in H. cbn [Stats.wordsByBucket] in H.
    fold (saved_rows userId d) in H.
    rewrite (grouped_lookup
               (fun b => Stats.count_where (fun r => String.eqb (uw_bucket r) b)
                                           (saved_rows userId d))) in H.
    destruct (in_dec String.string_dec b _) as [Hin|Hnin]; [|now rewrite lookup_empty in H].
    injection H as <-.
    apply distinct_In, in_map_iff in Hin as (r & <- & Hr).
    apply (count_where_positive _ _ r Hr). apply String.eqb_refl.
  - rewrite !in_bucket_counts.
    unfold Stats.get_stats. cbn [Stats.totalWords]. unfold Stats.count_where at 1.
    fold (saved_rows userId d).
    apply count_where_three. unfold saved_rows. now apply Forall_filter.
Qed.

Lemma statistics_add_up_witness :
  let stats := Stats.get_stats "user-1" day_one in
  Stats.totalQuizzes stats = Stats.correctAnswers stats + Stats.incorrectAnswers stats /\
  (forall b n, Stats.wordsByBucket stats !! b = Some n -> is_bucket b /\ 0 < n) /\
  Stats.totalWords stats =
    in_bucket "needs work" stats + in_bucket "familiar" stats +
    in_bucket "well known" stats.
Proof.
  apply (statistics_add_up demo_rt seeded day_one "user-1").
  - split; constructor.
  - unfold day_one. repeat constructor.
Defined.

(** *** The saved words of a user *)

Lemma the_word_of (k : string) (ws : list WordRow) :
  List.NoDup (map w_id ws) -> exists_in w_id k ws = true ->
  exists w, List.filter (fun w => String.eqb k (w_id w)) ws = [w] /\ w_id w = k.
Proof.
  unfold exists_in. induction ws as [|a ws IH]; simpl; intros Hnd Hex; [discriminate|].
  apply List.NoDup_cons_iff in Hnd as [Ha Hnd].
  rewrite (String.eqb_sym k (w_id a)).
  destruct (String.eqb (w_id a) k) eqn:E.
  - apply String.eqb_eq in E. exists a. split; [|exact E]. f_equal.
    rewrite E in Ha. clear -Ha.
    induction ws as [|b ws IH]; simpl; [reflexivity|].
    destruct (String.eqb_spec k (w_id b)) as [->|_].
    + exfalso. apply Ha. now left.
    + apply IH. intros Hin. apply Ha. now right.
  - now apply IH.
Qed.

Lemma joined_word_ids userId d :
  List.NoDup (map w_id (words d)) ->
  Forall (refers_ok d) (user_words d) ->
  map (fun row => w_id (fst row)) (QuizWords.joined userId d) =
    map uw_word_id (saved_rows userId d) /\
  map snd (QuizWords.joined userId d) = saved_rows userId d.
Proof.
  intros Hnd Hrefs. unfold QuizWords.joined, saved_rows.
  apply (Forall_filter _ (fun r => String.eqb (uw_user_id r) userId)) in Hrefs.
  induction Hrefs as [|uw rows (_ & _ & Hex) _ IH]; simpl; [now split|].
  destruct (the_word_of (uw_word_id uw) (words d) Hnd Hex) as (w & -> & Hw).
  simpl. destruct IH as [-> ->]. now rewrite Hw.
Qed.

Lemma newer_first_total a b :
  SavedWords.newer_first a b = true \/ SavedWords.newer_first b a = true.
Proof. unfold SavedWords.newer_first. rewrite !Z.leb_le. lia. Qed.

Lemma newer_first_trans a b c :
  SavedWords.newer_first a b = true -> SavedWords.newer_first b c = true ->
  SavedWords.newer_first a c = true.
Proof. unfold SavedWords.newer_first. rewrite !Z.leb_le. lia. Qed.

(** X21.  In every database the progress routes can produce, with ids
    unique in [words], GET /api/progress/words lists each word the user
    has saved exactly once and no other, newest first; [count] is the
    number of the user's saved words, and every listed word has
    [reviewCount = correctCount + incorrectCount]. *)
Theorem saved_words_are_listed_once rt d userId :
  reachable rt d -> List.NoDup (map w_id (words d)) ->
  let reply := SavedWords.get_words userId d in
  Permutation (map SavedWords.sw_id (fst reply))
              (map uw_word_id (saved_rows userId d)) /\
  snd reply = saved_words userId d /\
  StronglySorted (fun a b => uw_created_at (snd b) <= uw_created_at (snd a))
                 (SavedWords.select_saved_words userId d) /\
  (forall w, In w (fst reply) ->
     SavedWords.sw_reviewCount w =
     SavedWords.sw_correctCount w + SavedWords.sw_incorrectCount w).
Proof.
  intros Hreach Hnd. cbv zeta.
  destruct (ProgressFacts.reachable_good rt d Hreach) as [Hcounts Hrefs _].
  destruct (joined_word_ids userId d Hnd Hrefs) as [Hids Hrows].
  pose proof (order_by_perm SavedWords.newer_first (QuizWords.joined userId d)) as Hperm.
  unfold SavedWords.get_words, SavedWords.select_saved_words. cbn [fst snd].
  repeat split.
  - rewrite map_map. cbn [SavedWords.format SavedWords.sw_id].
    rewrite <- Hids. now apply Permutation_map.
  - rewrite length_map, (Permutation_length Hperm).
    unfold saved_words, count. fold (saved_rows userId d).
    now rewrite <- Hrows, length_map.
  - pose proof (order_by_sorted SavedWords.newer_first newer_first_total newer_first_trans
                  (QuizWords.joined userId d)) as Hs.
    clear Hperm.
    induction Hs as [|a l Hs IH Ha]; constructor; [exact IH|].
    eapply List.Forall_impl; [|exact Ha]. intros b Hb.
    unfold SavedWords.newer_first in Hb. now apply Z.leb_le.
  - intros w Hw. apply in_map_iff in Hw as (row & <- & Hrow). simpl.
    apply (Permutation_in _ Hperm) in Hrow.
    assert (Hin : In (snd row) (saved_rows userId d)).
    { rewrite <- Hrows. now apply in_map. }
    apply List.filter_In in Hin as [Hin _].
    rewrite List.Forall_forall in Hcounts. exact (Hcounts _ Hin).
Qed.

Lemma saved_words_are_listed_once_witness :
  snd (SavedWords.get_words "user-1" ProgressSpec.after_quiz) =
  saved_words "user-1" ProgressSpec.after_quiz.
Proof.
  apply (saved_words_are_listed_once demo_rt ProgressSpec.after_quiz "user-1").
  - unfold after_quiz, after_save. apply reach_quiz, reach_save, reach_init. reflexivity.
  - simpl. repeat constructor. intros [].
Defined.

End ReportFacts.

(** ** The progress kept on the device *)

Module DeviceFacts.

Import Storage DeviceSpec.

(** *** Arrays *)

Lemma findIndex_Some {A} (p : A -> bool) (l : list A) (i : nat) :
  findIndex p l = Some i ->
  exists l1 x l2, l = (l1 ++ x :: l2)%list /\ length l1 = i /\ p x = true /\
                  Forall (fun y => p y = false) l1.
Proof.
  revert i. induction l as [|a l IH]; simpl; intros i H; [discriminate|].
  destruct (p a) eqn:Ea.
  - injection H as <-. exists [], a, l. repeat split; trivial.
  - destruct (findIndex p l) as [j|]; [|discriminate]. injection H as <-.
    destruct (IH j eq_refl) as (l1 & x & l2 & -> & <- & Hx & Hl1).
    exists (a :: l1), x, l2. repeat split; trivial. now constructor.
Qed.

Lemma findIndex_None {A} (p : A -> bool) (l : list A) :
  findIndex p l = None -> Forall (fun y => p y = false) l.
Proof.
  induction l as [|a l IH]; simpl; intros H; [constructor|].
  destruct (p a) eqn:Ea; [discriminate|].
  destruct (findIndex p l); [discriminate|]. constructor; auto.
Qed.

Lemma find_middle {A} (p : A -> bool) (l1 l2 : list A) (x : A) :
  Forall (fun y => p y = false) l1 -> p x = true ->
  List.find p (l1 ++ x :: l2)%list = Some x.
Proof.
  induction 1 as [|a l1 Ha _ IH]; simpl; intros Hx.
  - now rewrite Hx.
  - rewrite Ha. now apply IH.
Qed.

Lemma find_middle_other {A} (p : A -> bool) (l1 l2 : list A) (x y : A) :
  p x = false -> p y = false ->
  List.find p (l1 ++ x :: l2)%list = List.find p (l1 ++ y :: l2)%list.
Proof.
  intros Hx Hy. induction l1 as [|a l1 IH]; simpl.
  - now rewrite Hx, Hy.
  - now rewrite IH.
Qed.

Lemma insert_middle {A} (l1 l2 : list A) (x w : A) :
  <[length l1 := w]> (l1 ++ x :: l2)%list = (l1 ++ w :: l2)%list.
Proof. induction l1 as [|a l1 IH]; simpl; [reflexivity | now rewrite IH]. Qed.

Lemma alter_middle {A} (f : A -> A) (l1 l2 : list A) (x : A) :
  alter f (length l1) (l1 ++ x :: l2)%list = (l1 ++ f x :: l2)%list.
Proof. induction l1 as [|a l1 IH]; [reflexivity|]. cbn. f_equal. exact IH. Qed.

(** *** What [saveWord] writes *)

(** A word whose id is stored replaces the first word with that id and
    nothing else changes; a word whose id is not stored is appended and
    counted on its day. *)
Lemma saveWord_cases today w s :
  (exists l1 x l2,
     getWords s = (l1 ++ x :: l2)%list /\ id x = id w /\
     Forall (fun y => String.eqb (id y) (id w) = false) l1 /\
     saveWord today w s =
       mkAsyncStorage (Some (l1 ++ w :: l2)%list) (QUIZ_RESULTS_KEY s)
                      (DAILY_WORDS_KEY s)) \/
  (Forall (fun y => String.eqb (id y) (id w) = false) (getWords s) /\
   WORDS_KEY (saveWord today w s) = Some (getWords s ++ [w])%list /\
   QUIZ_RESULTS_KEY (saveWord today w s) = QUIZ_RESULTS_KEY s /\
   ((exists d1 x d2,
       getDailyWords s = (d1 ++ x :: d2)%list /\ date x = today /\
       DAILY_WORDS_KEY (saveWord today w s) =
         Some (d1 ++ mkDailyCount (date x) (count x + 1) :: d2)%list) \/
    (Forall (fun d => String.eqb (date d) today = false) (getDailyWords s) /\
     DAILY_WORDS_KEY (saveWord today w s) =
       Some (let pushed := (getDailyWords s ++ [mkDailyCount today 1])%list in
             if (7 <? length pushed)%nat then tail pushed else pushed)))).
Proof.
  unfold saveWord.
  destruct (findIndex (fun y => String.eqb (id y) (id w)) (getWords s)) as [i|] eqn:Ei.
  - left. destruct (findIndex_Some _ _ _ Ei) as (l1 & x & l2 & E & <- & Hx & Hl1).
    exists l1, x, l2. rewrite E, insert_middle.
    repeat split; trivial. now apply String.eqb_eq.
  - right. split; [now apply findIndex_None|].
    cbn [WORDS_KEY QUIZ_RESULTS_KEY DAILY_WORDS_KEY].
    change (getDailyWords (mkAsyncStorage ?a ?b (DAILY_WORDS_KEY s)))
      with (getDailyWords s).
    repeat split.
    destruct (findIndex (fun d => String.eqb (date d) today) (getDailyWords s))
      as [j|] eqn:Ej.
    + left. destruct (findIndex_Some _ _ _ Ej) as (d1 & x & d2 & E & <- & Hx & _).
      exists d1, x, d2. rewrite E at 2. rewrite alter_middle.
      repeat split; trivial. now apply String.eqb_eq.
    + right. split; [now apply findIndex_None | reflexivity].
Qed.

(** What [updateWordBucket] writes: the first word with the id, if there
    is one, is replaced by itself after the review. *)
Lemma updateWordBucket_cases now today wordId isCorrect s :
  (List.find (fun w => String.eqb (id w) wordId) (getWords s) = None /\
   updateWordBucket now today wordId isCorrect s = s) \/
  (exists l1 x l2,
     getWords s = (l1 ++ x :: l2)%list /\ id x = wordId /\
     Forall (fun y => String.eqb (id y) wordId = false) l1 /\
     updateWordBucket now today wordId isCorrect s =
       mkAsyncStorage (Some (l1 ++ after_review x isCorrect now :: l2)%list)
                      (QUIZ_RESULTS_KEY s) (DAILY_WORDS_KEY s)).
Proof.
  unfold updateWordBucket.
  destruct (List.find (fun w => String.eqb (id w) wordId) (getWords s)) as [x|] eqn:Ef;
    [right | now left].
  set (x' := mkWord _ _ _ _ _ _).
  assert (Hx' : x' = after_review x isCorrect now).
  { unfold x', after_review, Progress.newBucket. reflexivity. }
  destruct (List.find_some _ _ Ef) as [_ Hid]. apply String.eqb_eq in Hid.
  destruct (saveWord_cases today x' s)
    as [(l1 & y & l2 & E & Hy & Hl1 & Hsave) | (Hnone & _)].
  - change (id x') with (id x) in *. rewrite Hid in *.
    assert (y = x) as ->.
    { rewrite E in Ef. rewrite find_middle in Ef; [now injection Ef|exact Hl1|].
      rewrite Hy. apply String.eqb_refl. }
    exists l1, x, l2. rewrite <- Hx'. now repeat split.
  - exfalso. change (id x') with (id x) in Hnone. rewrite Hid in Hnone.
    destruct (List.find_some _ _ Ef) as [Hin Hp].
    rewrite List.Forall_forall in Hnone. rewrite (Hnone x Hin) in Hp. discriminate Hp.
Qed.

Lemma find_snoc_miss {A} (p : A -> bool) (l : list A) (x : A) :
  p x = false -> List.find p (l ++ [x]) = List.find p l.
Proof.
  intros Hx. induction l as [|a l IH]; simpl; [now rewrite Hx|].
  now destruct (p a).
Qed.

Lemma total_app {A} (col : A -> Z) (l1 l2 : list A) :
  HistorySpec.total col (l1 ++ l2) = HistorySpec.total col l1 + HistorySpec.total col l2.
Proof. unfold HistorySpec.total. induction l1 as [|a l1 IH]; simpl; lia. Qed.

Lemma id_not_stored (k : string) (l : list Word) :
  Forall (fun y => String.eqb (id y) k = false) l -> ~ In k (map id l).
Proof.
  rewrite List.Forall_forall. intros H Hin. apply in_map_iff in Hin as (y & <- & Hy).
  specialize (H y Hy). now rewrite String.eqb_refl in H.
Qed.

Lemma date_not_stored (k : string) (l : list DailyCount) :
  Forall (fun d => String.eqb (date d) k = false) l -> ~ In k (map date l).
Proof.
  rewrite List.Forall_forall. intros H Hin. apply in_map_iff in Hin as (y & <- & Hy).
  specialize (H y Hy). now rewrite String.eqb_refl in H.
Qed.

(** *** The window of daily counts *)

Lemma window_same s s' :
  length (getWords s') = length (getWords s) ->
  DAILY_WORDS_KEY s' = DAILY_WORDS_KEY s ->
  window_ok s -> window_ok s'.
Proof.
  intros Hw Hd [H1 H2 H3 H4].
  split; unfold getDailyWords in *; rewrite ?Hw, ?Hd; assumption.
Qed.

Lemma window_saveWord today w s : window_ok s -> window_ok (saveWord today w s).
Proof.
  intros [Hlen Hdates Hcounts Htotal].
  destruct (saveWord_cases today w s)
    as [(l1 & x & l2 & E & _ & _ & ->) | (_ & Ew & _ & Hdaily)].
  - apply (window_same s); [|reflexivity|now split].
    unfold getWords at 1. cbn [WORDS_KEY default from_option Datatypes.id].
    rewrite E, !length_app. reflexivity.
  - assert (Hwords : Z.of_nat (length (getWords (saveWord today w s))) =
                     Z.of_nat (length (getWords s)) + 1).
    { unfold getWords at 1. rewrite Ew. cbn [default from_option Datatypes.id]. rewrite length_app. simpl. lia. }
    destruct Hdaily as [(d1 & x & d2 & E & _ & Ed) | (Hnew & Ed)].
    + split; unfold getDailyWords at 1; rewrite ?Hwords, Ed; cbn [default from_option Datatypes.id];
        rewrite E in *.
      * rewrite length_app in *. exact Hlen.
      * rewrite map_app in *. exact Hdates.
      * apply Forall_app in Hcounts as [H1 H2]. apply Forall_app. split; [exact H1|].
        apply Forall_cons_iff in H2 as [Hx H2]. constructor; [simpl; lia | exact H2].
      * rewrite total_app in *. unfold HistorySpec.total in *. simpl in *. lia.
    + set (pushed := (getDailyWords s ++ [mkDailyCount today 1])%list) in *.
      assert (Hp1 : (length pushed <= 8)%nat).
      { unfold pushed. rewrite length_app. simpl. lia. }
      assert (Hp2 : List.NoDup (map date pushed)).
      { unfold pushed. rewrite map_app. apply LedgerFacts.NoDup_snoc; trivial.
        now apply date_not_stored. }
      assert (Hp3 : Forall (fun d => 1 <= count d) pushed).
      { apply LedgerFacts.Forall_snoc; [exact Hcounts | simpl; lia]. }
      assert (Hp4 : HistorySpec.total count pushed <=
                    Z.of_nat (length (getWords s)) + 1).
      { unfold pushed. rewrite total_app. unfold HistorySpec.total at 2. simpl. lia. }
      split; unfold getDailyWords at 1; rewrite ?Hwords, Ed; cbn [default from_option Datatypes.id].
      * destruct (Nat.ltb_spec 7 (length pushed)); [|lia].
        rewrite length_tl. lia.
      * destruct (7 <? length pushed)%nat; [|exact Hp2].
        destruct pushed; [constructor|]. simpl in *.
        now apply List.NoDup_cons_iff in Hp2.
      * destruct (7 <? length pushed)%nat; [|exact Hp3].
        destruct pushed; [constructor|]. simpl. now apply Forall_cons_iff in Hp3.
      * destruct (7 <? length pushed)%nat; [|exact Hp4].
        destruct pushed as [|a rest]; [exact Hp4|].
        apply Forall_cons_iff in Hp3 as [Ha _].
        unfold HistorySpec.total in *. simpl in *. lia.
Qed.

Lemma window_updateWordBucket now today wordId isCorrect s :
  window_ok s -> window_ok (updateWordBucket now today wordId isCorrect s).
Proof.
  intros Hok.
  destruct (updateWordBucket_cases now today wordId isCorrect s)
    as [[_ ->] | (l1 & x & l2 & E & _ & _ & ->)]; [exact Hok|].
  apply (window_same s); trivial.
  unfold getWords at 1. cbn [WORDS_KEY default from_option Datatypes.id]. rewrite E, !length_app. reflexivity.
Qed.

(** *** Words are kept by id *)

Lemma ids_saveWord today w s :
  List.NoDup (map id (getWords s)) -> List.NoDup (map id (getWords (saveWord today w s))).
Proof.
  intros Hnd.
  destruct (saveWord_cases today w s)
    as [(l1 & x & l2 & E & Hx & _ & ->) | (Hnone & Ew & _)].
  - unfold getWords at 1. cbn [WORDS_KEY default from_option Datatypes.id].
    rewrite E in Hnd. rewrite map_app in *. simpl in *. now rewrite <- Hx.
  - unfold getWords at 1. rewrite Ew. cbn [default from_option Datatypes.id]. rewrite map_app.
    apply LedgerFacts.NoDup_snoc; trivial. now apply id_not_stored.
Qed.

Lemma ids_updateWordBucket now today wordId isCorrect s :
  map id (getWords (updateWordBucket now today wordId isCorrect s)) = map id (getWords s).
Proof.
  destruct (updateWordBucket_cases now today wordId isCorrect s)
    as [[_ ->] | (l1 & x & l2 & E & _ & _ & ->)]; [reflexivity|].
  unfold getWords at 1. cbn [WORDS_KEY default from_option Datatypes.id]. rewrite E, !map_app. reflexivity.
Qed.

(** *** The quiz chosen on the device *)

Lemma insert_by_ext {Row} (leb leb' : Row -> Row -> bool) (r : Row) (l : list Row) :
  (forall y, In y l -> leb y r = leb' y r) ->
  Sql.insert_by leb r l = Sql.insert_by leb' r l.
Proof.
  induction l as [|a l IH]; simpl; intros H; [reflexivity|].
  rewrite <- (H a) by now left.
  destruct (leb a r); [|reflexivity]. f_equal. apply IH. intros y Hy. apply H. now right.
Qed.

Lemma order_by_ext {Row} (leb leb' : Row -> Row -> bool) (rows : list Row) :
  (forall a b, In a rows -> In b rows -> leb a b = leb' a b) ->
  Sql.order_by leb rows = Sql.order_by leb' rows.
Proof.
  unfold Sql.order_by. intros H.
  assert (Hgen : forall acc,
            (forall a b, In a (acc ++ rows) -> In b (acc ++ rows) -> leb a b = leb' a b) ->
            fold_left (fun acc r => Sql.insert_by leb r acc) rows acc =
            fold_left (fun acc r => Sql.insert_by leb' r acc) rows acc).
  { clear H. induction rows as [|r rows IH]; intros acc H; simpl; [reflexivity|].
    rewrite <- (insert_by_ext leb leb' r acc).
    - apply IH. intros a b Ha Hb.
      assert (Hsub : forall x, In x (Sql.insert_by leb r acc ++ rows) ->
                               In x (acc ++ r :: rows)).
      { intros x Hx. apply in_app_or in Hx as [Hx|Hx].
        - apply (Permutation_in _ (Permutation_sym (insert_by_perm leb r acc))) in Hx.
          destruct Hx as [<-|Hx]; apply in_or_app; [right; now left | now left].
        - apply in_or_app. right. now right. }
      apply H; now apply Hsub.
    - intros y Hy. apply H; apply in_or_app; [now left | right; now left]. }
  apply Hgen. exact H.
Qed.

Lemma stays_before_by_rank (a b : Word) :
  HistorySpec.is_bucket (bucket a) -> HistorySpec.is_bucket (bucket b) ->
  QuizGenerator.stays_before a b = by_rank a b.
Proof.
  unfold QuizGenerator.stays_before, QuizGenerator.compare, by_rank, rank.
  intros [-> | [-> | ->]] [-> | [-> | ->]]; reflexivity.
Qed.

Lemma by_rank_total a b : by_rank a b = true \/ by_rank b a = true.
Proof. unfold by_rank. rewrite !Z.leb_le. lia. Qed.

Lemma by_rank_trans a b c :
  by_rank a b = true -> by_rank b c = true -> by_rank a c = true.
Proof. unfold by_rank. rewrite !Z.leb_le. lia. Qed.

Lemma firstn_saturates {A} (k : nat) (l : list A) :
  firstn (Nat.min k (length l)) l = firstn k l.
Proof.
  destruct (Nat.le_ge_cases k (length l)) as [H|H].
  - now rewrite Nat.min_l.
  - rewrite Nat.min_r by exact H. rewrite firstn_all. symmetry. now apply firstn_all2.
Qed.

(** For a limit that is not negative, the selection is the sorted array
    cut at the limit. *)
Lemma selectWordsForQuiz_limit maxWords s :
  Forall (fun w => HistorySpec.is_bucket (bucket w)) (getWords s) -> 0 <= maxWords ->
  QuizGenerator.selectWordsForQuiz maxWords s =
  limit maxWords (Sql.order_by by_rank (getWords s)).
Proof.
  intros Hvalid Hpos. unfold QuizGenerator.selectWordsForQuiz, limit.
  destruct (Z.ltb_spec maxWords 0) as [Hneg|_]; [lia|].
  destruct (getWords s) as [|w ws] eqn:E.
  - simpl. now rewrite firstn_nil.
  - cbn [length Nat.eqb]. rewrite <- E in *.
    rewrite (order_by_ext QuizGenerator.stays_before by_rank).
    2:{ rewrite List.Forall_forall in Hvalid. intros a b Ha Hb.
        apply stays_before_by_rank; now apply Hvalid. }
    unfold QuizGenerator.slice0.
    set (sorted := Sql.order_by by_rank (getWords s)).
    destruct (Z.ltb_spec (Z.min maxWords (Z.of_nat (length sorted))) 0) as [Hneg|_]; [lia|].
    rewrite <- (firstn_saturates (Z.to_nat maxWords) sorted). f_equal. lia.
Qed.

(** *** The article generated on the device *)

Lemma string_app_assoc (a b c : string) : (a ++ b) ++ c = a ++ (b ++ c).
Proof.
  induction a as [|x a IH]; [reflexivity|].
  change ((String x a ++ b) ++ c) with (String x ((a ++ b) ++ c)).
  change (String x a ++ (b ++ c)) with (String x (a ++ (b ++ c))).
  now rewrite IH.
Qed.

Lemma prefix_app (p s : string) : String.prefix p (p ++ s) = true.
Proof.
  induction p as [|x p IH]; [now destruct s|].
  change (String x p ++ s) with (String x (p ++ s)). simpl.
  destruct (ascii_dec x x); [exact IH | congruence].
Qed.

Lemma skip_app (p s : string) : JsText.skip (String.length p) (p ++ s) = s.
Proof.
  induction p as [|x p IH]; [now destruct s|].
  change (String x p ++ s) with (String x (p ++ s)). exact IH.
Qed.

Lemma replace_unfold (s pat rep : string) :
  JsText.replace s pat rep =
  if String.prefix pat s then rep ++ JsText.skip (String.length pat) s
  else match s with
       | EmptyString => EmptyString
       | String c s' => String c (JsText.replace s' pat rep)
       end.
Proof. destruct s; reflexivity. Qed.

Lemma replace_here (pat rep rest : string) :
  JsText.replace (pat ++ rest) pat rep = rep ++ rest.
Proof. now rewrite replace_unfold, prefix_app, skip_app. Qed.

Lemma join_split (xs ys : list string) (y : string) :
  Js.join " " (xs ++ y :: ys) = lead xs (y ++ trail ys).
Proof.
  unfold Js.join. induction xs as [|x xs IH].
  - cbn [app lead fold_right]. revert y. induction ys as [|y' ys IHy]; intros y.
    + cbn [trail fold_right String.concat]. now rewrite ArticleFacts.append_empty.
    + change (String.concat " " (y :: y' :: ys))
        with (y ++ " " ++ String.concat " " (y' :: ys)).
      now rewrite IHy.
  - change (lead (x :: xs) (y ++ trail ys)) with (x ++ " " ++ lead xs (y ++ trail ys)).
    rewrite <- IH. destruct xs; reflexivity.
Qed.

Ltac split_sentence :=
  unfold blanked, QuizGenerator.sentence;
  repeat match goal with
         | |- context [if ?b then _ else _] => destruct b
         end.

(** The placeholder of a sentence is the first one left in the text that
    starts with it. *)
Lemma sentence_blanked (w : Word) (k : nat) (rest : string) :
  JsText.replace (QuizGenerator.sentence k w ++ rest) (QuizGenerator.placeholder k)
                 "______" =
  blanked w ++ rest.
Proof.
  split_sentence; rewrite !string_app_assoc;
    match goal with
    | |- JsText.replace (?p ++ (QuizGenerator.placeholder k ++ ?r)) _ _ = _ =>
        transitivity
          (p ++ JsText.replace (QuizGenerator.placeholder k ++ r)
                               (QuizGenerator.placeholder k) "______");
        [ change (QuizGenerator.placeholder k)
            with ("__W" ++ ("ORD_" ++ JsText.decimal k ++ "__"));
          generalize ("ORD_" ++ JsText.decimal k ++ "__"); intros pat;
          vm_compute; reflexivity
        | rewrite replace_here; vm_compute; reflexivity ]
    end.
Qed.

(** No placeholder starts in a sentence whose placeholder is a blank, nor
    in the space after it. *)
Lemma blanked_passed (w : Word) (k : nat) (rest : string) :
  JsText.replace (blanked w ++ " " ++ rest) (QuizGenerator.placeholder k) "______" =
  blanked w ++ " " ++ JsText.replace rest (QuizGenerator.placeholder k) "______".
Proof.
  change (QuizGenerator.placeholder k)
    with ("__W" ++ ("ORD_" ++ JsText.decimal k ++ "__")).
  generalize ("ORD_" ++ JsText.decimal k ++ "__"). intros pat.
  split_sentence; vm_compute; reflexivity.
Qed.

Lemma blanked_one_blank (w : Word) (rest : string) :
  Js.count_blanks_from 0 (blanked w ++ rest) = S (Js.count_blanks_from 0 rest).
Proof. split_sentence; vm_compute; reflexivity. Qed.

Lemma lead_passed (done : list Word) (k : nat) (rest : string) :
  JsText.replace (lead (map blanked done) rest) (QuizGenerator.placeholder k) "______" =
  lead (map blanked done) (JsText.replace rest (QuizGenerator.placeholder k) "______").
Proof.
  induction done as [|w done IH]; [reflexivity|].
  change (lead (map blanked (w :: done)) ?r)
    with (blanked w ++ " " ++ lead (map blanked done) r).
  now rewrite blanked_passed, IH.
Qed.

(** The replacements, one placeholder after the other. *)
Lemma placeholders_replaced (pending done : list Word) :
  fold_left (fun article index =>
               JsText.replace article (QuizGenerator.placeholder index) "______")
            (seq (length done) (length pending))
            (Js.join " " (map blanked done ++
                          imap (fun i => QuizGenerator.sentence (length done + i)) pending)) =
  Js.join " " (map blanked (done ++ pending)).
Proof.
  revert done. induction pending as [|w pending IH]; intros done.
  - simpl. now rewrite !app_nil_r.
  - cbn [length seq fold_left imap].
    rewrite Nat.add_0_r, join_split, lead_passed, sentence_blanked, <- join_split.
    replace (done ++ w :: pending)%list with ((done ++ [w]) ++ pending)%list
      by now rewrite <- app_assoc.
    rewrite <- IH. rewrite length_app, map_app. cbn [length map].
    rewrite Nat.add_1_r, <- app_assoc. cbn [app].
    assert (Himap :
              imap ((fun i => QuizGenerator.sentence (length done + i)) ∘ S) pending =
              imap (fun i => QuizGenerator.sentence (S (length done) + i)) pending).
    { apply imap_ext. intros i x _. cbn. f_equal. lia. }
    now rewrite Himap.
Qed.

Lemma blanked_article_blanks (ws : list Word) :
  Js.count_blanks (Js.join " " (map blanked ws)) = length ws.
Proof.
  unfold Js.count_blanks, Js.join.
  induction ws as [|w [|w' ws] IH].
  - reflexivity.
  - cbn [map String.concat]. rewrite <- (ArticleFacts.append_empty (blanked w)).
    now rewrite blanked_one_blank.
  - change (String.concat " " (map blanked (w :: w' :: ws)))
      with (blanked w ++ String " " (String.concat " " (map blanked (w' :: ws)))).
    rewrite blanked_one_blank.
    change (Js.count_blanks_from 0 (String " " ?s)) with (Js.count_blanks_from 0 s).
    now rewrite IH.
Qed.

(** X22.  The device applies the server's ladder.  [saveQuizResult] logs
    the answer as the last quiz result and leaves the daily counts alone;
    when no stored word has the id the words are left alone too, and
    otherwise the first word with the id, and only that one, is replaced
    by itself with [lastReviewed] set and with the bucket that
    POST /api/progress/quiz-result computes from the same bucket and
    answer. *)
Theorem device_review_follows_the_server_ladder stamp now today wordId isCorrect s :
  let s' := saveQuizResult stamp now today wordId isCorrect s in
  getQuizResults s' = (getQuizResults s ++ [mkQuizResult wordId isCorrect stamp])%list /\
  DAILY_WORDS_KEY s' = DAILY_WORDS_KEY s /\
  (List.find (fun w => String.eqb (id w) wordId) (getWords s) = None ->
   WORDS_KEY s' = WORDS_KEY s) /\
  (forall w, List.find (fun w => String.eqb (id w) wordId) (getWords s) = Some w ->
     exists l1 l2,
       getWords s = (l1 ++ w :: l2)%list /\
       Forall (fun y => String.eqb (id y) wordId = false) l1 /\
       getWords s' = (l1 ++ after_review w isCorrect now :: l2)%list).
Proof.
  cbv zeta. unfold saveQuizResult.
  set (s1 := mkAsyncStorage (WORDS_KEY s) _ (DAILY_WORDS_KEY s)).
  change (getWords s) with (getWords s1).
  destruct (updateWordBucket_cases now today wordId isCorrect s1)
    as [[Hnone ->] | (l1 & x & l2 & E & Hx & Hl1 & ->)].
  - repeat split; trivial. intros w Hw. rewrite Hnone in Hw. discriminate Hw.
  - repeat split; trivial.
    + intros Hnone. rewrite E, find_middle in Hnone; [discriminate Hnone|exact Hl1|].
      rewrite Hx. apply String.eqb_refl.
    + intros w Hw. rewrite E, find_middle in Hw; [|exact Hl1|].
      * injection Hw as <-. exists l1, l2. now repeat split.
      * rewrite Hx. apply String.eqb_refl.
Qed.

Lemma device_review_follows_the_server_ladder_witness :
  exists l1 l2,
    getWords two_words = (l1 ++ serendipity :: l2)%list /\
    Forall (fun y => String.eqb (id y) "word-1" = false) l1 /\
    getWords (saveQuizResult 1700000000000 1700000000001 "Tue Nov 14 2023"
                "word-1" true two_words) =
      (l1 ++ after_review serendipity true 1700000000001 :: l2)%list.
Proof.
  apply (device_review_follows_the_server_ladder 1700000000000 1700000000001
           "Tue Nov 14 2023" "word-1" true two_words).
  reflexivity.
Defined.

(** X23.  The daily counts of the device stay a window: in every storage
    the app produces from one where this holds, there are at most seven
    days, no date twice, every day counts at least one word, and the days
    together count no more words than are stored. *)
Theorem daily_counts_stay_a_window s0 s :
  window_ok s0 -> changes s0 s ->
  (length (getDailyWords s) <= 7)%nat /\
  List.NoDup (map date (getDailyWords s)) /\
  Forall (fun d => 1 <= count d) (getDailyWords s) /\
  HistorySpec.total count (getDailyWords s) <= Z.of_nat (length (getWords s)).
Proof.
  intros H0 Hch.
  assert (Hok : window_ok s).
  { induction Hch.
    - exact H0.
    - now apply window_saveWord.
    - now apply window_updateWordBucket.
    - unfold saveQuizResult. apply window_updateWordBucket.
      now apply (window_same s). }
  destruct Hok. now repeat split.
Qed.

Lemma daily_counts_stay_a_window_witness :
  (length (getDailyWords two_words) <= 7)%nat /\
  List.NoDup (map date (getDailyWords two_words)) /\
  Forall (fun d => 1 <= count d) (getDailyWords two_words) /\
  HistorySpec.total count (getDailyWords two_words) <=
    Z.of_nat (length (getWords two_words)).
Proof.
  apply (daily_counts_stay_a_window fresh_storage two_words).
  - split; simpl; try constructor; lia.
  - unfold two_words. repeat constructor.
Defined.

(** X24.  A saved word is read back: after [saveWord], looking a word up
    by the id of the saved word finds the saved word, looking up any
    other id finds what it found before, and the quiz results are as they
    were. *)
Theorem saved_word_is_read_back today w s :
  let s' := saveWord today w s in
  List.find (fun y => String.eqb (id y) (id w)) (getWords s') = Some w /\
  (forall k, k <> id w ->
     List.find (fun y => String.eqb (id y) k) (getWords s') =
     List.find (fun y => String.eqb (id y) k) (getWords s)) /\
  QUIZ_RESULTS_KEY s' = QUIZ_RESULTS_KEY s.
Proof.
  cbv zeta.
  destruct (saveWord_cases today w s)
    as [(l1 & x & l2 & E & Hx & Hl1 & ->) | (Hnone & Ew & Eq & _)].
  - unfold getWords at 1 2. cbn [WORDS_KEY QUIZ_RESULTS_KEY default from_option Datatypes.id]. repeat split.
    + apply find_middle; [exact Hl1 | apply String.eqb_refl].
    + intros k Hk. rewrite E. apply find_middle_other.
      * apply String.eqb_neq. congruence.
      * apply String.eqb_neq. congruence.
  - unfold getWords at 1 2. rewrite Ew. cbn [default from_option Datatypes.id]. repeat split; trivial.
    + apply (find_middle _ _ []); [exact Hnone | apply String.eqb_refl].
    + intros k Hk. apply find_snoc_miss. apply String.eqb_neq. congruence.
Qed.

Lemma saved_word_is_read_back_witness :
  List.find (fun y => String.eqb (id y) "word-1") (getWords two_words) =
  List.find (fun y => String.eqb (id y) "word-1")
            (getWords (saveWord "Tue Nov 14 2023" serendipity fresh_storage)).
Proof.
  apply (saved_word_is_read_back "Tue Nov 14 2023" ephemeral
           (saveWord "Tue Nov 14 2023" serendipity fresh_storage)).
  discriminate.
Defined.

(** X25.  The device never stores two words with one id: in every
    storage the app produces from one whose stored ids are distinct, the
    stored ids are distinct. *)
Theorem stored_ids_stay_distinct s0 s :
  List.NoDup (map id (getWords s0)) -> changes s0 s ->
  List.NoDup (map id (getWords s)).
Proof.
  intros H0 Hch. induction Hch.
  - exact H0.
  - now apply ids_saveWord.
  - now rewrite ids_updateWordBucket.
  - unfold saveQuizResult. now rewrite ids_updateWordBucket.
Qed.

Lemma stored_ids_stay_distinct_witness :
  List.NoDup (map id (getWords two_words)).
Proof.
  apply (stored_ids_stay_distinct fresh_storage two_words).
  - constructor.
  - unfold two_words. repeat constructor.
Defined.

(** X26.  The quiz chosen on the device prefers the words that need work.
    When every stored word is in one of the three buckets and the limit is
    not negative, [selectWordsForQuiz] returns stored words, as many as
    the limit allows, in the order needs work, familiar, well known; and
    no stored word left out has a higher priority than a word chosen. *)
Theorem device_quiz_prefers_needs_work maxWords s :
  Forall (fun w => HistorySpec.is_bucket (bucket w)) (getWords s) -> 0 <= maxWords ->
  let quiz := QuizGenerator.selectWordsForQuiz maxWords s in
  Z.of_nat (length quiz) = Z.min maxWords (Z.of_nat (length (getWords s))) /\
  (forall w, In w quiz -> In w (getWords s)) /\
  StronglySorted (fun a b => rank b <= rank a) quiz /\
  (forall x y, In x (getWords s) -> ~ In x quiz -> In y quiz -> rank x <= rank y).
Proof.
  intros Hvalid Hpos. cbv zeta. rewrite (selectWordsForQuiz_limit maxWords s Hvalid Hpos).
  destruct (order_by_limit by_rank by_rank_total by_rank_trans maxWords (getWords s))
    as (Hin & _ & Hsorted & Htop).
  cbv zeta in *. repeat split.
  - unfold limit. destruct (Z.ltb_spec maxWords 0) as [Hneg|_]; [lia|].
    rewrite length_firstn,
      (Permutation_length (order_by_perm by_rank (getWords s))). lia.
  - exact Hin.
  - clear Hin Htop.
    induction Hsorted as [|a l Hs IH Ha]; constructor; [exact IH|].
    eapply List.Forall_impl; [|exact Ha]. intros b Hb. now apply Z.leb_le.
  - intros x y Hx Hnot Hy. apply Z.leb_le. exact (Htop x y Hx Hnot Hy).
Qed.

Lemma device_quiz_prefers_needs_work_witness :
  Z.of_nat (length (QuizGenerator.selectWordsForQuiz 1 two_words)) =
  Z.min 1 (Z.of_nat (length (getWords two_words))).
Proof.
  apply (device_quiz_prefers_needs_work 1 two_words).
  - apply List.Forall_cons; [now left|].
    apply List.Forall_cons; [right; now left | constructor].
  - lia.
Defined.

(** X27.  The article generated on the device has one blank per word:
    [generateArticle] returns the sentences of the words, in order and
    joined by a space, each with its placeholder replaced by a blank, so
    that [extractBlanks] counts as many blanks as there are words. *)
Theorem device_article_has_a_blank_per_word (words : list Word) :
  QuizGenerator.generateArticle words = Js.join " " (map blanked words) /\
  QuizGenerator.extractBlanks (QuizGenerator.generateArticle words) = length words.
Proof.
  assert (Htext : QuizGenerator.generateArticle words = Js.join " " (map blanked words)).
  { unfold QuizGenerator.generateArticle. destruct words as [|w ws] eqn:E; [reflexivity|].
    rewrite <- E.
    replace (Nat.eqb (length words) 0) with false by now rewrite E.
    exact (placeholders_replaced words []). }
  split; [exact Htext|].
  unfold QuizGenerator.extractBlanks. rewrite Htext. apply blanked_article_blanks.
Qed.

End DeviceFacts.

(** ** The blanks of the quiz screen *)

Module ScreenFacts.

Import QuizScreen ScreenSpec.

Lemma placed_none {A} (f : nat -> A -> BlankPosition) (l : list A) :
  (forall i x, wordId (f i x) = None) -> omap wordId (imap f l) = [].
Proof.
  revert f. induction l as [|x l IH]; intros f Hf; [reflexivity|].
  cbn [imap omap list_omap]. rewrite Hf. apply IH. intros i y. apply Hf.
Qed.

Lemma correct_ids {A} (f : nat -> A -> BlankPosition) (g : A -> string) (l : list A) :
  (forall i x, correctWordId (f i x) = g x) -> map correctWordId (imap f l) = map g l.
Proof.
  revert f. induction l as [|x l IH]; intros f Hf; [reflexivity|].
  cbn [imap map]. rewrite Hf. f_equal. apply IH. intros i y. apply Hf.
Qed.

Lemma loadQuiz_accounted selectedWords generatedArticle st :
  List.NoDup (map Storage.id selectedWords) ->
  accounted (loadQuiz selectedWords generatedArticle st).
Proof.
  intros Hnd. split; unfold placed; cbn [words blanks availableWords loadQuiz].
  - exact Hnd.
  - now apply correct_ids.
  - rewrite placed_none by reflexivity. now rewrite app_nil_r.
Qed.

Lemma placed_middle (l1 l2 : list BlankPosition) (b : BlankPosition) :
  omap wordId (l1 ++ b :: l2)%list =
  (omap wordId l1 ++ match wordId b with Some k => [k] | None => [] end
                  ++ omap wordId l2)%list.
Proof.
  rewrite omap_app. f_equal. cbn [omap list_omap]. now destruct (wordId b).
Qed.

Lemma taken_from_offer (k : string) (l : list Storage.Word) :
  List.NoDup (map Storage.id l) ->
  existsb (fun w => String.eqb (Storage.id w) k) l = true ->
  Permutation (map Storage.id l)
              (k :: map Storage.id
                      (List.filter (fun w => negb (String.eqb (Storage.id w) k)) l)).
Proof.
  induction l as [|a l IH]; simpl; intros Hnd Hex; [discriminate|].
  apply List.NoDup_cons_iff in Hnd as [Ha Hnd].
  destruct (String.eqb_spec (Storage.id a) k) as [E|Hne]; simpl.
  - rewrite E. constructor.
    rewrite E in Ha. clear -Ha.
    induction l as [|b l IH]; simpl; [constructor|].
    destruct (String.eqb_spec (Storage.id b) k) as [E|_]; simpl.
    + exfalso. apply Ha. now left.
    + constructor. apply IH. intros Hin. apply Ha. now right.
  - rewrite perm_swap. constructor. now apply IH.
Qed.

Lemma select_accounted word st : accounted st -> accounted (handleWordSelect word st).
Proof.
  intros [Hids Hcorrect Hperm]. unfold handleWordSelect.
  destruct (submitted st); [now split|].
  destruct (existsb _ (availableWords st)) eqn:Hav; [|now split]. cbn [negb].
  destruct (Storage.findIndex _ (blanks st)) as [i|] eqn:Hi; [|now split].
  destruct (DeviceFacts.findIndex_Some _ _ _ Hi) as (l1 & b & l2 & E & <- & Hb & _).
  unfold placed in *. rewrite E in *. rewrite DeviceFacts.alter_middle.
  destruct (wordId b) eqn:Eb; [discriminate Hb|].
  split; cbn [words blanks availableWords].
  - exact Hids.
  - rewrite <- Hcorrect, !map_app. reflexivity.
  - unfold placed. cbn [blanks availableWords].
    rewrite placed_middle in *. cbn [wordId]. rewrite Eb in Hperm. cbn [app] in *.
    assert (Hoffer : List.NoDup (map Storage.id (availableWords st))).
    { apply (Permutation_NoDup (Permutation_sym Hperm)) in Hids.
      exact (List.NoDup_app_remove_r _ _ Hids). }
    rewrite <- Hperm, (taken_from_offer _ _ Hoffer Hav). cbn [app].
    symmetry. etransitivity; [apply Permutation_middle|].
    apply Permutation_app_head. apply Permutation_middle.
Qed.

Lemma remove_accounted blankIndex st :
  accounted st -> accounted (handleRemoveBlank blankIndex st).
Proof.
  intros [Hids Hcorrect Hperm]. unfold handleRemoveBlank.
  destruct (submitted st); [now split|].
  destruct (blanks st !! blankIndex) as [b|] eqn:Eb; [|now split].
  destruct (wordId b) as [k|] eqn:Ek; [|now split].
  destruct (Js.truthy k); [|now split]. cbn [negb].
  apply list_elem_of_split_length in Eb as (l1 & l2 & E & ->).
  unfold placed in *. rewrite E in *. rewrite DeviceFacts.alter_middle.
  rewrite placed_middle, Ek in Hperm.
  assert (Hk : In k (map Storage.id (words st))).
  { apply (Permutation_in _ Hperm). apply in_or_app. right.
    apply in_or_app. right. now left. }
  apply in_map_iff in Hk as (w & Hw & Hin).
  destruct (List.find (fun w => String.eqb (Storage.id w) k) (words st)) as [w'|] eqn:Ef.
  2:{ exfalso. pose proof (List.find_none _ _ Ef w Hin) as Hno. simpl in Hno.
      rewrite Hw, String.eqb_refl in Hno. discriminate Hno. }
  apply List.find_some in Ef as [_ Ew']. apply String.eqb_eq in Ew'.
  split; cbn [words blanks availableWords].
  - exact Hids.
  - rewrite <- Hcorrect, !map_app. reflexivity.
  - unfold placed. cbn [blanks availableWords].
    rewrite placed_middle. cbn [wordId app]. rewrite <- Hperm, map_app. cbn [map].
    rewrite Ew', <- !app_assoc. apply Permutation_app_head. cbn [app].
    apply Permutation_middle.
Qed.

Lemma plays_accounted st0 st : accounted st0 -> plays st0 st -> accounted st.
Proof.
  intros H0 Hplay. induction Hplay.
  - exact H0.
  - now apply select_accounted.
  - now apply remove_accounted.
  - unfold handleSubmit. destruct (existsb _ (blanks st)); [exact IHHplay|].
    destruct IHHplay. now split.
Qed.

Lemma all_placed_length (l : list BlankPosition) :
  existsb (fun b => is_null (wordId b)) l = false ->
  length (omap wordId l) = length l.
Proof.
  induction l as [|b l IH]; [reflexivity|].
  cbn [existsb omap list_omap]. destruct (wordId b); cbn [is_null orb]; [|discriminate].
  intros H. cbn [length]. now rewrite IH.
Qed.

(** X28.  In the quiz screen every word is used exactly once.  When the
    words of a quiz have distinct ids then, whatever is selected, removed
    or submitted afterwards, each word is either on offer or placed in
    one blank, never both and never twice; the blanks expect the words in
    order; and once no blank is empty nothing is left on offer and
    submitting reports one result per word of the quiz, in order. *)
Theorem quiz_screen_uses_each_word_once selectedWords generatedArticle st0 st :
  List.NoDup (map Storage.id selectedWords) ->
  plays (loadQuiz selectedWords generatedArticle st0) st ->
  words st = selectedWords /\
  map correctWordId (blanks st) = map Storage.id selectedWords /\
  Permutation (map Storage.id (availableWords st) ++ placed st)
              (map Storage.id selectedWords) /\
  (existsb (fun b => is_null (wordId b)) (blanks st) = false ->
   availableWords st = [] /\
   map fst (snd (handleSubmit st)) = map Storage.id selectedWords).
Proof.
  intros Hnd Hplay.
  assert (Hwords : words st = selectedWords).
  { clear Hnd. induction Hplay as [|word st Hplay IH|i st Hplay IH|st Hplay IH].
    - reflexivity.
    - rewrite <- IH. unfold handleWordSelect.
      repeat (ProgressFacts.split_match; try reflexivity).
    - rewrite <- IH. unfold handleRemoveBlank.
      repeat (ProgressFacts.split_match; try reflexivity).
    - rewrite <- IH. unfold handleSubmit.
      repeat (ProgressFacts.split_match; try reflexivity). }
  destruct (plays_accounted _ st (loadQuiz_accounted _ generatedArticle st0 Hnd) Hplay)
    as [_ Hcorrect Hperm].
  rewrite Hwords in *. repeat split; trivial.
  - pose proof (Permutation_length Hperm) as Hlen.
    rewrite length_app, !length_map in Hlen.
    unfold placed in Hlen. rewrite (all_placed_length _ H) in Hlen.
    assert (Hb : length (blanks st) = length selectedWords).
    { rewrite <- (length_map correctWordId), Hcorrect. apply length_map. }
    destruct (availableWords st); [reflexivity | simpl in Hlen; lia].
  - unfold handleSubmit. rewrite H. cbn [snd]. rewrite map_map. exact Hcorrect.
Qed.

Lemma quiz_screen_uses_each_word_once_witness :
  availableWords all_placed = [] /\
  map fst (snd (handleSubmit all_placed)) =
    map Storage.id [DeviceSpec.serendipity; DeviceSpec.ephemeral].
Proof.
  apply (quiz_screen_uses_each_word_once
           [DeviceSpec.serendipity; DeviceSpec.ephemeral]
           "Finding it was pure ______. The ______ moment passed." idle all_placed).
  - repeat constructor; simpl; intuition discriminate.
  - unfold all_placed, opened. repeat constructor.
  - reflexivity.
Defined.

(** *** Pressing a blank *)

Lemma drawBlanks_after st n k :
  (k <= length (blanks st))%nat ->
  snd (drawBlanks st n k) = Nat.min (k + n) (length (blanks st)).
Proof.
  revert k. induction n as [|n IH]; intros k Hk; cbn [drawBlanks]; [cbn [snd]; lia|].
  destruct (Nat.ltb_spec k (length (blanks st))) as [Hlt|Hge].
  - destruct (blanks st !! k) as [b|].
    + specialize (IH (S k) Hlt). destruct (drawBlanks st n (S k)) as [els after].
      cbn [snd] in *. lia.
    + rewrite (IH (S k) Hlt). lia.
  - rewrite (IH k Hk). lia.
Qed.

Lemma drawBlanks_keys st n k el :
  (k <= length (blanks st))%nat ->
  In el (fst (drawBlanks st n k)) ->
  (k <= key el < snd (drawBlanks st n k))%nat.
Proof.
  revert k. induction n as [|n IH]; intros k Hk; cbn [drawBlanks]; [intros []|].
  destruct (Nat.ltb_spec k (length (blanks st))) as [Hlt|Hge].
  - pose proof (drawBlanks_after st n (S k) Hlt) as Hafter.
    destruct (blanks st !! k) as [b|].
    + specialize (IH (S k) Hlt).
      destruct (drawBlanks st n (S k)) as [els after]. cbn [fst snd] in *.
      intros [<-|Hin]; [cbn [key]; lia|]. specialize (IH Hin). lia.
    + intros Hin. specialize (IH (S k) Hlt Hin). lia.
  - apply IH, Hk.
Qed.

Lemma handleRemoveBlank_elsewhere (i j : nat) st :
  i <> j -> blanks (handleRemoveBlank i st) !! j = blanks st !! j.
Proof.
  intros Hne. unfold handleRemoveBlank.
  destruct (submitted st); [reflexivity|].
  destruct (blanks st !! i) as [b|]; [|reflexivity].
  destruct (wordId b) as [k|]; [|reflexivity].
  destruct (Js.truthy k); [|reflexivity].
  cbn [negb blanks]. now apply list_lookup_alter_ne.
Qed.

(** X29.  Pressing a filled blank never empties it.  The [onPress] of
    every blank that [renderArticle] draws reads the counter the render
    loop leaves behind, which is past the index of each blank drawn: a
    press leaves the pressed blank as it is, and when the article has at
    least as many blanks as the quiz has words, a press before submission
    leaves the whole state as it is (the handler throws). *)
Theorem pressing_a_blank_never_empties_it st el :
  In el (fst (renderArticle st)) ->
  (key el < snd (renderArticle st))%nat /\
  blanks (press el st) !! key el = blanks st !! key el /\
  ((length (blanks st) <= Js.count_blanks (article st))%nat ->
   submitted st = false -> press el st = st).
Proof.
  unfold press, renderArticle.
  destruct (negb (Js.truthy (article st)) || Nat.eqb (length (blanks st)) 0);
    [intros []|].
  intros Hin.
  pose proof (drawBlanks_keys st _ 0 el (Nat.le_0_l _) Hin) as [_ Hkey].
  pose proof (drawBlanks_after st (Js.count_blanks (article st)) 0 (Nat.le_0_l _))
    as Hafter.
  split; [exact Hkey|]. split.
  - unfold onPress. repeat (ProgressFacts.split_match; try reflexivity).
    apply handleRemoveBlank_elsewhere. lia.
  - intros Hmany Hsub. unfold onPress. rewrite Hsub.
    destruct (isFilled el); [|reflexivity]. cbn [andb negb].
    rewrite Hafter, Nat.add_0_l, Nat.min_r by exact Hmany.
    unfold handleRemoveBlank. rewrite Hsub.
    now rewrite (proj2 (lookup_ge_None (blanks st) (length (blanks st))) (Nat.le_refl _)).
Qed.

Lemma pressing_a_blank_never_empties_it_witness :
  let el := mkBlankElement 0 true (Some DeviceSpec.ephemeral) in
  (key el < snd (renderArticle all_placed))%nat /\
  blanks (press el all_placed) !! key el = blanks all_placed !! key el /\
  ((length (blanks all_placed) <= Js.count_blanks (article all_placed))%nat ->
   submitted all_placed = false -> press el all_placed = all_placed).
Proof.
  apply (pressing_a_blank_never_empties_it all_placed
           (mkBlankElement 0 true (Some DeviceSpec.ephemeral))).
  vm_compute. now left.
Defined.

End ScreenFacts.
